(** * YarvixBrowser: credential manager and ad blocker

    A shallow embedding of the two subsystems the specification covers:
    the [CredentialManager] class (encrypted credential store, never-save
    list) and the [AdBlocker] class with the [onBeforeRequest] handler that
    consults it.

    Conventions.
    - Identifiers the code compares or uses as keys (URLs, origins, host
      names, user names, passwords) are [string]s, kept as their UTF-8
      octets; where the code counts or cuts a string ([length],
      [substring]) the model does so on its UTF-16 code units
      ([code_units]). Request URLs are serialised URLs, so case folding is
      that of the ASCII letters.
    - Counters and timestamps are JavaScript numbers that hold integers;
      they are [Z].
    - A [Buffer] is a list of octets, each a [Z] in [0, 256).
    - Text handed to the cipher is modelled as the encoder sees it: a list
      of UTF-16 code units, each a [Z] in [0, 65536).
    - The host runtime (URL parser, AES-GCM, the OS key store, JSON,
      regular expressions) is not part of the repository; it enters as
      Section variables, with the facts assumed about it as Section
      hypotheses.
    - File system, random source, clock and console are fields of an
      explicit state, threaded through a state-and-exception monad. *)

From stdpp Require Import gmap strings list sorting.
From Stdlib Require Import ZArith Ascii String DecimalString.

Local Open Scope string_scope.
Local Open Scope Z_scope.

(** ** Octets, hex and UTF-8 *)

Abbreviation Buffer := (list Z).
Abbreviation Text := (list Z).

Definition is_byte (b : Z) : Prop := 0 <= b < 256.

(** [buf.slice(a, b)] and [buf.slice(a)] for in-range, ordered bounds. *)
Definition slice (a b : nat) (buf : Buffer) : Buffer := take (b - a)%nat (drop a buf).
Definition slice_from (a : nat) (buf : Buffer) : Buffer := drop a buf.

Definition hex_digit (n : Z) : ascii :=
  if n <? 10 then ascii_of_N (Z.to_N (48 + n)) else ascii_of_N (Z.to_N (87 + n)).

Definition hex_value (c : ascii) : option Z :=
  let n := Z.of_N (N_of_ascii c) in
  if (48 <=? n) && (n <=? 57) then Some (n - 48)
  else if (97 <=? n) && (n <=? 102) then Some (n - 87)
  else if (65 <=? n) && (n <=? 70) then Some (n - 55)
  else None.

(** [buf.toString('hex')]: what [cipher.update(.., 'hex')] followed by
    [cipher.final('hex')] concatenate to. *)
Fixpoint to_hex (buf : Buffer) : string :=
  match buf with
  | [] => EmptyString
  | b :: rest => String (hex_digit (b / 16)) (String (hex_digit (b mod 16)) (to_hex rest))
  end.

(** [Buffer.from(s, 'hex')]: pairs of hex digits, stopping at the first
    pair that is not one. *)
Fixpoint Buffer_from_hex (s : string) : Buffer :=
  match s with
  | String a (String b rest) =>
      match hex_value a, hex_value b with
      | Some x, Some y => (16 * x + y) :: Buffer_from_hex rest
      | _, _ => []
      end
  | _ => []
  end.

Definition is_unit (c : Z) : bool := (0 <=? c) && (c <? 65536).
Definition is_high (c : Z) : bool := (55296 <=? c) && (c <=? 56319).
Definition is_low (c : Z) : bool := (56320 <=? c) && (c <=? 57343).

Definition utf8_of_code_point (cp : Z) : Buffer :=
  if cp <? 128 then [cp]
  else if cp <? 2048 then [192 + cp / 64; 128 + cp mod 64]
  else if cp <? 65536 then [224 + cp / 4096; 128 + (cp / 64) mod 64; 128 + cp mod 64]
  else [240 + cp / 262144; 128 + (cp / 4096) mod 64; 128 + (cp / 64) mod 64; 128 + cp mod 64].

(** U+FFFD in UTF-8. *)
Definition replacement : Buffer := [239; 191; 189].

(** The runtime's string-to-UTF-8 conversion ([Buffer.from(s, 'utf8')], and
    [cipher.update(s, 'utf8', ..)]): a surrogate pair is one code point, a
    surrogate without its partner is written as U+FFFD. *)
Fixpoint utf8_encode (s : Text) : Buffer :=
  match s with
  | [] => []
  | c :: rest =>
      if is_high c then
        match rest with
        | d :: rest' =>
            if is_low d
            then utf8_of_code_point (65536 + (c - 55296) * 1024 + (d - 56320)) ++ utf8_encode rest'
            else replacement ++ utf8_encode rest
        | [] => replacement
        end
      else if is_low c then replacement ++ utf8_encode rest
      else utf8_of_code_point c ++ utf8_encode rest
  end.

(** A string with no unpaired surrogate, every unit in range. *)
Fixpoint well_formed (s : Text) : bool :=
  match s with
  | [] => true
  | c :: rest =>
      is_unit c &&
      (if is_high c then
         match rest with
         | d :: rest' => is_low d && well_formed rest'
         | [] => false
         end
       else negb (is_low c) && well_formed rest)
  end.

(** A UTF-8 decoder for sequences the encoder above produces (it does not
    validate; used to instantiate the runtime's decoder). *)
Fixpoint utf8_decode_plain (b : Buffer) : Text :=
  match b with
  | [] => []
  | b0 :: t0 =>
      if b0 <? 128 then b0 :: utf8_decode_plain t0
      else if b0 <? 224 then
        match t0 with
        | b1 :: t1 => ((b0 - 192) * 64 + (b1 - 128)) :: utf8_decode_plain t1
        | _ => [65533]
        end
      else if b0 <? 240 then
        match t0 with
        | b1 :: b2 :: t2 =>
            ((b0 - 224) * 4096 + (b1 - 128) * 64 + (b2 - 128)) :: utf8_decode_plain t2
        | _ => [65533]
        end
      else
        match t0 with
        | b1 :: b2 :: b3 :: t3 =>
            let v := (b0 - 240) * 262144 + (b1 - 128) * 4096 + (b2 - 128) * 64 + (b3 - 128) - 65536 in
            (55296 + v / 1024) :: (56320 + v mod 1024) :: utf8_decode_plain t3
        | _ => [65533]
        end
  end.

(** A string is kept as its UTF-8 octets. [code_units s] are its UTF-16
    code units, which is what [s.length], [s.substring] and indexing
    count in. *)
Definition octets (s : string) : Buffer :=
  map (fun a => Z.of_N (N_of_ascii a)) (list_ascii_of_string s).
Definition code_units (s : string) : Text := utf8_decode_plain (octets s).

(** ** Data model *)

(** What [new URL(url)] exposes of a parsed URL. *)
Record URL := mkURL { protocol : string; host : string; hostname : string }.

(** One stored record: [{ username, password, createdAt, updatedAt }]. *)
Record Credential := mkCredential {
  username : string;
  password : string;
  createdAt : Z;
  updatedAt : Z
}.

(** What [getCredentials] hands out for autofill. *)
Record AutofillEntry := mkAutofillEntry {
  af_username : string;
  af_password : string;
  af_origin : string;
  af_displayName : Text
}.

(** The three files under [userDataPath]. *)
Inductive Path := credentialsFile | neverSaveFile | encryptionKeyFile.

(** A file is absent, holds bytes, or exists and cannot be read. *)
Inductive File := Missing | Stored (content : Buffer) | Unreadable.

Inductive Error := TypeError | SyntaxError | SystemError | CryptoError.

Inductive Level := LOG | WARN | ERROR.

(** The [CredentialManager] object together with the part of the host it
    touches: the disk, [crypto.randomBytes], [Date.now] and the console. *)
Record Sys := mkSys {
  credentialsCache : gmap string (list Credential);
  neverSaveSites : gset string;
  useOSStorage : bool;
  disk : Path -> File;
  readOnly : bool;
  entropy : nat -> Z;
  drawn : nat;
  clock : nat -> Z;
  ticks : nat;
  console : list (Level * string)
}.

Definition set_credentialsCache (f : gmap string (list Credential) -> gmap string (list Credential))
    (s : Sys) : Sys :=
  mkSys (f (credentialsCache s)) (neverSaveSites s) (useOSStorage s) (disk s) (readOnly s)
        (entropy s) (drawn s) (clock s) (ticks s) (console s).
Definition set_neverSaveSites (f : gset string -> gset string) (s : Sys) : Sys :=
  mkSys (credentialsCache s) (f (neverSaveSites s)) (useOSStorage s) (disk s) (readOnly s)
        (entropy s) (drawn s) (clock s) (ticks s) (console s).
Definition set_useOSStorage (b : bool) (s : Sys) : Sys :=
  mkSys (credentialsCache s) (neverSaveSites s) b (disk s) (readOnly s)
        (entropy s) (drawn s) (clock s) (ticks s) (console s).
Definition set_disk (f : (Path -> File) -> Path -> File) (s : Sys) : Sys :=
  mkSys (credentialsCache s) (neverSaveSites s) (useOSStorage s) (f (disk s)) (readOnly s)
        (entropy s) (drawn s) (clock s) (ticks s) (console s).
Definition set_drawn (n : nat) (s : Sys) : Sys :=
  mkSys (credentialsCache s) (neverSaveSites s) (useOSStorage s) (disk s) (readOnly s)
        (entropy s) n (clock s) (ticks s) (console s).
Definition set_ticks (n : nat) (s : Sys) : Sys :=
  mkSys (credentialsCache s) (neverSaveSites s) (useOSStorage s) (disk s) (readOnly s)
        (entropy s) (drawn s) (clock s) n (console s).
Definition set_console (f : list (Level * string) -> list (Level * string)) (s : Sys) : Sys :=
  mkSys (credentialsCache s) (neverSaveSites s) (useOSStorage s) (disk s) (readOnly s)
        (entropy s) (drawn s) (clock s) (ticks s) (f (console s)).

Definition Path_eqb (p q : Path) : bool :=
  match p, q with
  | credentialsFile, credentialsFile
  | neverSaveFile, neverSaveFile
  | encryptionKeyFile, encryptionKeyFile => true
  | _, _ => false
  end.

Definition write_file (p : Path) (c : Buffer) (d : Path -> File) : Path -> File :=
  fun q => if Path_eqb p q then Stored c else d q.

(** ** State and exceptions *)

Inductive Result (A : Type) := Ok (a : A) | Throw (e : Error).
Arguments Ok {A} a.
Arguments Throw {A} e.

Definition M (A : Type) : Type := Sys -> Result A * Sys.

Definition ret {A} (a : A) : M A := fun s => (Ok a, s).
Definition throw {A} (e : Error) : M A := fun s => (Throw e, s).
Definition bind {A B} (c : M A) (k : A -> M B) : M B :=
  fun s => match c s with
           | (Ok a, s') => k a s'
           | (Throw e, s') => (Throw e, s')
           end.
(** [try { body } catch (err) { handler }] *)
Definition try_catch {A} (body : M A) (handler : Error -> M A) : M A :=
  fun s => match body s with
           | (Ok a, s') => (Ok a, s')
           | (Throw e, s') => handler e s'
           end.
Definition gets {A} (f : Sys -> A) : M A := fun s => (Ok (f s), s).
Definition modify (f : Sys -> Sys) : M unit := fun s => (Ok tt, f s).

Notation "x <- c1 ;; c2" := (bind c1 (fun x => c2))
  (at level 100, c1 at next level, right associativity).
Notation "c1 ;; c2" := (bind c1 (fun _ => c2))
  (at level 100, right associativity).

(** *** Host primitives *)

Definition existsSync (p : Path) : M bool :=
  gets (fun s => match disk s p with Missing => false | _ => true end).

Definition readFileSync (p : Path) : M Buffer :=
  fun s => match disk s p with
           | Stored c => (Ok c, s)
           | _ => (Throw SystemError, s)
           end.

Definition writeFileSync (p : Path) (c : Buffer) : M unit :=
  fun s => if readOnly s then (Throw SystemError, s)
           else (Ok tt, set_disk (write_file p c) s).

(** [crypto.randomBytes(n)] *)
Definition randomBytes (n : nat) : M Buffer :=
  fun s => (Ok (map (fun i => entropy s i mod 256) (seq (drawn s) n)),
            set_drawn (drawn s + n)%nat s).

(** [Date.now()] *)
Definition Date_now : M Z :=
  fun s => (Ok (clock s (ticks s)), set_ticks (S (ticks s)) s).

Definition console_out (l : Level) (msg : string) : M unit :=
  modify (set_console (fun c => (c ++ [(l, msg)])%list)).

(** ** String helpers *)

(** [s.split(sep)] for a one-character separator. *)
Fixpoint split (sep : ascii) (s : string) : list string :=
  match s with
  | EmptyString => [EmptyString]
  | String c rest =>
      if Ascii.eqb c sep then EmptyString :: split sep rest
      else match split sep rest with
           | p :: ps => String c p :: ps
           | [] => [String c EmptyString]
           end
  end.

(** [s.includes(c)] for a one-character needle. *)
Fixpoint includes_char (c : ascii) (s : string) : bool :=
  match s with
  | EmptyString => false
  | String d rest => Ascii.eqb d c || includes_char c rest
  end.

(** ** Ad blocker: data *)

Record RegExp := mkRegExp { source : string; flags : string }.

Definition AD_DOMAINS : list string := [
  "doubleclick.net";
  "googlesyndication.com";
  "googleadservices.com";
  "google-analytics.com";
  "googletagmanager.com";
  "googletagservices.com";
  "adservice.google.com";
  "pagead2.googlesyndication.com";
  "tpc.googlesyndication.com";
  "youtubekids.com";
  "facebook.com/tr";
  "connect.facebook.net/en_US/fbevents";
  "pixel.facebook.com";
  "an.facebook.com";
  "amazon-adsystem.com";
  "aax.amazon-adsystem.com";
  "fls-na.amazon-adsystem.com";
  "bat.bing.com";
  "ads.microsoft.com";
  "ads-twitter.com";
  "analytics.twitter.com";
  "static.ads-twitter.com";
  "adnxs.com";
  "advertising.com";
  "adsrvr.org";
  "adroll.com";
  "criteo.com";
  "criteo.net";
  "outbrain.com";
  "taboola.com";
  "mgid.com";
  "revcontent.com";
  "zergnet.com";
  "adcolony.com";
  "admob.com";
  "applovin.com";
  "unity3d.com/webview";
  "unityads.unity3d.com";
  "mopub.com";
  "vungle.com";
  "chartboost.com";
  "inmobi.com";
  "pubmatic.com";
  "rubiconproject.com";
  "openx.net";
  "spotxchange.com";
  "smartadserver.com";
  "media.net";
  "contextweb.com";
  "bidswitch.net";
  "casalemedia.com";
  "lijit.com";
  "sovrn.com";
  "sharethrough.com";
  "triplelift.com";
  "indexexchange.com";
  "scorecardresearch.com";
  "quantserve.com";
  "segment.io";
  "segment.com";
  "mixpanel.com";
  "amplitude.com";
  "hotjar.com";
  "fullstory.com";
  "mouseflow.com";
  "crazyegg.com";
  "clicktale.com";
  "optimizely.com";
  "omtrdc.net";
  "demdex.net";
  "bluekai.com";
  "krxd.net";
  "exelator.com";
  "tapad.com";
  "rlcdn.com";
  "liveramp.com";
  "adsymptotic.com";
  "newrelic.com";
  "nr-data.net";
  "propellerads.com";
  "popcash.net";
  "popads.net";
  "exoclick.com";
  "juicyads.com";
  "trafficjunky.com";
  "clickadu.com";
  "hilltopads.com";
  "imasdk.googleapis.com";
  "static.doubleclick.net";
  "ad.doubleclick.net";
  "pubads.g.doubleclick.net";
  "pixel.wp.com";
  "stats.wp.com";
  "pixel.quantserve.com"
].

Definition BLOCK_PATTERNS : list RegExp := [
  mkRegExp "\/ads\/" "i";
  mkRegExp "\/ad\/" "i";
  mkRegExp "\/advertisement" "i";
  mkRegExp "\/advert" "i";
  mkRegExp "\/banner[_-]?ad" "i";
  mkRegExp "\/pop[_-]?under" "i";
  mkRegExp "\/pop[_-]?up" "i";
  mkRegExp "\.gif\?.*ad" "i";
  mkRegExp "\/sponsored" "i";
  mkRegExp "\/tracking" "i";
  mkRegExp "\/tracker" "i";
  mkRegExp "\/pixel\." "i";
  mkRegExp "\/beacon" "i";
  mkRegExp "\/analytics\.js" "i";
  mkRegExp "\/gtag\/js" "i";
  mkRegExp "\/gtm\.js" "i";
  mkRegExp "ad[_-]?server" "i";
  mkRegExp "adserv" "i";
  mkRegExp "doubleclick" "i";
  mkRegExp "\/pagead\/" "i";
  mkRegExp "\/adsbygoogle" "i";
  mkRegExp "google_ads" "i";
  mkRegExp "prebid" "i";
  mkRegExp "\/outbrain" "i";
  mkRegExp "\/taboola" "i";
  mkRegExp "\/mgid" "i";
  mkRegExp "[?&]ad_" "i";
  mkRegExp "[?&]dae_" "i";
  mkRegExp "[?&]投放 " "i";
  mkRegExp "\/api\/stats\/ads" "i";
  mkRegExp "\/get_midroll_info" "i";
  mkRegExp "\/player_ads" "i";
  mkRegExp "\/ads\.js" "i";
  mkRegExp "\/ad_status" "i";
  mkRegExp "\/youtubei\/v1\/ads" "i";
  mkRegExp "\/v1\/postpublish" "i";
  mkRegExp "\/ptracking" "i";
  mkRegExp "\/attribution" "i";
  mkRegExp "\/set_adsense_visiblity" "i";
  mkRegExp "\/ivs\/set" "i";
  mkRegExp "\/drm_license" "i";
  mkRegExp "\/videotagsessio" "i";
  mkRegExp "\/watermark\/.*ad" "i";
  mkRegExp "ytad" "";
  mkRegExp "youtubeads" "";
  mkRegExp "video_ad" "";
  mkRegExp "adsegment" "";
  mkRegExp "\/ad-stream" "i";
  mkRegExp "\/preroll" "i";
  mkRegExp "\/midroll" "i";
  mkRegExp "\/postroll" "i";
  mkRegExp "adfmt" "";
  mkRegExp "adfmtc" "";
  mkRegExp "\/htmlad\.swf" "i";
  mkRegExp "\/ad\/[a-z]*\.js" "i";
  mkRegExp "\/pubads" "i";
  mkRegExp "\/gpt\/pubads" "i";
  mkRegExp "\/companion_ad" "i";
  mkRegExp "\/vast" "";
  mkRegExp "\/vmap" "";
  mkRegExp "\/ima3" "i";
  mkRegExp "\/imasdk" "i";
  mkRegExp "\/dai" "";
  mkRegExp "\/oembed.*ad" "i";
  mkRegExp "\/adbreak" "i";
  mkRegExp "\/adstart" "i";
  mkRegExp "\/adtimeshift" "i";
  mkRegExp "\/adpause" "i";
  mkRegExp "\/adresume" "i";
  mkRegExp "\/adclick" "i";
  mkRegExp "\/adimpression" "i";
  mkRegExp "\/adview" "";
  mkRegExp "\/advol" "";
  mkRegExp "\/adver" "";
  mkRegExp "\/adframe" "";
  mkRegExp "\/adfeed" "";
  mkRegExp "\/adlog" "";
  mkRegExp "\/adcount" "";
  mkRegExp "\/adcountdown" "";
  mkRegExp "\/adsystem" "";
  mkRegExp "\/adsense" "";
  mkRegExp "\/adsinfo" "";
  mkRegExp "\/adspeed" "";
  mkRegExp "\/adstory" "";
  mkRegExp "\/adtest" "";
  mkRegExp "\/adtrack" "";
  mkRegExp "\/adurl" "";
  mkRegExp "\/adverify" "";
  mkRegExp "\/adwatch" "";
  mkRegExp "\/adzone" "";
  mkRegExp "\/adword" "";
  mkRegExp "\/adwork" "";
  mkRegExp "\/sponsored_search" "";
  mkRegExp "\/product_ads" "";
  mkRegExp "\/shopping_ads" "";
  mkRegExp "\/display_ads" "";
  mkRegExp "\/text_ads" "";
  mkRegExp "\/link_ads" "";
  mkRegExp "\/video_ads" "";
  mkRegExp "\/instream_ads" "";
  mkRegExp "\/preroll_ads" "";
  mkRegExp "\/overlay_ads" "";
  mkRegExp "\/banner_ads" "";
  mkRegExp "\/sticky_ads" "";
  mkRegExp "\/popup_ads" "";
  mkRegExp "\/interstitial_ads" "";
  mkRegExp "\/native_ads" "";
  mkRegExp "\/native_ad" "";
  mkRegExp "\/content_ads" "";
  mkRegExp "\/contextual_ads" "";
  mkRegExp "\/matched_content" "";
  mkRegExp "\/custom_ads" "";
  mkRegExp "\/house_ads" "";
  mkRegExp "\/remnant_ads" "";
  mkRegExp "\/backfill_ads" "";
  mkRegExp "\/deadnet_ads" ""
].

Definition youtubeAdPatterns : list RegExp := [
  mkRegExp "[?&]ad_" "";
  mkRegExp "[?&]dae_" "";
  mkRegExp "[?&]投放" "";
  mkRegExp "\/api\/stats\/ads" "";
  mkRegExp "\/get_midroll_info" "";
  mkRegExp "\/player_ads" "";
  mkRegExp "\/ads\.js" "";
  mkRegExp "\/ad_status" "";
  mkRegExp "\/youtubei\/v1\/ads" "";
  mkRegExp "\/v1\/postpublish" "";
  mkRegExp "\/ptracking" "";
  mkRegExp "\/attribution" "";
  mkRegExp "\/set_adsense_visiblity" "";
  mkRegExp "\/ivs\/set" "";
  mkRegExp "\/drm_license" "";
  mkRegExp "\/videotagsessio" "";
  mkRegExp "\/watermark\/.*ad" "";
  mkRegExp "ytad" "";
  mkRegExp "youtubeads" "";
  mkRegExp "video_ad" "";
  mkRegExp "adsegment" "";
  mkRegExp "\/ad-stream" "";
  mkRegExp "\/preroll" "";
  mkRegExp "\/midroll" "";
  mkRegExp "\/postroll" "";
  mkRegExp "adfmt" "";
  mkRegExp "adfmtc" "";
  mkRegExp "\/htmlad\.swf" "";
  mkRegExp "\/ad\/[a-z]*\.js" "";
  mkRegExp "\/pubads" "";
  mkRegExp "\/gpt\/pubads" "";
  mkRegExp "\/companion_ad" "";
  mkRegExp "\/vast" "";
  mkRegExp "\/vmap" "";
  mkRegExp "\/ima3" "";
  mkRegExp "\/imasdk" "";
  mkRegExp "\/dai" "";
  mkRegExp "\/oembed.*ad" "";
  mkRegExp "\/adbreak" "";
  mkRegExp "\/adstart" "";
  mkRegExp "\/adtimeshift" "";
  mkRegExp "\/adpause" "";
  mkRegExp "\/adresume" "";
  mkRegExp "\/adclick" "";
  mkRegExp "\/adimpression" "";
  mkRegExp "\/adview" "";
  mkRegExp "\/adsystem" "";
  mkRegExp "\/adsense" "";
  mkRegExp "\/adsinfo" "";
  mkRegExp "\/adspeed" "";
  mkRegExp "\/adstory" "";
  mkRegExp "\/adtest" "";
  mkRegExp "\/adtrack" "";
  mkRegExp "\/adurl" "";
  mkRegExp "\/adverify" "";
  mkRegExp "\/adwatch" "";
  mkRegExp "\/adzone" "";
  mkRegExp "\/ptracking\?.*video_id" "";
  mkRegExp "\/attribution\?" "";
  mkRegExp "\/get_ad_signals" "";
  mkRegExp "\/ad_frag" "";
  mkRegExp "\/ads\/.*\.js" "";
  mkRegExp "\/creative\/.*\.js" "";
  mkRegExp "\/load_ad" "";
  mkRegExp "\/load_ads" "";
  mkRegExp "\/show_ad" "";
  mkRegExp "\/show_ads" "";
  mkRegExp "\/trigger_ad" "";
  mkRegExp "\/log_ad" "";
  mkRegExp "\/ping_ad" "";
  mkRegExp "\/ping_ads" "";
  mkRegExp "\/track_ad" "";
  mkRegExp "\/track_ads" ""
].

(** [s.toLowerCase()] on the ASCII letters. *)
Definition lower_char (c : ascii) : ascii :=
  let n := N_of_ascii c in
  if ((65 <=? n) && (n <=? 90))%N then ascii_of_N (n + 32) else c.
Fixpoint toLowerCase (s : string) : string :=
  match s with
  | EmptyString => EmptyString
  | String c rest => String (lower_char c) (toLowerCase rest)
  end.

(** [s.includes(needle)] *)
Fixpoint includes (needle s : string) : bool :=
  String.prefix needle s ||
  match s with
  | EmptyString => false
  | String _ rest => includes needle rest
  end.

(** [n.toString()] for an integer. *)
Definition Z_toString (n : Z) : string := DecimalString.NilZero.string_of_int (Z.to_int n).

(** The [AdBlocker] object; [stats] is flattened into its three fields. *)
Record AdBlocker := mkAdBlocker {
  enabled : bool;
  totalBlocked : Z;
  sessionBlocked : Z;
  blockedByTab : gmap string Z;
  whitelist : gset string
}.

(** The item [saveSettings] writes under the key [adBlockerSettings],
    kept as the object that is serialised. *)
Record Settings := mkSettings {
  stored_enabled : bool;
  stored_whitelist : list string;
  stored_totalBlocked : Z
}.

(** [localStorage]: [None] where the global does not exist (touching it
    throws a [ReferenceError]), otherwise the item, if set. *)
Abbreviation Storage := (option (option Settings)).

Record Stats := mkStats {
  st_enabled : bool;
  st_sessionBlocked : Z;
  st_totalBlocked : Z;
  st_whitelistCount : nat
}.

(** The fields of [details] the request handler reads. *)
Record Details := mkDetails {
  d_url : string;
  d_resourceType : string;
  d_referrer : string;
  d_webContentsId : option Z
}.

Record Response := mkResponse { cancel : bool }.

Record AdBlockedEvent := mkAdBlockedEvent {
  ev_url : string;
  ev_type : string;
  ev_webContentsId : option string;
  ev_stats : Stats
}.

(** [new AdBlocker()] before [loadSettings]. *)
Definition AdBlocker_fresh : AdBlocker := mkAdBlocker true 0 0 ∅ ∅.

Definition loadSettings (ab : AdBlocker) (ls : Storage) : AdBlocker :=
  match ls with
  | Some (Some settings) =>
      mkAdBlocker (stored_enabled settings) (stored_totalBlocked settings)
                  (sessionBlocked ab) (blockedByTab ab)
                  (list_to_set (stored_whitelist settings))
  | Some None => ab
  | None => ab
  end.

Definition saveSettings (ab : AdBlocker) (ls : Storage) : Storage :=
  match ls with
  | Some _ => Some (Some (mkSettings (enabled ab) (elements (whitelist ab)) (totalBlocked ab)))
  | None => None
  end.

Definition AdBlocker_new (ls : Storage) : AdBlocker := loadSettings AdBlocker_fresh ls.

Definition addToWhitelist (domain : string) (ab : AdBlocker) (ls : Storage) : AdBlocker * Storage :=
  let ab' := mkAdBlocker (enabled ab) (totalBlocked ab) (sessionBlocked ab) (blockedByTab ab)
                         (whitelist ab ∪ {[domain]}) in
  (ab', saveSettings ab' ls).

Definition removeFromWhitelist (domain : string) (ab : AdBlocker) (ls : Storage) : AdBlocker * Storage :=
  let ab' := mkAdBlocker (enabled ab) (totalBlocked ab) (sessionBlocked ab) (blockedByTab ab)
                         (whitelist ab ∖ {[domain]}) in
  (ab', saveSettings ab' ls).

Definition toggle (ab : AdBlocker) (ls : Storage) : bool * AdBlocker * Storage :=
  let ab' := mkAdBlocker (negb (enabled ab)) (totalBlocked ab) (sessionBlocked ab)
                         (blockedByTab ab) (whitelist ab) in
  (enabled ab', ab', saveSettings ab' ls).

Definition recordBlocked (tabId : string) (ab : AdBlocker) (ls : Storage) : AdBlocker * Storage :=
  let session := sessionBlocked ab + 1 in
  let total := totalBlocked ab + 1 in
  let currentCount := default 0 (blockedByTab ab !! tabId) in
  let ab' := mkAdBlocker (enabled ab) total session
                         (<[tabId := currentCount + 1]> (blockedByTab ab)) (whitelist ab) in
  if session mod 10 =? 0 then (ab', saveSettings ab' ls) else (ab', ls).

Definition getBlockedCount (tabId : string) (ab : AdBlocker) : Z :=
  default 0 (blockedByTab ab !! tabId).

Definition resetTabStats (tabId : string) (ab : AdBlocker) : AdBlocker :=
  mkAdBlocker (enabled ab) (totalBlocked ab) (sessionBlocked ab)
              (<[tabId := 0]> (blockedByTab ab)) (whitelist ab).

Definition getStats (ab : AdBlocker) : Stats :=
  mkStats (enabled ab) (sessionBlocked ab) (totalBlocked ab) (size (whitelist ab)).

(** [details.webContentsId?.toString() || 'unknown'] *)
Definition tabKey (webContentsId : option Z) : string :=
  match webContentsId with
  | Some id => Z_toString id
  | None => "unknown"
  end.

(** ** A small runtime, for concrete runs *)

(** A parser that knows two URLs. *)
Definition sample_URL_parse (url : string) : option URL :=
  if String.eqb url "https://example.com/login"
  then Some (mkURL "https:" "example.com" "example.com")
  else if String.eqb url "https://news.example/"
  then Some (mkURL "https:" "news.example" "news.example")
  else None.

Definition sum_bytes (buf : Buffer) : Z := foldr Z.add 0 buf.

(** A keyed shift with a checksum as tag: it has the shape of an AEAD
    (a 256-bit key, a nonce, a 16-byte tag that is verified) and none of
    its strength. *)
Definition sample_shift (key iv : Buffer) : Z := (sum_bytes key + sum_bytes iv) mod 256.

Definition sample_tag (key iv pt : Buffer) : Buffer :=
  replicate 16 ((sum_bytes pt + sample_shift key iv) mod 256).

Definition sample_seal (key iv pt : Buffer) : option (Buffer * Buffer) :=
  if (List.length key =? 32)%nat && (0 <? List.length iv)%nat
  then Some (map (fun b => (b + sample_shift key iv) mod 256) pt, sample_tag key iv pt)
  else None.

Definition sample_open (key iv authTag ct : Buffer) : option Buffer :=
  if (List.length key =? 32)%nat && (0 <? List.length iv)%nat
  then
    let pt := map (fun c => (c - sample_shift key iv) mod 256) ct in
    if bool_decide (authTag = sample_tag key iv pt) then Some pt else None
  else None.

(** A JSON that knows the empty object and the empty array. *)
Inductive sample_JSValue := sample_object | sample_array.

Definition sample_JSON_parse (text : Text) : option sample_JSValue :=
  if bool_decide (text = [123; 125]) then Some sample_object
  else if bool_decide (text = [91; 93]) then Some sample_array
  else None.

Definition sample_Object_entries (v : sample_JSValue) : option (list (string * list Credential)) :=
  Some [].
Definition sample_Set_of (v : sample_JSValue) : option (gset string) :=
  match v with sample_array => Some ∅ | sample_object => None end.
Definition sample_stringify_cache (c : gmap string (list Credential)) : Text := [123; 125].
Definition sample_stringify_sites (c : gset string) : Text := [91; 93].

(** No OS key store. *)
Definition sample_isEncryptionAvailable : option bool := Some false.
Definition sample_encryptString (t : Text) : option Buffer := None.
Definition sample_decryptString (b : Buffer) : option Text := None.

Definition sample_RegExp_test (r : RegExp) (s : string) : bool := false.
Definition sample_trim (s : string) : string := s.

(** A fresh profile: no files, a writable disk. *)
Definition sample_sys : Sys :=
  mkSys ∅ ∅ false (fun _ => Missing) false
        (fun i => 37 * Z.of_nat i + 11) 0
        (fun n => 1700000000000 + Z.of_nat n) 0 [].

(** The same profile with a key file and a credentials file whose bytes
    are not a blob of that key. *)
Definition sample_corrupt_sys : Sys :=
  mkSys ∅ ∅ false
        (fun p => match p with
                  | encryptionKeyFile => Stored (replicate 32 7)
                  | credentialsFile => Stored (replicate 40 1)
                  | neverSaveFile => Missing
                  end)
        false (fun i => 37 * Z.of_nat i + 11) 0
        (fun n => 1700000000000 + Z.of_nat n) 0 [].

(** The text "hé" followed by U+1F600, a surrogate pair. *)
Definition sample_text : Text := [104; 233; 55357; 56832].

(** The blocker of Scenario D: enabled, [news.example] whitelisted. *)
Definition sample_blocker : AdBlocker := mkAdBlocker true 0 0 ∅ {["news.example"]}.

Section Browser.

(** ** The host runtime *)

(** [new URL(url)]: [None] when the constructor throws. *)
Variable URL_parse : string -> option URL.
(** The empty string is not a URL. *)
Hypothesis URL_parse_empty : URL_parse "" = None.

(** AES-256-GCM as [crypto.createCipheriv] / [createDecipheriv] give it.
    [gcm_seal key iv plaintext] is [Some (ciphertext, authTag)], or [None]
    when the cipher cannot be created; [gcm_open key iv authTag ciphertext]
    is [None] when the decipher throws at any point (bad key, IV or tag
    length, or failed authentication in [final]). *)
Variable gcm_seal : Buffer -> Buffer -> Buffer -> option (Buffer * Buffer).
Variable gcm_open : Buffer -> Buffer -> Buffer -> Buffer -> option Buffer.
Hypothesis gcm_sound : forall key iv pt,
  List.length key = 32%nat -> List.length iv = 16%nat -> Forall is_byte pt ->
  exists ct tag,
    gcm_seal key iv pt = Some (ct, tag) /\
    List.length tag = 16%nat /\
    Forall is_byte ct /\
    gcm_open key iv tag ct = Some pt.

(** The runtime's UTF-8 decoder; on what [utf8_encode] writes for a
    well-formed string it gives the string back. *)
Variable utf8_decode : Buffer -> Text.
Hypothesis utf8_decode_encode : forall s,
  well_formed s = true -> utf8_decode (utf8_encode s) = s.

(** Electron's [safeStorage]; [None] is a thrown exception. *)
Variable safeStorage_isEncryptionAvailable : option bool.
Variable safeStorage_encryptString : Text -> option Buffer.
Variable safeStorage_decryptString : Buffer -> option Text.

(** JSON. Parsed values are opaque; [Object_entries] and [Set_of] are
    [Object.entries(v)] and [new Set(v)] read at the types of the data
    model, [None] when they throw a [TypeError]. *)
Variable JSValue : Type.
Variable JSON_parse : Text -> option JSValue.
Variable Object_entries : JSValue -> option (list (string * list Credential)).
Variable Set_of : JSValue -> option (gset string).
Variable JSON_stringify_cache : gmap string (list Credential) -> Text.
Variable JSON_stringify_sites : gset string -> Text.

(** ** CredentialManager *)

Definition _getEncryptionKey : M Buffer :=
  try_catch
    (e <- existsSync encryptionKeyFile ;;
     if (e : bool) then readFileSync encryptionKeyFile
     else
       key <- randomBytes 32 ;;
       writeFileSync encryptionKeyFile key ;;
       ret key)
    (fun err =>
       console_out ERROR "[CredentialManager] Failed to get encryption key:" ;;
       throw err).

Definition _encrypt (plaintext : Text) : M Buffer :=
  os <- gets useOSStorage ;;
  viaOS <- (if (os : bool) then
              match safeStorage_encryptString plaintext with
              | Some b => ret (Some b)
              | None =>
                  console_out WARN "[CredentialManager] OS encryption failed, using fallback:" ;;
                  ret None
              end
            else ret None) ;;
  match viaOS with
  | Some b => ret b
  | None =>
      key <- _getEncryptionKey ;;
      iv <- randomBytes 16 ;;
      match gcm_seal key iv (utf8_encode plaintext) with
      | None => throw CryptoError
      | Some (ct, authTag) =>
          let encrypted := to_hex ct in
          ret (iv ++ authTag ++ Buffer_from_hex encrypted)%list
      end
  end.

(** [None] is the [null] of the [catch] branch. *)
Definition _decrypt (encryptedData : Buffer) : M (option Text) :=
  os <- gets useOSStorage ;;
  viaOS <- (if (os : bool) then
              match safeStorage_decryptString encryptedData with
              | Some t => ret (Some t)
              | None =>
                  console_out WARN "[CredentialManager] OS decryption failed, trying fallback:" ;;
                  ret None
              end
            else ret None) ;;
  match viaOS with
  | Some t => ret (Some t)
  | None =>
      try_catch
        (key <- _getEncryptionKey ;;
         let iv := slice 0 16 encryptedData in
         let authTag := slice 16 32 encryptedData in
         let encrypted := slice_from 32 encryptedData in
         match gcm_open key iv authTag encrypted with
         | None => throw CryptoError
         | Some pt => ret (Some (utf8_decode pt))
         end)
        (fun err =>
           console_out ERROR "[CredentialManager] Decryption failed:" ;;
           ret None)
  end.

Definition _loadNeverSaveSites : M unit :=
  try_catch
    (e <- existsSync neverSaveFile ;;
     if (e : bool) then
       bytes <- readFileSync neverSaveFile ;;
       let data := utf8_decode bytes in
       match JSON_parse data with
       | None => throw SyntaxError
       | Some sites =>
           match Set_of sites with
           | None => throw TypeError
           | Some set => modify (set_neverSaveSites (fun _ => set))
           end
       end
     else ret tt)
    (fun err =>
       console_out ERROR "[CredentialManager] Failed to load never-save sites:" ;;
       modify (set_neverSaveSites (fun _ => ∅))).

Definition _saveNeverSaveSites : M unit :=
  try_catch
    (sites <- gets neverSaveSites ;;
     let data := JSON_stringify_sites sites in
     writeFileSync neverSaveFile (utf8_encode data))
    (fun err =>
       console_out ERROR "[CredentialManager] Failed to save never-save sites:").

Definition _loadCredentials : M unit :=
  try_catch
    (e <- existsSync credentialsFile ;;
     if negb e then ret tt
     else
       encryptedData <- readFileSync credentialsFile ;;
       decrypted <- _decrypt encryptedData ;;
       match decrypted with
       | None | Some [] =>
           console_out WARN "[CredentialManager] Failed to decrypt credentials file"
       | Some text =>
           match JSON_parse text with
           | None => throw SyntaxError
           | Some credentials =>
               match Object_entries credentials with
               | None => throw TypeError
               | Some entries =>
                   modify (set_credentialsCache (fun cache =>
                     foldl (fun c oe => <[oe.1 := oe.2]> c) cache entries)) ;;
                   console_out LOG "[CredentialManager] Loaded credentials for origins"
               end
           end
       end)
    (fun err =>
       console_out ERROR "[CredentialManager] Failed to load credentials:").

Definition _saveCredentials : M unit :=
  try_catch
    (cache <- gets credentialsCache ;;
     let plaintext := JSON_stringify_cache cache in
     encrypted <- _encrypt plaintext ;;
     writeFileSync credentialsFile encrypted)
    (fun err =>
       console_out ERROR "[CredentialManager] Failed to save credentials:").

Definition _initialize : M unit :=
  match safeStorage_isEncryptionAvailable with
  | Some b =>
      modify (set_useOSStorage b) ;;
      console_out LOG "[CredentialManager] OS secure storage available:"
  | None =>
      console_out WARN "[CredentialManager] safeStorage check failed:" ;;
      modify (set_useOSStorage false)
  end ;;
  _loadNeverSaveSites ;;
  _loadCredentials.

(** [new CredentialManager(userDataPath)]: the fields are reset, then
    [_initialize] runs. *)
Definition constructor : M unit :=
  modify (set_credentialsCache (fun _ => ∅)) ;;
  modify (set_neverSaveSites (fun _ => ∅)) ;;
  modify (set_useOSStorage false) ;;
  _initialize.

Definition _getOrigin (url : string) : option string :=
  match URL_parse url with
  | Some parsed => Some (protocol parsed +:+ "//" +:+ host parsed)
  | None => None
  end.

Definition shouldPromptSave (url : string) : M bool :=
  match _getOrigin url with
  | None => ret false
  | Some origin =>
      sites <- gets neverSaveSites ;;
      ret (negb (bool_decide (origin ∈ sites)))
  end.

Definition neverSaveForSite (url : string) : M unit :=
  match _getOrigin url with
  | None => ret tt
  | Some origin =>
      modify (set_neverSaveSites (fun sites => sites ∪ {[origin]})) ;;
      _saveNeverSaveSites ;;
      console_out LOG "[CredentialManager] Marked as never-save"
  end.

Definition enableSaveForSite (url : string) : M unit :=
  match _getOrigin url with
  | None => ret tt
  | Some origin =>
      modify (set_neverSaveSites (fun sites => sites ∖ {[origin]})) ;;
      _saveNeverSaveSites ;;
      console_out LOG "[CredentialManager] Enabled save"
  end.

(** [arr.findIndex(p)]: the first index at which [p] holds, [-1] if none. *)
Fixpoint findIndex_from {A} (p : A -> bool) (l : list A) (i : Z) : Z :=
  match l with
  | [] => -1
  | x :: rest => if p x then i else findIndex_from p rest (i + 1)
  end.
Definition findIndex {A} (p : A -> bool) (l : list A) : Z := findIndex_from p l 0.

Inductive Status := none | same | different.
Record Existing := mkExisting { status : Status; hasOtherUsers : bool }.

Definition checkExistingCredential (url user secret : string) : M Existing :=
  match _getOrigin url with
  | None => ret (mkExisting none false)
  | Some origin =>
      cache <- gets credentialsCache ;;
      match cache !! origin with
      | None | Some [] => ret (mkExisting none false)
      | Some credentials =>
          match List.find (fun c => String.eqb (username c) user) credentials with
          | None => ret (mkExisting none true)
          | Some existing =>
              if String.eqb (password existing) secret
              then ret (mkExisting same false)
              else ret (mkExisting different false)
          end
      end
  end.

Definition saveCredential (url user secret : string) : M bool :=
  match _getOrigin url with
  | None => ret false
  | Some origin =>
      cache <- gets credentialsCache ;;
      let credentials := default [] (cache !! origin) in
      let existingIndex := findIndex (fun c => String.eqb (username c) user) credentials in
      created <- (if 0 <=? existingIndex then
                    match credentials !! Z.to_nat existingIndex with
                    | Some c => ret (createdAt c)
                    | None => throw TypeError
                    end
                  else Date_now) ;;
      updated <- Date_now ;;
      let credentialEntry := mkCredential user secret created updated in
      let credentials' :=
        if 0 <=? existingIndex
        then <[Z.to_nat existingIndex := credentialEntry]> credentials
        else (credentials ++ [credentialEntry])%list in
      console_out LOG (if 0 <=? existingIndex
                       then "[CredentialManager] Updated credential"
                       else "[CredentialManager] Saved new credential") ;;
      modify (set_credentialsCache (fun c => <[origin := credentials']> c)) ;;
      _saveCredentials ;;
      ret true
  end.

(** [_maskUsername]. Lengths and [substring] are in code units, and the
    result is given in code units: [substring] can cut a surrogate pair in
    two. *)
Definition _maskUsername (user : string) : Text :=
  if includes_char "@" user then
    match split "@" user with
    | name :: domain :: _ =>
        if (List.length (code_units name) <=? 2)%nat then code_units user
        else (take 2 (code_units name) ++ code_units "***@" ++ code_units domain)%list
    | _ => code_units user
    end
  else if (List.length (code_units user) <=? 3)%nat then code_units user
  else (take 3 (code_units user) ++ code_units "***")%list.

Definition getCredentials (url : string) : M (list AutofillEntry) :=
  match _getOrigin url with
  | None => ret []
  | Some origin =>
      cache <- gets credentialsCache ;;
      match cache !! origin with
      | None | Some [] => ret []
      | Some credentials =>
          ret (map (fun c => mkAutofillEntry (username c) (password c) origin
                                (_maskUsername (username c))) credentials)
      end
  end.

Definition deleteCredential (url user : string) : M bool :=
  match _getOrigin url with
  | None => ret false
  | Some origin =>
      cache <- gets credentialsCache ;;
      match cache !! origin with
      | None => ret false
      | Some credentials =>
          let newCredentials :=
            List.filter (fun c => negb (String.eqb (username c) user)) credentials in
          (if (List.length newCredentials =? 0)%nat
           then modify (set_credentialsCache (fun c => delete origin c))
           else modify (set_credentialsCache (fun c => <[origin := newCredentials]> c))) ;;
          _saveCredentials ;;
          console_out LOG "[CredentialManager] Deleted credential" ;;
          ret true
      end
  end.

Definition deleteAllForOrigin (url : string) : M bool :=
  match _getOrigin url with
  | None => ret false
  | Some origin =>
      modify (set_credentialsCache (fun c => delete origin c)) ;;
      _saveCredentials ;;
      console_out LOG "[CredentialManager] Deleted all credentials" ;;
      ret true
  end.

(** [find] gives the first record named [oldUsername], which is then
    mutated in place: the array in the cache changes at that position. *)
Definition updateUsername (url oldUsername newUsername : string) : M bool :=
  match _getOrigin url with
  | None => ret false
  | Some origin =>
      cache <- gets credentialsCache ;;
      match cache !! origin with
      | None => ret false
      | Some credentials =>
          let i := findIndex (fun c => String.eqb (username c) oldUsername) credentials in
          if i <? 0 then ret false
          else
            match credentials !! Z.to_nat i with
            | None => ret false
            | Some credential =>
                if existsb (fun c => String.eqb (username c) newUsername) credentials
                then ret false
                else
                  now <- Date_now ;;
                  let credential' :=
                    mkCredential newUsername (password credential) (createdAt credential) now in
                  modify (set_credentialsCache (fun c =>
                    <[origin := <[Z.to_nat i := credential']> credentials]> c)) ;;
                  _saveCredentials ;;
                  ret true
            end
      end
  end.

Definition clearAllCredentials : M unit :=
  modify (set_credentialsCache (fun _ => ∅)) ;;
  _saveCredentials ;;
  console_out LOG "[CredentialManager] All credentials cleared".

(** ** AdBlocker *)

(** A regular-expression literal, [/source/flags]. Matching is the
    runtime's: [RegExp_test r s] is [r.test(s)]. *)
Variable RegExp_test : RegExp -> string -> bool.

Definition isWhitelisted (ab : AdBlocker) (url : string) : bool :=
  match URL_parse url with
  | Some parsed => bool_decide (hostname parsed ∈ whitelist ab)
  | None => false
  end.

Definition isYouTubeRelated (url pageUrl : string) : bool :=
  let urlLower := toLowerCase url in
  let isYouTubeDomain :=
    includes "youtube.com" urlLower || includes "googlevideo.com" urlLower in
  if negb isYouTubeDomain then false
  else if existsb (fun pattern => RegExp_test pattern urlLower) youtubeAdPatterns then true
  else if (includes "/youtubei/v1/player" urlLower || includes "/api/player" urlLower)
          && (negb (String.eqb pageUrl "") && includes "youtube.com" pageUrl)
          && (includes "ad" urlLower || includes "adformat" urlLower)
       then true
  else false.

Definition shouldBlock (ab : AdBlocker) (url pageUrl : string) : bool :=
  if negb (enabled ab) then false
  else if negb (String.eqb pageUrl "") && isWhitelisted ab pageUrl then false
  else
    let urlLower := toLowerCase url in
    if existsb (fun domain => includes domain urlLower) AD_DOMAINS then true
    else if existsb (fun pattern => RegExp_test pattern url) BLOCK_PATTERNS then true
    else if isYouTubeRelated url pageUrl then true
    else false.

(** [onBeforeRequest]: the answer passed to [callback], the blocker and
    its storage afterwards, and the message sent to the renderer, if any.
    [mainWindowAlive] is [mainWindow && !mainWindow.isDestroyed()]. *)
Definition onBeforeRequest (mainWindowAlive : bool) (details : Details)
    (ab : AdBlocker) (ls : Storage) : Response * AdBlocker * Storage * option AdBlockedEvent :=
  if negb (enabled ab) then (mkResponse false, ab, ls, None)
  else
    let url := d_url details in
    let resourceType := d_resourceType details in
    if String.eqb resourceType "mainFrame" then (mkResponse false, ab, ls, None)
    else
      let pageUrl := if String.eqb (d_referrer details) "" then "" else d_referrer details in
      let block := shouldBlock ab url pageUrl in
      if block then
        let '(ab', ls') := recordBlocked (tabKey (d_webContentsId details)) ab ls in
        let sent :=
          if mainWindowAlive
          then Some (mkAdBlockedEvent url resourceType
                       (option_map Z_toString (d_webContentsId details)) (getStats ab'))
          else None in
        (mkResponse true, ab', ls', sent)
      else (mkResponse false, ab, ls, None).

(** ** The page's form agent: the submission report *)

(** [String.prototype.trim]. *)
Variable String_trim : string -> string.

Record Submission := mkSubmission {
  sub_username : string;
  sub_password : string;
  sub_url : string;
  sub_origin : string
}.

(** [handleFormSubmit]: the [yarvix-credential-submit] message written
    to the console, if any. A field is [None] when the element is
    [null]; [href] and [page_origin] are [window.location]'s. *)
Definition handleFormSubmit (usernameField passwordField : option string)
    (href page_origin : string) : option Submission :=
  let user := option_map String_trim usernameField in
  let secret := passwordField in
  match user, secret with
  | Some u, Some p =>
      if String.eqb u "" || String.eqb p "" then None
      else Some (mkSubmission u p href page_origin)
  | _, _ => None
  end.

(** ** Sequences of calls on the credential manager *)

Inductive Op :=
| op_shouldPromptSave (url : string)
| op_neverSaveForSite (url : string)
| op_enableSaveForSite (url : string)
| op_checkExistingCredential (url user secret : string)
| op_saveCredential (url user secret : string)
| op_getCredentials (url : string)
| op_deleteCredential (url user : string)
| op_deleteAllForOrigin (url : string)
| op_updateUsername (url oldUsername newUsername : string)
| op_clearAllCredentials.

(** The state a call leaves behind. *)
Definition exec (op : Op) (s : Sys) : Sys :=
  match op with
  | op_shouldPromptSave url => (shouldPromptSave url s).2
  | op_neverSaveForSite url => (neverSaveForSite url s).2
  | op_enableSaveForSite url => (enableSaveForSite url s).2
  | op_checkExistingCredential url user secret => (checkExistingCredential url user secret s).2
  | op_saveCredential url user secret => (saveCredential url user secret s).2
  | op_getCredentials url => (getCredentials url s).2
  | op_deleteCredential url user => (deleteCredential url user s).2
  | op_deleteAllForOrigin url => (deleteAllForOrigin url s).2
  | op_updateUsername url o n => (updateUsername url o n s).2
  | op_clearAllCredentials => (clearAllCredentials s).2
  end.

Definition exec_all (ops : list Op) (s : Sys) : Sys := foldl (fun s op => exec op s) s ops.

(** [op] is not [enableSaveForSite] on a URL of origin [origin]. *)
Definition not_enabling (origin : string) (op : Op) : Prop :=
  match op with
  | op_enableSaveForSite url => _getOrigin url <> Some origin
  | _ => True
  end.

(** ** Predicates of the statements *)

(** No two records of one origin share a user name. *)
Definition unique_usernames (s : Sys) : Prop :=
  forall origin l, credentialsCache s !! origin = Some l -> NoDup (map username l).

(** The records stored for [user] in a list. *)
Definition records_for (user : string) (l : list Credential) : list Credential :=
  List.filter (fun c => String.eqb (username c) user) l.

(** The value the next [Date.now()] returns. *)
Definition now (s : Sys) : Z := clock s (ticks s).

(** What one save does to the list of its origin: a record with a new
    user name is appended, with both timestamps read from the clock; a
    record whose user name is already there is replaced in place and keeps
    its [createdAt]. *)
Definition appended (user secret : string) (s : Sys) (l l' : list Credential) : Prop :=
  Forall (fun c => username c <> user) l /\
  l' = (l ++ [mkCredential user secret (now s) (clock s (S (ticks s)))])%list.

Definition replaced (user secret : string) (s : Sys) (l l' : list Credential) : Prop :=
  exists n c,
    l !! n = Some c /\ username c = user /\
    (forall j y, (j < n)%nat -> l !! j = Some y -> username y <> user) /\
    l' = <[n := mkCredential user secret (createdAt c) (now s)]> l.

(** The key file lets the fallback cipher work: absent on a writable
    disk, or holding a 256-bit key. *)
Definition key_ready (s : Sys) : Prop :=
  (disk s encryptionKeyFile = Missing /\ readOnly s = false) \/
  (exists key, disk s encryptionKeyFile = Stored key /\ List.length key = 32%nat).

(** The key the fallback cipher uses from state [s] on, and the nonce the
    next [_encrypt] draws. *)
Definition key_of (s : Sys) : Buffer :=
  match disk s encryptionKeyFile with
  | Stored key => key
  | _ => map (fun i => entropy s i mod 256) (seq (drawn s) 32)
  end.
Definition nonce_of (s : Sys) : Buffer :=
  match disk s encryptionKeyFile with
  | Stored _ => map (fun i => entropy s i mod 256) (seq (drawn s) 16)
  | _ => map (fun i => entropy s i mod 256) (seq (drawn s + 32) 16)
  end.

(** The stored blob cannot be turned into cache entries: decryption gives
    [null] or the empty string, or the text does not parse, or what it
    parses to has no entries to enumerate. *)
Definition blob_unusable (blob : Buffer) (s : Sys) : Prop :=
  match (_decrypt blob s).1 with
  | Ok (Some (c :: text)) =>
      match JSON_parse (c :: text) with
      | None => True
      | Some v => Object_entries v = None
      end
  | _ => True
  end.

(** What the constructor does before it loads the credentials. *)
Definition before_load : M unit :=
  modify (set_credentialsCache (fun _ => ∅)) ;;
  modify (set_neverSaveSites (fun _ => ∅)) ;;
  modify (set_useOSStorage false) ;;
  match safeStorage_isEncryptionAvailable with
  | Some b =>
      modify (set_useOSStorage b) ;;
      console_out LOG "[CredentialManager] OS secure storage available:"
  | None =>
      console_out WARN "[CredentialManager] safeStorage check failed:" ;;
      modify (set_useOSStorage false)
  end ;;
  _loadNeverSaveSites.

(** The settings in storage are those of the blocker. *)
Definition durable (ab : AdBlocker) (ls : Storage) : Prop :=
  ls = Some (Some (mkSettings (enabled ab) (elements (whitelist ab)) (totalBlocked ab))).

(** The three rule sets [shouldBlock] goes through after its two gates. *)
Definition rules_hit (url pageUrl : string) : bool :=
  existsb (fun domain => includes domain (toLowerCase url)) AD_DOMAINS
  || existsb (fun pattern => RegExp_test pattern url) BLOCK_PATTERNS
  || isYouTubeRelated url pageUrl.

(** ** The statements of the specification that the code does not meet *)


(** A save with an empty user name or an empty secret is turned down (it
    does not return [true]) and the cache is as before. *)
Definition rejects_invalid (url user secret : string) (s : Sys) : Prop :=
  user = "" \/ secret = "" ->
  (saveCredential url user secret s).1 <> Ok true /\
  credentialsCache (saveCredential url user secret s).2 = credentialsCache s.

(** [shouldPromptSave] is [false] exactly when the origin of the URL is in
    the never-save set. *)
Definition prompt_iff_not_never (url : string) (s : Sys) : Prop :=
  (shouldPromptSave url s).1 = Ok false <->
  exists origin, _getOrigin url = Some origin /\ origin ∈ neverSaveSites s.

(** Under the fallback cipher, decrypting the encryption of [x] gives
    [x] back. *)
Definition fallback_round_trip (x : Text) (s : Sys) : Prop :=
  exists blob s1 s2,
    _encrypt x s = (Ok blob, s1) /\ _decrypt blob s1 = (Ok (Some x), s2).

(** Recording a blocked request leaves the settings in storage equal to
    the blocker's. *)
Definition recordBlocked_durable (tabId : string) (ab : AdBlocker) (ls : Storage) : Prop :=
  durable (recordBlocked tabId ab ls).1 (recordBlocked tabId ab ls).2.

(** ** Effects: what a computation keeps, and whether it can throw *)

Definition keeps {A B} (f : Sys -> B) (c : M A) : Prop := forall s, f (c s).2 = f s.
Definition returns {A} (c : M A) : Prop := forall s, exists a, (c s).1 = Ok a.

(** A projection the disk, the random source and the console do not
    reach. *)
Definition object_field {B} (f : Sys -> B) : Prop :=
  (forall g s, f (set_disk g s) = f s) /\
  (forall k s, f (set_drawn k s) = f s) /\
  (forall g s, f (set_console g s) = f s).

(** ** Listing and counting the store *)

(** An entry of the management list: no password in it. *)
Record ListedCredential := mkListed {
  lc_origin : string;
  lc_username : string;
  lc_displayName : Text;
  lc_createdAt : Z;
  lc_updatedAt : Z
}.

(** [arr.sort(compare)], the stable sort by a comparator: an element goes
    before the first one it does not compare greater than. *)
Fixpoint sort_insert {A} (compare : A -> A -> Z) (x : A) (sorted : list A) : list A :=
  match sorted with
  | [] => [x]
  | y :: rest =>
      if compare x y <=? 0 then x :: y :: rest else y :: sort_insert compare x rest
  end.
Definition Array_sort {A} (compare : A -> A -> Z) (l : list A) : list A :=
  foldr (sort_insert compare) [] l.

(** The body of [getAllCredentials] over the entries of the cache as the
    [Map] enumerates them. *)
Definition getAllCredentials_over (entries : list (string * list Credential))
    : list ListedCredential :=
  let result :=
    flat_map (fun oc =>
      map (fun cred => mkListed oc.1 (username cred) (_maskUsername (username cred))
                         (createdAt cred) (updatedAt cred)) oc.2) entries in
  Array_sort (fun a b => lc_updatedAt b - lc_updatedAt a) result.

(** The body of [getCredentialCount], likewise. *)
Definition getCredentialCount_over (entries : list (string * list Credential)) : Z :=
  foldl (fun count oc => count + Z.of_nat (List.length oc.2)) 0 entries.

(** The cache is a [Map], enumerated in the order of insertion; the model
    keeps the contents and not that order, and enumerates with
    [map_to_list]. The statements about listing hold of every enumeration. *)
Definition getAllCredentials : M (list ListedCredential) :=
  cache <- gets credentialsCache ;;
  ret (getAllCredentials_over (map_to_list cache)).

Definition getCredentialCount : M Z :=
  cache <- gets credentialsCache ;;
  ret (getCredentialCount_over (map_to_list cache)).

(** [getNeverSaveSites] *)
Definition getNeverSaveSites : M (list string) :=
  sites <- gets neverSaveSites ;;
  ret (elements sites).

(** ** Invariants of the state *)

(** [P] is kept by a computation, however it ends. *)
Definition stable {A} (P : Sys -> Prop) (c : M A) : Prop := forall s, P s -> P (c s).2.

(** The disk is read-only and holds [d]. *)
Definition frozen (d : Path -> File) (s : Sys) : Prop := readOnly s = true /\ disk s = d.

(** The key file holds [key]. *)
Definition has_key (key : Buffer) (s : Sys) : Prop := disk s encryptionKeyFile = Stored key.

(** An invariant that only reads the disk and the read-only flag. *)
Definition disk_invariant (P : Sys -> Prop) : Prop :=
  forall s s', disk s' = disk s -> readOnly s' = readOnly s -> P s -> P s'.

(** ** The calls that reach the blocker *)

(** A request passing the [onBeforeRequest] handler, the IPC messages
    [adblock-toggle], [adblock-whitelist-add] and
    [adblock-whitelist-remove], and a call of [resetTabStats]. *)
Inductive Call :=
| webRequest (mainWindowAlive : bool) (details : Details)
| adblock_toggle
| adblock_whitelist_add (domain : string)
| adblock_whitelist_remove (domain : string)
| tab_reset (tabId : string).

(** The blocker and its storage after a call. *)
Definition serve (c : Call) (st : AdBlocker * Storage) : AdBlocker * Storage :=
  match c with
  | webRequest alive details =>
      let r := onBeforeRequest alive details st.1 st.2 in (r.1.1.2, r.1.2)
  | adblock_toggle => let r := toggle st.1 st.2 in (r.1.2, r.2)
  | adblock_whitelist_add domain => addToWhitelist domain st.1 st.2
  | adblock_whitelist_remove domain => removeFromWhitelist domain st.1 st.2
  | tab_reset tabId => (resetTabStats tabId st.1, st.2)
  end.

Definition serve_all (calls : list Call) (st : AdBlocker * Storage) : AdBlocker * Storage :=
  foldl (fun st c => serve c st) st calls.

(** The number of requests among the calls that are answered
    [cancel: true]. *)
Fixpoint cancelled (calls : list Call) (st : AdBlocker * Storage) : Z :=
  match calls with
  | [] => 0
  | c :: rest =>
      (match c with
       | webRequest alive details =>
           if cancel (onBeforeRequest alive details st.1 st.2).1.1.1 then 1 else 0
       | _ => 0
       end) + cancelled rest (serve c st)
  end.

Definition is_tab_reset (c : Call) : bool :=
  match c with tab_reset _ => true | _ => false end.

(** The per-tab counts added up. *)
Definition tab_total (ab : AdBlocker) : Z :=
  foldr (fun kv acc => kv.2 + acc) 0 (map_to_list (blockedByTab ab)).

(** A string that [toLowerCase] leaves as it is. *)
Definition is_lower (s : string) : bool := String.eqb (toLowerCase s) s.

(** ** Export and import *)

(** [crypto.scryptSync(masterPassword, 'yarvix-credential-export', 32)]:
    a key of 32 octets. *)
Variable scryptSync : string -> Buffer.
Hypothesis scryptSync_length : forall masterPassword,
  List.length (scryptSync masterPassword) = 32%nat.

(** [cipher.getAuthTag()] is a buffer of octets. *)
Hypothesis gcm_tag_octets : forall key iv pt ct tag,
  gcm_seal key iv pt = Some (ct, tag) -> Forall is_byte tag.

(** The object [exportCredentials] serialises; [credentials] has the
    entries of the cache. *)
Record ExportData := mkExportData {
  version : Z;
  exportedAt : Z;
  credentials : gmap string (list Credential)
}.

(** [JSON.stringify(data)] *)
Variable JSON_stringify_export : ExportData -> Text.

(** [Object.entries(data.credentials)] of a parsed export, [None] when
    that throws a [TypeError]. The value of an entry is [None] when it is
    not iterable, and a record in it is [None] when it is [null] or
    [undefined]; the loops of [importCredentials] throw at these. *)
Variable Export_entries : JSValue -> option (list (string * option (list (option Credential)))).

(** The object [exportCredentials] returns; the fields are hex strings. *)
Record Exported := mkExported {
  ex_iv : string;
  ex_authTag : string;
  ex_data : string
}.

(** [{success: true, count}] or [{success: false, error}]. *)
Inductive ImportResult := import_success (count : nat) | import_failure.

Definition exportCredentials (masterPassword : string) : M Exported :=
  exportedAt <- Date_now ;;
  cache <- gets credentialsCache ;;
  let data := mkExportData 1 exportedAt cache in
  let key := scryptSync masterPassword in
  iv <- randomBytes 16 ;;
  match gcm_seal key iv (utf8_encode (JSON_stringify_export data)) with
  | None => throw CryptoError
  | Some (ct, authTag) => ret (mkExported (to_hex iv) (to_hex authTag) (to_hex ct))
  end.

(** The body of the inner loop of [importCredentials]: one imported
    record against the records of its origin. The index [findIndex]
    returns is in range, so the last branch is not taken. *)
Definition merge_credential (existing : list Credential) (cred : Credential) : list Credential :=
  let existingIndex := findIndex (fun c => String.eqb (username c) (username cred)) existing in
  if 0 <=? existingIndex then
    match existing !! Z.to_nat existingIndex with
    | Some old =>
        if updatedAt old <? updatedAt cred
        then <[Z.to_nat existingIndex := cred]> existing
        else existing
    | None => existing
    end
  else (existing ++ [cred])%list.

(** The inner loop; [false] when it throws at a record that is [null]. *)
Fixpoint merge_credentials (existing : list Credential) (creds : list (option Credential))
    : list Credential * bool :=
  match creds with
  | [] => (existing, true)
  | None :: _ => (existing, false)
  | Some cred :: rest => merge_credentials (merge_credential existing cred) rest
  end.

(** The outer loop. The array of an origin that is in the cache is
    updated in place, so what was merged into it before a throw stays; a
    new array reaches the cache only with [set], after the inner loop. *)
Fixpoint import_entries (entries : list (string * option (list (option Credential))))
    : M unit :=
  match entries with
  | [] => ret tt
  | (origin, creds) :: rest =>
      cache <- gets credentialsCache ;;
      match creds with
      | None => throw TypeError
      | Some creds =>
          let merged := merge_credentials (default [] (cache !! origin)) creds in
          if merged.2 then
            modify (set_credentialsCache (insert origin merged.1)) ;;
            import_entries rest
          else
            (if bool_decide (is_Some (cache !! origin))
             then modify (set_credentialsCache (insert origin merged.1))
             else ret tt) ;;
            throw TypeError
      end
  end.

(** [Buffer.from(s, 'hex')] takes the pairs of digits of a string of any
    length; [decipher.update(s, 'hex', ..)] throws when the string has an
    odd number of code units, and decodes the same way otherwise. *)
Definition hex_input_ok (s : string) : bool := Nat.even (List.length (code_units s)).

Definition importCredentials (exportedData : Exported) (masterPassword : string)
    : M ImportResult :=
  try_catch
    (let key := scryptSync masterPassword in
     let iv := Buffer_from_hex (ex_iv exportedData) in
     let authTag := Buffer_from_hex (ex_authTag exportedData) in
     if negb (hex_input_ok (ex_data exportedData)) then throw TypeError
     else
     match gcm_open key iv authTag (Buffer_from_hex (ex_data exportedData)) with
     | None => throw CryptoError
     | Some pt =>
         match JSON_parse (utf8_decode pt) with
         | None => throw SyntaxError
         | Some data =>
             match Export_entries data with
             | None => throw TypeError
             | Some entries =>
                 import_entries entries ;;
                 _saveCredentials ;;
                 ret (import_success (List.length entries))
             end
         end
     end)
    (fun err =>
       console_out ERROR "[CredentialManager] Import failed:" ;;
       ret import_failure).

(** An export whose entries are all arrays of records. *)
Definition well_typed (entries : list (string * list Credential))
    : list (string * option (list (option Credential))) :=
  map (fun oc => (oc.1, Some (map Some oc.2))) entries.

(** The cache after the merge of well-typed entries. *)
Definition merge_into (cache : gmap string (list Credential))
    (entries : list (string * list Credential)) : gmap string (list Credential) :=
  foldl (fun c oc => <[oc.1 := foldl merge_credential (default [] (c !! oc.1)) oc.2]> c)
        cache entries.

(** The list has a record for the user name of [cred], and the first such
    record is not older than [cred]. *)
Definition covered (l : list Credential) (cred : Credential) : Prop :=
  exists n r,
    l !! n = Some r /\ username r = username cred /\
    (forall j y, (j < n)%nat -> l !! j = Some y -> username y <> username cred) /\
    updatedAt cred <= updatedAt r.

(** The cache has the origin of the entry, and its list covers the
    records of the entry. *)
Definition absorbed (cache : gmap string (list Credential))
    (oc : string * list Credential) : Prop :=
  exists l, cache !! oc.1 = Some l /\ Forall (covered l) oc.2.
(** * Proofs *)

Set Default Proof Using "Type".

Lemma keeps_ret {A B} (f : Sys -> B) (a : A) : keeps f (ret a).
Proof. intros s. reflexivity. Qed.

Lemma keeps_throw {A B} (f : Sys -> B) e : keeps f (@throw A e).
Proof. intros s. reflexivity. Qed.

Lemma keeps_gets {A B} (f : Sys -> B) (g : Sys -> A) : keeps f (gets g).
Proof. intros s. reflexivity. Qed.

Lemma keeps_bind {A B C} (f : Sys -> C) (c : M A) (k : A -> M B) :
  keeps f c -> (forall a, keeps f (k a)) -> keeps f (bind c k).
Proof.
  intros Hc Hk s. unfold bind. specialize (Hc s).
  destruct (c s) as [[a|e] s1]; simpl in *; [rewrite Hk|]; exact Hc.
Qed.

Lemma keeps_try_catch {A C} (f : Sys -> C) (body : M A) handler :
  keeps f body -> (forall e, keeps f (handler e)) -> keeps f (try_catch body handler).
Proof.
  intros Hc Hk s. unfold try_catch. specialize (Hc s).
  destruct (body s) as [[a|e] s1]; simpl in *; [|rewrite Hk]; exact Hc.
Qed.

Lemma returns_ret {A} (a : A) : returns (ret a).
Proof. intros s. eexists. reflexivity. Qed.

Lemma returns_bind {A B} (c : M A) (k : A -> M B) :
  returns c -> (forall a, returns (k a)) -> returns (bind c k).
Proof.
  intros Hc Hk s. unfold bind. destruct (Hc s) as [a Ha].
  destruct (c s) as [r s1]; simpl in Ha; subst r. apply Hk.
Qed.

Lemma returns_try_catch {A} (body : M A) handler :
  (forall e, returns (handler e)) -> returns (try_catch body handler).
Proof.
  intros Hk s. unfold try_catch.
  destruct (body s) as [[a|e] s1]; [eexists; reflexivity | apply Hk].
Qed.

Lemma returns_modify g : returns (modify g).
Proof. intros s. eexists. reflexivity. Qed.

Lemma returns_console l msg : returns (console_out l msg).
Proof. apply returns_modify. Qed.

Lemma keeps_console {B} (f : Sys -> B) l msg :
  (forall g s, f (set_console g s) = f s) -> keeps f (console_out l msg).
Proof. intros H s. apply H. Qed.

Lemma keeps_existsSync {B} (f : Sys -> B) p : keeps f (existsSync p).
Proof. intros s. reflexivity. Qed.

Lemma keeps_readFileSync {B} (f : Sys -> B) p : keeps f (readFileSync p).
Proof. intros s. unfold readFileSync. destruct (disk s p); reflexivity. Qed.

Lemma keeps_writeFileSync {B} (f : Sys -> B) p c :
  (forall g s, f (set_disk g s) = f s) -> keeps f (writeFileSync p c).
Proof. intros H s. unfold writeFileSync. destruct (readOnly s); [reflexivity | apply H]. Qed.

Lemma keeps_randomBytes {B} (f : Sys -> B) n :
  (forall k s, f (set_drawn k s) = f s) -> keeps f (randomBytes n).
Proof. intros H s. apply H. Qed.

Lemma object_field_credentialsCache : object_field credentialsCache.
Proof. repeat split. Qed.
Lemma object_field_neverSaveSites : object_field neverSaveSites.
Proof. repeat split. Qed.
Lemma object_field_useOSStorage : object_field useOSStorage.
Proof. repeat split. Qed.
Lemma object_field_clock : object_field clock.
Proof. repeat split. Qed.
Lemma object_field_ticks : object_field ticks.
Proof. repeat split. Qed.

Ltac keeps_step :=
  first
    [ apply keeps_ret | apply keeps_throw | apply keeps_gets
    | apply keeps_existsSync | apply keeps_readFileSync
    | apply keeps_writeFileSync; assumption
    | apply keeps_randomBytes; assumption
    | apply keeps_console; assumption
    | apply keeps_bind; [| intros ?]
    | apply keeps_try_catch; [| intros ?] ].

Lemma keeps__getEncryptionKey {B} (f : Sys -> B) : object_field f -> keeps f _getEncryptionKey.
Proof.
  intros (Hd & Hr & Hc). unfold _getEncryptionKey.
  repeat keeps_step. destruct a; repeat keeps_step.
Qed.

Lemma keeps__encrypt {B} (f : Sys -> B) text : object_field f -> keeps f (_encrypt text).
Proof.
  intros Hf. pose proof (keeps__getEncryptionKey f Hf) as Hk.
  destruct Hf as (Hd & Hr & Hc). unfold _encrypt.
  keeps_step; [keeps_step|]. keeps_step.
  - destruct a; [destruct (safeStorage_encryptString text)|]; repeat keeps_step.
  - destruct a0; [keeps_step|]. keeps_step; [exact Hk|]. keeps_step; [keeps_step|].
    destruct (gcm_seal _ _ _) as [[ct tag]|]; keeps_step.
Qed.

Lemma keeps__decrypt {B} (f : Sys -> B) blob : object_field f -> keeps f (_decrypt blob).
Proof.
  intros Hf. pose proof (keeps__getEncryptionKey f Hf) as Hk.
  destruct Hf as (Hd & Hr & Hc). unfold _decrypt.
  keeps_step; [keeps_step|]. keeps_step.
  - destruct a; [destruct (safeStorage_decryptString blob)|]; repeat keeps_step.
  - destruct a0; [keeps_step|]. keeps_step; [|repeat keeps_step].
    keeps_step; [exact Hk|]. destruct (gcm_open _ _ _ _); keeps_step.
Qed.

Lemma keeps__saveCredentials {B} (f : Sys -> B) : object_field f -> keeps f _saveCredentials.
Proof.
  intros Hf. pose proof (keeps__encrypt f) as He.
  destruct Hf as (Hd & Hr & Hc). unfold _saveCredentials.
  keeps_step; [|keeps_step]. keeps_step; [keeps_step|].
  keeps_step; [apply He; repeat split; assumption | keeps_step].
Qed.

Lemma keeps__saveNeverSaveSites {B} (f : Sys -> B) : object_field f -> keeps f _saveNeverSaveSites.
Proof. intros (Hd & Hr & Hc). unfold _saveNeverSaveSites. repeat keeps_step. Qed.

Lemma returns__saveCredentials : returns _saveCredentials.
Proof. apply returns_try_catch. intros e. apply returns_console. Qed.

Lemma returns__saveNeverSaveSites : returns _saveNeverSaveSites.
Proof. apply returns_try_catch. intros e. apply returns_console. Qed.

(** [_saveCredentials] as a step: it returns, and the object's fields and
    the clock are as before. *)
Lemma _saveCredentials_step s :
  exists s',
    _saveCredentials s = (Ok tt, s') /\
    credentialsCache s' = credentialsCache s /\
    neverSaveSites s' = neverSaveSites s /\
    clock s' = clock s /\ ticks s' = ticks s.
Proof.
  destruct (returns__saveCredentials s) as [[] Hr].
  pose proof (keeps__saveCredentials credentialsCache object_field_credentialsCache s) as H1.
  pose proof (keeps__saveCredentials neverSaveSites object_field_neverSaveSites s) as H2.
  pose proof (keeps__saveCredentials clock object_field_clock s) as H3.
  pose proof (keeps__saveCredentials ticks object_field_ticks s) as H4.
  destruct (_saveCredentials s) as [r s']. simpl in *. subst r.
  exists s'. repeat split; assumption.
Qed.

(** ** [findIndex] *)

Lemma findIndex_from_cases {A} (p : A -> bool) l i :
  (findIndex_from p l i = -1 /\ Forall (fun x => p x = false) l) \/
  (exists n x,
      findIndex_from p l i = i + Z.of_nat n /\ l !! n = Some x /\ p x = true /\
      forall j y, (j < n)%nat -> l !! j = Some y -> p y = false).
Proof.
  revert i. induction l as [|a l IH]; intros i; simpl.
  - left. split; [reflexivity | constructor].
  - destruct (p a) eqn:Ha.
    + right. exists 0%nat, a. repeat split; [lia | assumption |]. intros j y Hj. lia.
    + destruct (IH (i + 1)) as [[E F] | (n & x & E & Hl & Hp & Hfirst)].
      * left. split; [assumption | constructor; assumption].
      * right. exists (S n), x. repeat split; [lia | assumption | assumption |].
        intros [|j] y Hj Hy; simpl in Hy; [congruence | apply (Hfirst j); [lia | assumption]].
Qed.

Lemma findIndex_cases {A} (p : A -> bool) l :
  (findIndex p l = -1 /\ Forall (fun x => p x = false) l) \/
  (exists n x,
      findIndex p l = Z.of_nat n /\ l !! n = Some x /\ p x = true /\
      forall j y, (j < n)%nat -> l !! j = Some y -> p y = false).
Proof. apply (findIndex_from_cases p l 0). Qed.

(** ** [saveCredential], step by step *)

Lemma saveCredential_step url user secret s origin :
  _getOrigin url = Some origin ->
  exists s' l',
    saveCredential url user secret s = (Ok true, s') /\
    credentialsCache s' = <[origin := l']> (credentialsCache s) /\
    neverSaveSites s' = neverSaveSites s /\
    clock s' = clock s /\
    (appended user secret s (default [] (credentialsCache s !! origin)) l' /\
       ticks s' = S (S (ticks s))
     \/ replaced user secret s (default [] (credentialsCache s !! origin)) l' /\
       ticks s' = S (ticks s)).
Proof.
  intros Ho. unfold saveCredential. rewrite Ho.
  set (l := default [] (credentialsCache s !! origin)).
  unfold bind at 1. simpl. fold l.
  destruct (findIndex_cases (fun c => String.eqb (username c) user) l)
    as [[E F] | (n & c & E & Hl & Hp & Hfirst)]; rewrite E.
  - (* no record of that name *)
    change (0 <=? -1) with false. cbv iota.
    unfold bind, Date_now, console_out, modify. simpl.
    match goal with |- context [_saveCredentials ?t] =>
      destruct (_saveCredentials_step t) as (s' & Es & Hc & Hn & Hk & Ht); rewrite Es end.
    exists s'. eexists. split; [reflexivity|]. simpl in *.
    split; [exact Hc|]. split; [assumption|]. split; [assumption|].
    left. split; [split; [|reflexivity] | assumption].
    eapply Forall_impl; [exact F|]. simpl. intros x Hx Heq.
    apply String.eqb_neq in Hx. contradiction.
  - (* a record of that name at index n *)
    assert ((0 <=? Z.of_nat n) = true) as -> by (apply Z.leb_le; lia).
    rewrite Nat2Z.id, Hl.
    unfold bind, ret, Date_now, console_out, modify. simpl.
    match goal with |- context [_saveCredentials ?t] =>
      destruct (_saveCredentials_step t) as (s' & Es & Hc & Hn & Hk & Ht); rewrite Es end.
    exists s'. eexists. split; [reflexivity|]. simpl in *.
    split; [exact Hc|]. split; [assumption|]. split; [assumption|].
    right. split; [|assumption].
    exists n, c. split; [assumption|]. split; [|split; [|reflexivity]].
    + apply String.eqb_eq. assumption.
    + intros j y Hj Hy Heq. specialize (Hfirst j y Hj Hy). simpl in Hfirst.
      apply String.eqb_neq in Hfirst. contradiction.
Qed.

Lemma saved_record_in user secret s l l' :
  appended user secret s l l' \/ replaced user secret s l l' ->
  exists r, r ∈ l' /\ username r = user /\ password r = secret.
Proof.
  intros [[_ ->] | (n & c & Hl & _ & _ & ->)].
  - exists (mkCredential user secret (clock s (ticks s)) (clock s (S (ticks s)))).
    split; [|split; reflexivity].
    apply elem_of_app. right. apply list_elem_of_singleton. reflexivity.
  - exists (mkCredential user secret (createdAt c) (clock s (ticks s))).
    split; [|split; reflexivity].
    apply list_elem_of_lookup. exists n. apply list_lookup_insert_eq.
    apply lookup_lt_Some in Hl. exact Hl.
Qed.

Lemma getCredentials_lookup url origin s c l :
  _getOrigin url = Some origin ->
  credentialsCache s !! origin = Some (c :: l) ->
  getCredentials url s =
    (Ok (map (fun c => mkAutofillEntry (username c) (password c) origin
                         (_maskUsername (username c))) (c :: l)), s).
Proof.
  intros Ho Hl. unfold getCredentials. rewrite Ho.
  unfold bind, gets. simpl. rewrite Hl. reflexivity.
Qed.

(** C1. Credential round-trip: for a URL whose origin parses,
    [saveCredential] for a user name and a secret followed by
    [getCredentials] for the same URL returns a sequence that contains an
    entry with that user name and that secret. *)
Theorem save_then_autofill url user secret s :
  is_Some (_getOrigin url) ->
  exists s1 s2 entries e,
    saveCredential url user secret s = (Ok true, s1) /\
    getCredentials url s1 = (Ok entries, s2) /\
    e ∈ entries /\ af_username e = user /\ af_password e = secret.
Proof.
  intros [origin Ho].
  destruct (saveCredential_step url user secret s origin Ho)
    as (s1 & l' & Hsave & Hcache & _ & _ & Hcase).
  assert (exists r, r ∈ l' /\ username r = user /\ password r = secret) as (r & Hin & Hu & Hp).
  { apply (saved_record_in user secret s (default [] (credentialsCache s !! origin))).
    destruct Hcase as [[H _] | [H _]]; [left | right]; exact H. }
  assert (credentialsCache s1 !! origin = Some l') as Hl.
  { rewrite Hcache. apply lookup_insert_eq. }
  destruct l' as [|c l']; [inversion Hin|].
  exists s1, s1. eexists.
  exists (mkAutofillEntry (username r) (password r) origin (_maskUsername (username r))).
  split; [exact Hsave|]. split; [exact (getCredentials_lookup url origin s1 c l' Ho Hl)|].
  split; [|split; assumption].
  apply (list_elem_of_fmap_2 (fun c => mkAutofillEntry (username c) (password c) origin
                                    (_maskUsername (username c)))).
  exact Hin.
Qed.

(** ** Records of one user name *)

Lemma records_for_none user l :
  user ∉ map username l -> records_for user l = [].
Proof.
  induction l as [|a l IH]; intros Hn; simpl; [reflexivity|].
  destruct (String.eqb_spec (username a) user) as [E|E].
  - exfalso. apply Hn. simpl. rewrite E. apply list_elem_of_here.
  - apply IH. intros Hin. apply Hn. simpl. apply list_elem_of_further. exact Hin.
Qed.

Lemma records_for_app user l l' :
  records_for user (l ++ l') = (records_for user l ++ records_for user l')%list.
Proof. apply List.filter_app. Qed.

Lemma Forall_not_named user l :
  Forall (fun c => username c <> user) l -> user ∉ map username l.
Proof.
  intros F Hin. apply list_elem_of_fmap in Hin as (c & E & Hc).
  rewrite Forall_forall in F. apply (F c Hc). symmetry. exact E.
Qed.

Lemma unique_after_save user secret s l l' :
  NoDup (map username l) ->
  appended user secret s l l' \/ replaced user secret s l l' ->
  NoDup (map username l').
Proof.
  intros Hnd [[F ->] | (n & c & Hl & Hc & _ & ->)].
  - rewrite map_app. simpl. apply NoDup_app. split; [exact Hnd|]. split.
    + intros x Hx Hx'. apply list_elem_of_singleton in Hx'. subst x.
      apply (Forall_not_named user l F Hx).
    + apply NoDup_singleton.
  - rewrite list_fmap_insert. simpl. rewrite list_insert_id; [exact Hnd|].
    rewrite list_lookup_fmap, Hl. simpl. rewrite Hc. reflexivity.
Qed.

(** The invariant of the data model holds of the empty store and is kept
    by every save. *)
Lemma unique_usernames_empty s : credentialsCache s = ∅ -> unique_usernames s.
Proof. intros E origin l. rewrite E, lookup_empty. discriminate. Qed.

Lemma unique_usernames_saveCredential url user secret s :
  unique_usernames s -> unique_usernames (saveCredential url user secret s).2.
Proof.
  intros Hu. destruct (_getOrigin url) as [origin|] eqn:Ho.
  - destruct (saveCredential_step url user secret s origin Ho)
      as (s1 & l' & Hsave & Hcache & _ & _ & Hcase).
    rewrite Hsave. simpl. intros o l. rewrite Hcache.
    destruct (decide (origin = o)) as [<-|Hne].
    + rewrite lookup_insert_eq. intros [= <-].
      apply (unique_after_save user secret s (default [] (credentialsCache s !! origin))).
      * destruct (credentialsCache s !! origin) as [l0|] eqn:E; simpl.
        -- apply (Hu origin l0 E).
        -- apply NoDup_nil_2.
      * destruct Hcase as [[H _] | [H _]]; [left | right]; exact H.
    + rewrite lookup_insert_ne by exact Hne. apply Hu.
  - unfold saveCredential. rewrite Ho. exact Hu.
Qed.

(** ** What the operations keep *)

Lemma keeps_modify {B} (f : Sys -> B) g : (forall s, f (g s) = f s) -> keeps f (modify g).
Proof. intros H s. apply H. Qed.

Lemma keeps_Date_now {B} (f : Sys -> B) :
  (forall k s, f (set_ticks k s) = f s) -> keeps f Date_now.
Proof. intros H s. apply H. Qed.

Ltac keeps_auto :=
  repeat first
    [ apply keeps__saveCredentials; repeat split
    | apply keeps__saveNeverSaveSites; repeat split
    | apply keeps_Date_now; reflexivity
    | apply keeps_modify; reflexivity
    | apply keeps_console; reflexivity
    | keeps_step
    | match goal with
      | |- keeps _ (match ?x with _ => _ end) => destruct x
      end ].

Lemma shouldPromptSave_state url s : (shouldPromptSave url s).2 = s.
Proof. unfold shouldPromptSave. destruct (_getOrigin url); reflexivity. Qed.

Lemma checkExistingCredential_state url user secret s :
  (checkExistingCredential url user secret s).2 = s.
Proof.
  unfold checkExistingCredential. destruct (_getOrigin url); [|reflexivity].
  unfold bind, gets. simpl. destruct (credentialsCache s !! _) as [[|c l]|]; try reflexivity.
  destruct (List.find _ _); [|reflexivity]. destruct (String.eqb _ _); reflexivity.
Qed.

Lemma getCredentials_state url s : (getCredentials url s).2 = s.
Proof.
  unfold getCredentials. destruct (_getOrigin url); [|reflexivity].
  unfold bind, gets. simpl. destruct (credentialsCache s !! _) as [[|c l]|]; reflexivity.
Qed.

Lemma keeps_never_saveCredential url user secret :
  keeps neverSaveSites (saveCredential url user secret).
Proof. unfold saveCredential. keeps_auto. Qed.

Lemma keeps_never_deleteCredential url user :
  keeps neverSaveSites (deleteCredential url user).
Proof. unfold deleteCredential. keeps_auto. Qed.

Lemma keeps_never_deleteAllForOrigin url : keeps neverSaveSites (deleteAllForOrigin url).
Proof. unfold deleteAllForOrigin. keeps_auto. Qed.

Lemma keeps_never_updateUsername url o n : keeps neverSaveSites (updateUsername url o n).
Proof. unfold updateUsername. keeps_auto. Qed.

Lemma keeps_never_clearAllCredentials : keeps neverSaveSites clearAllCredentials.
Proof. unfold clearAllCredentials. keeps_auto. Qed.

Lemma keeps_cache_neverSaveForSite url : keeps credentialsCache (neverSaveForSite url).
Proof. unfold neverSaveForSite. keeps_auto. Qed.

Lemma neverSaveForSite_sites url origin s :
  _getOrigin url = Some origin ->
  neverSaveSites (neverSaveForSite url s).2 = neverSaveSites s ∪ {[origin]}.
Proof.
  intros Ho. unfold neverSaveForSite. rewrite Ho. unfold bind at 1. simpl.
  match goal with |- neverSaveSites (bind _ _ ?t).2 = _ =>
    change (neverSaveSites s ∪ {[origin]}) with (neverSaveSites t) end.
  apply (keeps_bind neverSaveSites); keeps_auto.
Qed.

Lemma enableSaveForSite_sites url origin s :
  _getOrigin url = Some origin ->
  neverSaveSites (enableSaveForSite url s).2 = neverSaveSites s ∖ {[origin]}.
Proof.
  intros Ho. unfold enableSaveForSite. rewrite Ho. unfold bind at 1. simpl.
  match goal with |- neverSaveSites (bind _ _ ?t).2 = _ =>
    change (neverSaveSites s ∖ {[origin]}) with (neverSaveSites t) end.
  apply (keeps_bind neverSaveSites); keeps_auto.
Qed.

Lemma shouldPromptSave_value url origin s :
  _getOrigin url = Some origin ->
  shouldPromptSave url s = (Ok (negb (bool_decide (origin ∈ neverSaveSites s))), s).
Proof. intros Ho. unfold shouldPromptSave. rewrite Ho. reflexivity. Qed.

Lemma exec_keeps_never origin op s :
  not_enabling origin op ->
  origin ∈ neverSaveSites s -> origin ∈ neverSaveSites (exec op s).
Proof.
  intros Hne Hin. destruct op; simpl.
  - rewrite shouldPromptSave_state. exact Hin.
  - destruct (_getOrigin url) as [o|] eqn:Ho.
    + rewrite (neverSaveForSite_sites url o s Ho). apply elem_of_union. left. exact Hin.
    + unfold neverSaveForSite. rewrite Ho. exact Hin.
  - simpl in Hne. destruct (_getOrigin url) as [o|] eqn:Ho.
    + rewrite (enableSaveForSite_sites url o s Ho).
      apply elem_of_difference. split; [exact Hin|].
      intros Hs. apply elem_of_singleton in Hs. apply Hne. congruence.
    + unfold enableSaveForSite. rewrite Ho. exact Hin.
  - rewrite checkExistingCredential_state. exact Hin.
  - rewrite keeps_never_saveCredential. exact Hin.
  - rewrite getCredentials_state. exact Hin.
  - rewrite keeps_never_deleteCredential. exact Hin.
  - rewrite keeps_never_deleteAllForOrigin. exact Hin.
  - rewrite keeps_never_updateUsername. exact Hin.
  - rewrite keeps_never_clearAllCredentials. exact Hin.
Qed.

Lemma exec_all_keeps_never origin ops s :
  Forall (not_enabling origin) ops ->
  origin ∈ neverSaveSites s -> origin ∈ neverSaveSites (exec_all ops s).
Proof.
  intros F. revert s. induction F as [|op ops Hop F IH]; intros s Hin; simpl; [exact Hin|].
  apply IH. apply exec_keeps_never; assumption.
Qed.

(** C5 (as amended). Never-save gating: [shouldPromptSave] answers [false] exactly
    when the URL has no origin that parses or its origin is in the
    never-save set. After [neverSaveForSite] for a URL the answer for it is
    [false], and stays [false] through every sequence of calls in which
    [enableSaveForSite] is not called for that origin; [enableSaveForSite]
    brings the prompt back. [neverSaveForSite] leaves the credential cache
    as it was. *)
Theorem never_save_gating url s :
  ((shouldPromptSave url s).1 = Ok false <->
     _getOrigin url = None \/
     exists origin, _getOrigin url = Some origin /\ origin ∈ neverSaveSites s) /\
  (forall ops,
     is_Some (_getOrigin url) ->
     Forall (fun op => forall origin, _getOrigin url = Some origin -> not_enabling origin op) ops ->
     (shouldPromptSave url (exec_all ops (neverSaveForSite url s).2)).1 = Ok false) /\
  (is_Some (_getOrigin url) ->
     (shouldPromptSave url (enableSaveForSite url (neverSaveForSite url s).2).2).1 = Ok true) /\
  credentialsCache (neverSaveForSite url s).2 = credentialsCache s.
Proof.
  split; [|split; [|split]].
  - destruct (_getOrigin url) as [origin|] eqn:Ho.
    + rewrite (shouldPromptSave_value url origin s Ho). simpl. split.
      * intros [= H]. right. exists origin. split; [reflexivity|].
        apply negb_false_iff, bool_decide_eq_true in H. exact H.
      * intros [H | (o & Eo & H)]; [discriminate|]. injection Eo as <-.
        rewrite bool_decide_true by exact H. reflexivity.
    + unfold shouldPromptSave. rewrite Ho. simpl. split; [left|]; reflexivity.
  - intros ops [origin Ho] F.
    rewrite (shouldPromptSave_value url origin _ Ho). simpl.
    rewrite bool_decide_true; [reflexivity|].
    apply exec_all_keeps_never.
    + eapply Forall_impl; [exact F|]. simpl. intros op H. apply H. exact Ho.
    + rewrite (neverSaveForSite_sites url origin s Ho).
      apply elem_of_union. right. apply elem_of_singleton. reflexivity.
  - intros [origin Ho].
    rewrite (shouldPromptSave_value url origin _ Ho). simpl.
    rewrite bool_decide_false; [reflexivity|].
    rewrite (enableSaveForSite_sites url origin _ Ho).
    intros Hin. apply elem_of_difference in Hin as [_ Hn].
    apply Hn, elem_of_singleton. reflexivity.
  - apply keeps_cache_neverSaveForSite.
Qed.

(** C4 (as amended). [saveCredential] checks the URL and nothing else:
    without an origin that parses it returns [false] and changes nothing;
    with one it returns [true] and stores the record, whatever the user
    name and the secret are, the empty string included. The empty values
    are stopped earlier, in the page: [handleFormSubmit] reports no
    submission when the trimmed user name or the password is empty. *)
Theorem saveCredential_validates_url_only url user secret s :
  (_getOrigin url = None -> saveCredential url user secret s = (Ok false, s)) /\
  (forall origin,
     _getOrigin url = Some origin ->
     exists s' l r,
       saveCredential url user secret s = (Ok true, s') /\
       credentialsCache s' !! origin = Some l /\
       r ∈ l /\ username r = user /\ password r = secret) /\
  (forall u p href page_origin,
     String_trim u = "" \/ p = "" ->
     handleFormSubmit (Some u) (Some p) href page_origin = None).
Proof.
  split; [|split].
  - intros Ho. unfold saveCredential. rewrite Ho. reflexivity.
  - intros origin Ho.
    destruct (saveCredential_step url user secret s origin Ho)
      as (s' & l & Hsave & Hcache & _ & _ & Hcase).
    destruct (saved_record_in user secret s (default [] (credentialsCache s !! origin)) l)
      as (r & Hin & Hu & Hp).
    { destruct Hcase as [[H _] | [H _]]; [left | right]; exact H. }
    exists s', l, r. split; [exact Hsave|].
    split; [rewrite Hcache; apply lookup_insert_eq|]. auto.
  - intros u p href page_origin H. unfold handleFormSubmit. simpl.
    destruct H as [-> | ->]; simpl; [reflexivity|].
    rewrite orb_true_r. reflexivity.
Qed.

(** ** Loading the store *)

Lemma returns__loadNeverSaveSites : returns _loadNeverSaveSites.
Proof.
  apply returns_try_catch. intros e.
  apply returns_bind; [apply returns_console | intros _; apply returns_modify].
Qed.

Lemma returns__loadCredentials : returns _loadCredentials.
Proof. apply returns_try_catch. intros e. apply returns_console. Qed.

Lemma returns_before_load : returns before_load.
Proof.
  unfold before_load.
  repeat (apply returns_bind; [apply returns_modify | intros _]).
  apply returns_bind; [|intros _; apply returns__loadNeverSaveSites].
  destruct safeStorage_isEncryptionAvailable;
    (apply returns_bind; [first [apply returns_modify | apply returns_console]
                         | intros _; first [apply returns_modify | apply returns_console]]).
Qed.

Lemma keeps_cache__loadNeverSaveSites : keeps credentialsCache _loadNeverSaveSites.
Proof. unfold _loadNeverSaveSites. keeps_auto. Qed.

Lemma keeps_disk__loadNeverSaveSites : keeps disk _loadNeverSaveSites.
Proof. unfold _loadNeverSaveSites. keeps_auto. Qed.

Lemma before_load_cache s : credentialsCache (before_load s).2 = ∅.
Proof.
  unfold before_load, bind, modify, console_out, modify. simpl.
  destruct safeStorage_isEncryptionAvailable; simpl;
    match goal with |- context [_loadNeverSaveSites ?t] =>
      pose proof (keeps_cache__loadNeverSaveSites t) as Hk;
      destruct (_loadNeverSaveSites t) as [[[]|e] s1] end; exact Hk.
Qed.

Lemma before_load_disk s : disk (before_load s).2 = disk s.
Proof.
  unfold before_load, bind, modify, console_out, modify. simpl.
  destruct safeStorage_isEncryptionAvailable; simpl;
    match goal with |- context [_loadNeverSaveSites ?t] =>
      pose proof (keeps_disk__loadNeverSaveSites t) as Hk;
      destruct (_loadNeverSaveSites t) as [[[]|e] s1] end; exact Hk.
Qed.

(** The constructor is [before_load] followed by [_loadCredentials]. *)
Lemma constructor_split s : constructor s = (before_load ;; _loadCredentials) s.
Proof.
  unfold constructor, before_load, _initialize, bind, modify. simpl.
  destruct safeStorage_isEncryptionAvailable; simpl;
    match goal with |- context [_loadNeverSaveSites ?t] =>
      destruct (_loadNeverSaveSites t) as [[[]|e] s1] end; reflexivity.
Qed.

(** The constructor never throws. *)
Lemma returns_constructor : returns constructor.
Proof.
  intros s. rewrite constructor_split.
  apply returns_bind; [apply returns_before_load | intros _; apply returns__loadCredentials].
Qed.

Lemma _loadCredentials_unusable s blob :
  disk s credentialsFile = Stored blob ->
  blob_unusable blob s ->
  exists s', _loadCredentials s = (Ok tt, s') /\ credentialsCache s' = credentialsCache s.
Proof.
  intros Hd Hu. unfold blob_unusable in Hu.
  pose proof (keeps__decrypt credentialsCache blob object_field_credentialsCache s) as Hk.
  unfold _loadCredentials, try_catch, bind, existsSync, readFileSync, gets.
  simpl. rewrite Hd. simpl. rewrite Hd.
  destruct (_decrypt blob s) as [[[[|c text]|]|e] s1]; simpl in *.
  - eexists; split; [reflexivity | exact Hk].
  - destruct (JSON_parse (c :: text)) as [v|]; simpl;
      [rewrite Hu|]; eexists; (split; [reflexivity | exact Hk]).
  - eexists; split; [reflexivity | exact Hk].
  - eexists; split; [reflexivity | exact Hk].
Qed.

(** C6. Graceful degradation on a corrupt blob: when the credentials
    file holds a blob that does not decrypt (the result is [null] or the
    empty string) or whose text does not parse into entries, constructing
    the manager returns normally, no exception reaching the caller, and the
    cache is empty. *)
Theorem corrupt_blob_loads_empty s blob :
  disk s credentialsFile = Stored blob ->
  blob_unusable blob (before_load s).2 ->
  exists s', constructor s = (Ok tt, s') /\ credentialsCache s' = ∅.
Proof.
  intros Hd Hu. rewrite constructor_split. unfold bind.
  destruct (returns_before_load s) as [[] Hr].
  pose proof (before_load_cache s) as Hc. pose proof (before_load_disk s) as Hdisk.
  destruct (before_load s) as [r s0]. simpl in *. subst r.
  destruct (_loadCredentials_unusable s0 blob) as (s' & Hl & Hc').
  - rewrite Hdisk. exact Hd.
  - exact Hu.
  - exists s'. split; [exact Hl | rewrite Hc'; exact Hc].
Qed.

(** ** Hex and UTF-8 *)

(** Division and remainder by constants, then linear arithmetic, on the
    numbers of the goal alone. *)
Ltac div_mod_lia :=
  repeat match goal with
         | H : forall _, _ |- _ => clear H
         | T : Type |- _ => clear T
         | o : option _ |- _ => clear o
         end;
  Z.div_mod_to_equations; lia.

Lemma hex_value_digit n : 0 <= n < 16 -> hex_value (hex_digit n) = Some n.
Proof.
  intros H.
  assert (exists k : nat, (k < 16)%nat /\ n = Z.of_nat k) as (k & Hk & ->)
    by (exists (Z.to_nat n); lia).
  do 16 (destruct k as [|k]; [reflexivity|]). lia.
Qed.

Lemma Buffer_from_hex_to_hex buf :
  Forall is_byte buf -> Buffer_from_hex (to_hex buf) = buf.
Proof.
  induction 1 as [|b buf Hb _ IH]; simpl; [reflexivity|].
  unfold is_byte in Hb.
  rewrite !hex_value_digit by (div_mod_lia).
  rewrite IH. f_equal. div_mod_lia.
Qed.

Lemma is_byte_code_point cp :
  0 <= cp < 1114112 -> Forall is_byte (utf8_of_code_point cp).
Proof.
  intros H. unfold utf8_of_code_point, is_byte.
  repeat match goal with |- context [?a <? ?b] => destruct (Z.ltb_spec a b) end;
    repeat constructor; div_mod_lia.
Qed.

Lemma is_byte_replacement : Forall is_byte replacement.
Proof. unfold replacement, is_byte. repeat constructor; lia. Qed.

Lemma surrogate_tests c :
  (is_high c = true <-> 55296 <= c <= 56319) /\ (is_low c = true <-> 56320 <= c <= 57343) /\
  (is_unit c = true <-> 0 <= c < 65536).
Proof.
  unfold is_high, is_low, is_unit.
  rewrite !andb_true_iff, !Z.leb_le, Z.ltb_lt. tauto.
Qed.

(** Every well-formed string is a sequence of steps of one unit outside
    the surrogates, or of a pair. *)
Lemma well_formed_ind (P : Text -> Prop) :
  P [] ->
  (forall c rest,
     is_unit c = true -> is_high c = false -> is_low c = false ->
     well_formed rest = true -> P rest -> P (c :: rest)) ->
  (forall c d rest,
     is_unit c = true -> is_high c = true -> is_low d = true ->
     well_formed rest = true -> P rest -> P (c :: d :: rest)) ->
  forall s, well_formed s = true -> P s.
Proof.
  intros Hnil Hone Hpair s.
  assert (forall n (s : Text), (List.length s <= n)%nat -> well_formed s = true -> P s) as H.
  { intros n. induction n as [|n IH]; intros [|c rest] Hlen Hwf; try exact Hnil.
    - simpl in Hlen. lia.
    - simpl in Hlen, Hwf. apply andb_true_iff in Hwf as [Hu Hwf].
      destruct (is_high c) eqn:Hh.
      + destruct rest as [|d rest]; [discriminate|].
        apply andb_true_iff in Hwf as [Hl Hwf]. simpl in Hlen.
        apply Hpair; try assumption. apply IH; [lia | assumption].
      + apply andb_true_iff in Hwf as [Hl Hwf]. apply negb_true_iff in Hl.
        apply Hone; try assumption. apply IH; [lia | assumption]. }
  apply (H (List.length s)). lia.
Qed.

Lemma utf8_encode_unit c rest :
  is_high c = false -> is_low c = false ->
  utf8_encode (c :: rest) = (utf8_of_code_point c ++ utf8_encode rest)%list.
Proof. intros Hh Hl. simpl. rewrite Hh, Hl. reflexivity. Qed.

Lemma utf8_encode_pair c d rest :
  is_high c = true -> is_low d = true ->
  utf8_encode (c :: d :: rest) =
    (utf8_of_code_point (65536 + (c - 55296) * 1024 + (d - 56320)) ++ utf8_encode rest)%list.
Proof. intros Hh Hl. simpl. rewrite Hh, Hl. reflexivity. Qed.

Lemma is_byte_utf8_encode s : well_formed s = true -> Forall is_byte (utf8_encode s).
Proof.
  apply (well_formed_ind (fun s => Forall is_byte (utf8_encode s))).
  - constructor.
  - intros c rest Hu Hh Hl _ IH. rewrite utf8_encode_unit by assumption.
    apply Forall_app. split; [|exact IH]. apply is_byte_code_point.
    apply surrogate_tests in Hu. lia.
  - intros c d rest Hu Hh Hl _ IH. rewrite utf8_encode_pair by assumption.
    apply Forall_app. split; [|exact IH]. apply is_byte_code_point.
    apply surrogate_tests in Hh, Hl. lia.
Qed.

Lemma utf8_decode_plain_unit c rest :
  0 <= c < 65536 ->
  utf8_decode_plain (utf8_of_code_point c ++ rest) = c :: utf8_decode_plain rest.
Proof.
  intros H. unfold utf8_of_code_point.
  destruct (Z.ltb_spec c 128); [|destruct (Z.ltb_spec c 2048); [|destruct (Z.ltb_spec c 65536)]];
    simpl.
  - destruct (Z.ltb_spec c 128); [reflexivity | lia].
  - destruct (Z.ltb_spec (192 + c / 64) 128); [div_mod_lia|].
    destruct (Z.ltb_spec (192 + c / 64) 224); [|div_mod_lia].
    f_equal. div_mod_lia.
  - destruct (Z.ltb_spec (224 + c / 4096) 128); [div_mod_lia|].
    destruct (Z.ltb_spec (224 + c / 4096) 224); [div_mod_lia|].
    destruct (Z.ltb_spec (224 + c / 4096) 240); [|div_mod_lia].
    f_equal. div_mod_lia.
  - lia.
Qed.

Lemma utf8_decode_plain_pair c d rest :
  55296 <= c <= 56319 -> 56320 <= d <= 57343 ->
  utf8_decode_plain
    (utf8_of_code_point (65536 + (c - 55296) * 1024 + (d - 56320)) ++ rest) =
  c :: d :: utf8_decode_plain rest.
Proof.
  intros Hc Hd. unfold utf8_of_code_point.
  set (cp := 65536 + (c - 55296) * 1024 + (d - 56320)).
  assert (65536 <= cp < 1114112) as Hcp by (unfold cp; lia).
  destruct (Z.ltb_spec cp 128); [lia|]. destruct (Z.ltb_spec cp 2048); [lia|].
  destruct (Z.ltb_spec cp 65536); [lia|]. simpl.
  destruct (Z.ltb_spec (240 + cp / 262144) 128); [div_mod_lia|].
  destruct (Z.ltb_spec (240 + cp / 262144) 224); [div_mod_lia|].
  destruct (Z.ltb_spec (240 + cp / 262144) 240); [div_mod_lia|].
  assert ((240 + cp / 262144 - 240) * 262144 + (128 + (cp / 4096) mod 64 - 128) * 4096 +
          (128 + (cp / 64) mod 64 - 128) * 64 + (128 + cp mod 64 - 128) - 65536
          = (c - 55296) * 1024 + (d - 56320)) as ->
    by (unfold cp; div_mod_lia).
  f_equal; [|f_equal]; div_mod_lia.
Qed.

(** The plain decoder inverts the encoder on well-formed strings. *)
Lemma utf8_decode_plain_encode s :
  well_formed s = true -> utf8_decode_plain (utf8_encode s) = s.
Proof.
  apply (well_formed_ind (fun s => utf8_decode_plain (utf8_encode s) = s)).
  - reflexivity.
  - intros c rest Hu Hh Hl _ IH. rewrite utf8_encode_unit by assumption.
    rewrite utf8_decode_plain_unit by (apply surrogate_tests in Hu; lia).
    rewrite IH. reflexivity.
  - intros c d rest Hu Hh Hl _ IH. rewrite utf8_encode_pair by assumption.
    rewrite utf8_decode_plain_pair by (apply surrogate_tests; assumption).
    rewrite IH. reflexivity.
Qed.

(** ** The fallback cipher *)

Lemma length_random (f : nat -> Z) a n :
  List.length (map (fun i => f i mod 256) (seq a n)) = n.
Proof. rewrite length_map, length_seq. reflexivity. Qed.

Lemma key_of_length s : key_ready s -> List.length (key_of s) = 32%nat.
Proof.
  unfold key_of. intros [[-> _] | (key & -> & H)]; [apply length_random | exact H].
Qed.

Lemma nonce_of_length s : List.length (nonce_of s) = 16%nat.
Proof. unfold nonce_of. destruct (disk s encryptionKeyFile); apply length_random. Qed.

(** With a usable key file [_getEncryptionKey] returns [key_of s]; the
    key is then on disk, and the next nonce is the one [nonce_of s] names. *)
Lemma _getEncryptionKey_ready s :
  key_ready s ->
  exists s',
    _getEncryptionKey s = (Ok (key_of s), s') /\
    disk s' encryptionKeyFile = Stored (key_of s) /\
    useOSStorage s' = useOSStorage s /\
    map (fun i => entropy s' i mod 256) (seq (drawn s') 16) = nonce_of s.
Proof.
  unfold key_of, nonce_of, _getEncryptionKey, try_catch, bind, existsSync, gets.
  intros [[Hd Hw] | (key & Hd & _)]; simpl; rewrite Hd; simpl.
  - unfold randomBytes, writeFileSync. simpl. rewrite Hw. simpl.
    eexists. split; [reflexivity|]. simpl. repeat split.
  - unfold readFileSync. rewrite Hd. eexists. split; [reflexivity|].
    repeat split. exact Hd.
Qed.

Lemma _getEncryptionKey_stored s key :
  disk s encryptionKeyFile = Stored key -> _getEncryptionKey s = (Ok key, s).
Proof.
  intros Hd. unfold _getEncryptionKey, try_catch, bind, existsSync, gets, readFileSync.
  simpl. rewrite Hd. simpl. rewrite Hd. reflexivity.
Qed.

Lemma slices_of_blob (iv tag ct : Buffer) :
  List.length iv = 16%nat -> List.length tag = 16%nat ->
  slice 0 16 (iv ++ tag ++ ct) = iv /\
  slice 16 32 (iv ++ tag ++ ct) = tag /\
  slice_from 32 (iv ++ tag ++ ct) = ct.
Proof.
  intros Hi Ht. unfold slice, slice_from. repeat split.
  - change (16 - 0)%nat with 16%nat. rewrite drop_0, <- Hi. apply take_app_length.
  - change (32 - 16)%nat with 16%nat.
    replace (drop 16 (iv ++ tag ++ ct)) with (tag ++ ct)%list
      by (rewrite <- Hi; symmetry; apply drop_app_length).
    rewrite <- Ht. apply take_app_length.
  - replace 32%nat with (List.length iv + List.length tag)%nat by lia.
    rewrite <- drop_drop, !drop_app_length. reflexivity.
Qed.

(** Without the OS store, [_encrypt] sees its argument only through its
    UTF-8 encoding. *)
Lemma _encrypt_fallback_ext x y s :
  useOSStorage s = false -> utf8_encode x = utf8_encode y -> _encrypt x s = _encrypt y s.
Proof.
  intros Hos E. unfold _encrypt, bind, gets. simpl. rewrite Hos. simpl.
  destruct (_getEncryptionKey s) as [[key|e] s1]; [|reflexivity].
  rewrite E. reflexivity.
Qed.

(** Whatever the runtime's decoder does, one of the two strings
    [U+D800] (a lone surrogate) and [U+FFFD] does not come back: they are
    encrypted alike. *)
Lemma lone_surrogate_or_replacement_lost s :
  useOSStorage s = false ->
  ~ (fallback_round_trip [55296] s /\ fallback_round_trip [65533] s).
Proof.
  intros Hos [(b1 & s1 & s2 & E1 & D1) (b2 & t1 & t2 & E2 & D2)].
  rewrite (_encrypt_fallback_ext [55296] [65533] s Hos eq_refl) in E1.
  rewrite E1 in E2. injection E2 as <- <-. rewrite D1 in D2. discriminate.
Qed.

(** C3 (as amended). Fallback-cipher round-trip: without OS secure
    storage and with a usable key file, encrypting a string that has no
    unpaired surrogate gives the nonce, then the authentication tag, then
    the ciphertext, each of the first two 16 bytes long, and decrypting that
    blob gives the string back. *)
Theorem fallback_cipher_round_trip s x :
  useOSStorage s = false ->
  key_ready s ->
  well_formed x = true ->
  exists ct tag s1 s2,
    gcm_seal (key_of s) (nonce_of s) (utf8_encode x) = Some (ct, tag) /\
    List.length (nonce_of s) = 16%nat /\ List.length tag = 16%nat /\
    _encrypt x s = (Ok (nonce_of s ++ tag ++ ct)%list, s1) /\
    _decrypt (nonce_of s ++ tag ++ ct)%list s1 = (Ok (Some x), s2).
Proof using gcm_sound utf8_decode_encode.
  intros Hos Hk Hwf.
  destruct (gcm_sound (key_of s) (nonce_of s) (utf8_encode x)
              (key_of_length s Hk) (nonce_of_length s) (is_byte_utf8_encode x Hwf))
    as (ct & tag & Hseal & Htag & Hbytes & Hopen).
  destruct (_getEncryptionKey_ready s Hk) as (s0 & Hkey & Hdisk & Hos0 & Hnonce).
  destruct (slices_of_blob (nonce_of s) tag ct (nonce_of_length s) Htag) as (Hs1 & Hs2 & Hs3).
  exists ct, tag. eexists. eexists.
  split; [exact Hseal|]. split; [apply nonce_of_length|]. split; [exact Htag|]. split.
  - unfold _encrypt, bind, gets. cbv beta iota. rewrite Hos. unfold ret at 1.
    cbv beta iota. rewrite Hkey. unfold randomBytes. cbv beta iota.
    rewrite Hnonce, Hseal.
    rewrite (Buffer_from_hex_to_hex ct Hbytes).
    reflexivity.
  - unfold _decrypt, bind, gets, try_catch. cbv beta iota.
    assert (useOSStorage (set_drawn (drawn s0 + 16) s0) = false) as -> by (simpl; congruence).
    unfold ret at 1. cbv beta iota.
    rewrite (_getEncryptionKey_stored _ (key_of s)) by exact Hdisk.
    cbv beta iota. rewrite Hs1, Hs2, Hs3, Hopen. unfold ret.
    rewrite (utf8_decode_encode x Hwf). reflexivity.
Qed.

(** ** The ad blocker *)

Lemma isWhitelisted_hostname ab url parsed :
  URL_parse url = Some parsed -> hostname parsed ∈ whitelist ab -> isWhitelisted ab url = true.
Proof. intros Hp Hin. unfold isWhitelisted. rewrite Hp. apply bool_decide_eq_true. exact Hin. Qed.

Lemma parsed_not_empty url parsed : URL_parse url = Some parsed -> String.eqb url "" = false.
Proof using URL_parse_empty.
  intros Hp. apply String.eqb_neq. intros ->. rewrite URL_parse_empty in Hp. discriminate.
Qed.

(** C7. Whitelist bypass: when the page URL parses and its host name is
    in the whitelist, [shouldBlock] is [false] for every request URL,
    whatever the domain list, the patterns and the video rules say of it. *)
Theorem whitelist_bypass ab requestUrl pageUrl parsed :
  URL_parse pageUrl = Some parsed ->
  hostname parsed ∈ whitelist ab ->
  shouldBlock ab requestUrl pageUrl = false.
Proof using URL_parse_empty.
  intros Hp Hin. unfold shouldBlock.
  destruct (enabled ab); [|reflexivity]. simpl negb. cbv iota.
  rewrite (parsed_not_empty pageUrl parsed Hp).
  rewrite (isWhitelisted_hostname ab pageUrl parsed Hp Hin). reflexivity.
Qed.

(** C8. First-party exemption: a request of resource type [mainFrame] is
    answered [cancel: false], nothing is recorded and nothing is sent,
    whatever its URL; a cancelled request is therefore never a main-frame
    one, and it is one that [shouldBlock] blocks. *)
Theorem main_frame_never_cancelled alive details ab ls :
  (d_resourceType details = "mainFrame" ->
   onBeforeRequest alive details ab ls = (mkResponse false, ab, ls, None)) /\
  (cancel (onBeforeRequest alive details ab ls).1.1.1 = true ->
   d_resourceType details <> "mainFrame" /\
   enabled ab = true /\
   shouldBlock ab (d_url details) (d_referrer details) = true).
Proof.
  unfold onBeforeRequest. split.
  - intros ->. destruct (enabled ab); reflexivity.
  - destruct (enabled ab); [|discriminate]. simpl negb. cbv iota.
    destruct (String.eqb_spec (d_resourceType details) "mainFrame") as [E|E]; [discriminate|].
    assert ((if String.eqb (d_referrer details) "" then "" else d_referrer details)
            = d_referrer details) as ->.
    { destruct (String.eqb_spec (d_referrer details) "") as [->|]; reflexivity. }
    destruct (shouldBlock ab (d_url details) (d_referrer details)); [|discriminate].
    intros _. repeat split. exact E.
Qed.

Lemma durable_saveSettings ab ls : ls <> None -> durable ab (saveSettings ab ls).
Proof. intros H. destruct ls; [reflexivity | contradiction]. Qed.

(** C9 (as amended). Where [localStorage] exists, [toggle] returns the
    new enabled state and the settings in storage are the blocker's right
    after it, and likewise after a whitelist add or remove. A recorded
    block raises the total by one and is written to storage only when the
    session count reaches a multiple of ten; otherwise storage is left as it
    was. Settings that are in storage come back on the next start. Where
    [localStorage] does not exist nothing is stored. *)
Theorem settings_persistence ab ls domain tabId :
  (ls <> None ->
   (toggle ab ls).1.1 = negb (enabled ab) /\
   enabled (toggle ab ls).1.2 = negb (enabled ab) /\
   durable (toggle ab ls).1.2 (toggle ab ls).2 /\
   durable (addToWhitelist domain ab ls).1 (addToWhitelist domain ab ls).2 /\
   durable (removeFromWhitelist domain ab ls).1 (removeFromWhitelist domain ab ls).2 /\
   (if (sessionBlocked ab + 1) mod 10 =? 0
    then durable (recordBlocked tabId ab ls).1 (recordBlocked tabId ab ls).2
    else (recordBlocked tabId ab ls).2 = ls)) /\
  totalBlocked (recordBlocked tabId ab ls).1 = totalBlocked ab + 1 /\
  (durable ab ls ->
   enabled (AdBlocker_new ls) = enabled ab /\
   whitelist (AdBlocker_new ls) = whitelist ab /\
   totalBlocked (AdBlocker_new ls) = totalBlocked ab) /\
  (ls = None ->
   (toggle ab ls).2 = None /\ (addToWhitelist domain ab ls).2 = None /\
   (removeFromWhitelist domain ab ls).2 = None /\ (recordBlocked tabId ab ls).2 = None).
Proof.
  split; [|split; [|split]].
  - intros Hls. unfold toggle, addToWhitelist, removeFromWhitelist, recordBlocked. simpl.
    repeat (split; [first [reflexivity | apply durable_saveSettings; exact Hls]|]).
    destruct (_ =? 0); simpl; [apply durable_saveSettings; exact Hls | reflexivity].
  - unfold recordBlocked. destruct (_ =? 0); reflexivity.
  - intros ->. unfold AdBlocker_new, loadSettings. simpl.
    repeat split. apply list_to_set_elements_L.
  - intros ->. unfold recordBlocked. simpl. destruct (_ =? 0); repeat split.
Qed.

(** C10. With the empty string as page URL the whitelist is not looked
    at: [shouldBlock] is the enabled flag and the three rule sets, the
    same for every whitelist. The request handler passes the referrer as
    page URL, so a request that carries no referrer is cancelled on a
    blocklist hit even while the host name of the page that issued it is in
    the whitelist. *)
Theorem empty_referrer_skips_whitelist ab url :
  shouldBlock ab url "" = enabled ab && rules_hit url "" /\
  (forall w,
     shouldBlock (mkAdBlocker (enabled ab) (totalBlocked ab) (sessionBlocked ab)
                    (blockedByTab ab) w) url "" = shouldBlock ab url "") /\
  (forall alive id ls,
     cancel (onBeforeRequest alive
               (mkDetails "https://doubleclick.net/ads/x.js" "script" "" id)
               (mkAdBlocker true 0 0 ∅ {["news.example"]}) ls).1.1.1 = true).
Proof.
  assert (forall a u, shouldBlock a u "" = enabled a && rules_hit u "") as H.
  { intros a u. unfold shouldBlock, rules_hit. destruct (enabled a); [|reflexivity].
    change (String.eqb "" "") with true. cbv beta iota zeta delta [negb andb].
    repeat match goal with |- context [if ?c then true else _] => destruct c end;
      reflexivity. }
  split; [apply H|]. split.
  - intros w. rewrite !H. reflexivity.
  - intros alive id ls. unfold onBeforeRequest. simpl negb. cbv iota.
    change (String.eqb "script" "mainFrame") with false. cbv iota.
    change (String.eqb "" "") with true. cbv iota.
    rewrite H. change (rules_hit "https://doubleclick.net/ads/x.js" "") with true.
    simpl andb. cbv iota. destruct (recordBlocked _ _ _). reflexivity.
Qed.

(** A blob that the decipher turns down (tampered bytes, another key) is
    unusable in the sense of [blob_unusable], and so is one whose text is
    not JSON. *)
Lemma rejected_blob_unusable s key blob :
  useOSStorage s = false ->
  disk s encryptionKeyFile = Stored key ->
  gcm_open key (slice 0 16 blob) (slice 16 32 blob) (slice_from 32 blob) = None ->
  blob_unusable blob s.
Proof.
  intros Hos Hd Hopen. unfold blob_unusable, _decrypt, bind, gets, try_catch.
  cbv beta iota. rewrite Hos. unfold ret at 1. cbv beta iota.
  rewrite (_getEncryptionKey_stored s key Hd). cbv beta iota zeta. rewrite Hopen.
  exact I.
Qed.

Lemma unparsable_blob_unusable s key blob pt :
  useOSStorage s = false ->
  disk s encryptionKeyFile = Stored key ->
  gcm_open key (slice 0 16 blob) (slice 16 32 blob) (slice_from 32 blob) = Some pt ->
  JSON_parse (utf8_decode pt) = None ->
  blob_unusable blob s.
Proof.
  intros Hos Hd Hopen Hparse. unfold blob_unusable, _decrypt, bind, gets, try_catch.
  cbv beta iota. rewrite Hos. unfold ret at 1. cbv beta iota.
  rewrite (_getEncryptionKey_stored s key Hd). cbv beta iota zeta. rewrite Hopen.
  unfold ret. simpl fst. destruct (utf8_decode pt) as [|c text]; [exact I|].
  rewrite Hparse. exact I.
Qed.

(** ** The invariant of the data model *)

Lemma cache_after_modify_save {A} f (k : M A) s :
  keeps credentialsCache k ->
  credentialsCache ((modify (set_credentialsCache f) ;; _saveCredentials ;; k) s).2
  = f (credentialsCache s).
Proof.
  intros Hk. unfold bind at 1. unfold modify.
  change (f (credentialsCache s)) with (credentialsCache (set_credentialsCache f s)).
  apply (keeps_bind credentialsCache); [|intros _; exact Hk].
  apply keeps__saveCredentials, object_field_credentialsCache.
Qed.

Lemma NoDup_usernames_filter (p : Credential -> bool) l :
  NoDup (map username l) -> NoDup (map username (List.filter p l)).
Proof.
  induction l as [|a l IH]; simpl; intros Hnd; [constructor|].
  apply NoDup_cons in Hnd as [Hna Hnd]. destruct (p a); simpl; [|apply IH; exact Hnd].
  apply NoDup_cons. split; [|apply IH; exact Hnd].
  intros Hin. apply Hna. apply list_elem_of_fmap in Hin as (c & E & Hc).
  apply list_elem_of_fmap. exists c. split; [exact E|].
  apply list_elem_of_In. apply list_elem_of_In, List.filter_In in Hc. apply Hc.
Qed.

Lemma NoDup_insert_fresh (names : list string) i name :
  NoDup names -> name ∉ names -> NoDup (<[i := name]> names).
Proof.
  revert i. induction names as [|a names IH]; intros i Hnd Hn; [constructor|].
  apply NoDup_cons in Hnd as [Hna Hnd].
  apply not_elem_of_cons in Hn as [Hne Hn].
  destruct i as [|i]; simpl; apply NoDup_cons; split; try assumption.
  - intros Hin. apply list_elem_of_lookup in Hin as (j & Hj).
    destruct (decide (i = j)) as [->|Hij].
    + rewrite list_lookup_insert_eq in Hj by (apply lookup_lt_Some in Hj;
        rewrite length_insert in Hj; exact Hj).
      congruence.
    + rewrite list_lookup_insert_ne in Hj by exact Hij.
      apply Hna. apply list_elem_of_lookup. exists j. exact Hj.
  - apply IH; assumption.
Qed.

Lemma unique_usernames_same_cache s s' :
  credentialsCache s' = credentialsCache s -> unique_usernames s -> unique_usernames s'.
Proof. intros E Hu origin l. rewrite E. apply Hu. Qed.

Lemma unique_usernames_deleteCredential url user s :
  unique_usernames s -> unique_usernames (deleteCredential url user s).2.
Proof.
  intros Hu. unfold deleteCredential.
  destruct (_getOrigin url) as [origin|]; [|exact Hu].
  unfold bind at 1. unfold gets. cbv beta iota.
  destruct (credentialsCache s !! origin) as [l|] eqn:El; [|exact Hu].
  destruct (List.length _ =? 0)%nat.
  - intros o l'. rewrite cache_after_modify_save by keeps_auto.
    intros Hl. apply lookup_delete_Some in Hl as [_ Hl]. apply (Hu o l' Hl).
  - intros o l'. rewrite cache_after_modify_save by keeps_auto.
    destruct (decide (origin = o)) as [<-|Hne].
    + rewrite lookup_insert_eq. intros [= <-].
      apply NoDup_usernames_filter. apply (Hu origin l El).
    + rewrite lookup_insert_ne by exact Hne. apply Hu.
Qed.

Lemma unique_usernames_deleteAllForOrigin url s :
  unique_usernames s -> unique_usernames (deleteAllForOrigin url s).2.
Proof.
  intros Hu. unfold deleteAllForOrigin.
  destruct (_getOrigin url) as [origin|]; [|exact Hu].
  intros o l'. rewrite cache_after_modify_save by keeps_auto.
  intros Hl. apply lookup_delete_Some in Hl as [_ Hl]. apply (Hu o l' Hl).
Qed.

Lemma unique_usernames_clearAllCredentials s :
  unique_usernames (clearAllCredentials s).2.
Proof.
  unfold clearAllCredentials. intros o l'.
  rewrite cache_after_modify_save by keeps_auto. rewrite lookup_empty. discriminate.
Qed.

Lemma unique_usernames_updateUsername url oldUsername newUsername s :
  unique_usernames s -> unique_usernames (updateUsername url oldUsername newUsername s).2.
Proof.
  intros Hu. unfold updateUsername.
  destruct (_getOrigin url) as [origin|]; [|exact Hu].
  unfold bind at 1. unfold gets. cbv beta iota.
  destruct (credentialsCache s !! origin) as [l|] eqn:El; [|exact Hu].
  destruct (_ <? 0); [exact Hu|].
  destruct (l !! Z.to_nat _) as [c|] eqn:Ec; [|exact Hu].
  destruct (existsb _ l) eqn:Ex; [exact Hu|].
  unfold bind at 1. unfold Date_now. cbv beta iota.
  intros o l'. rewrite cache_after_modify_save by keeps_auto.
  change (credentialsCache (set_ticks _ s)) with (credentialsCache s).
  destruct (decide (origin = o)) as [<-|Hne].
  - rewrite lookup_insert_eq. intros [= <-]. rewrite list_fmap_insert. simpl.
    apply NoDup_insert_fresh; [apply (Hu origin l El)|].
    intros Hin. apply list_elem_of_fmap in Hin as (c' & E & Hc').
    assert (existsb (fun c => String.eqb (username c) newUsername) l = true) as Ht.
    { apply List.existsb_exists. exists c'. split; [apply list_elem_of_In; exact Hc'|].
      apply String.eqb_eq. symmetry. exact E. }
    rewrite Ht in Ex. discriminate.
  - rewrite lookup_insert_ne by exact Hne. apply Hu.
Qed.

(** No call on the manager breaks the invariant: it holds of every store
    reached from an empty one. *)
Lemma unique_usernames_exec op s : unique_usernames s -> unique_usernames (exec op s).
Proof.
  intros Hu. destruct op; simpl.
  - rewrite shouldPromptSave_state. exact Hu.
  - apply (unique_usernames_same_cache s); [apply keeps_cache_neverSaveForSite | exact Hu].
  - apply (unique_usernames_same_cache s); [|exact Hu].
    assert (keeps credentialsCache (enableSaveForSite url)) as K
      by (unfold enableSaveForSite; keeps_auto).
    apply K.
  - rewrite checkExistingCredential_state. exact Hu.
  - apply unique_usernames_saveCredential. exact Hu.
  - rewrite getCredentials_state. exact Hu.
  - apply unique_usernames_deleteCredential. exact Hu.
  - apply unique_usernames_deleteAllForOrigin. exact Hu.
  - apply unique_usernames_updateUsername. exact Hu.
  - apply unique_usernames_clearAllCredentials.
Qed.

Lemma unique_usernames_exec_all ops s :
  credentialsCache s = ∅ -> unique_usernames (exec_all ops s).
Proof.
  intros E. pose proof (unique_usernames_empty s E) as Hu. clear E.
  revert s Hu. induction ops as [|op ops IH]; intros s Hu; simpl; [exact Hu|].
  apply IH. apply unique_usernames_exec. exact Hu.
Qed.

(** * The store beyond save and autofill *)

(** Drops the parts of the runtime the goal does not mention, so that
    automation cannot pick them up. *)
Ltac forget_runtime :=
  try clear String_trim; try clear RegExp_test;
  try clear JSON_stringify_sites; try clear JSON_stringify_cache;
  try clear Set_of; try clear Object_entries; try clear JSON_parse; try clear JSValue;
  try clear safeStorage_decryptString; try clear safeStorage_encryptString;
  try clear safeStorage_isEncryptionAvailable;
  try clear utf8_decode_encode; try clear utf8_decode;
  try clear gcm_sound; try clear gcm_open; try clear gcm_seal;
  try clear URL_parse_empty; try clear URL_parse.

(** ** [find] and the records of a user *)

Lemma find_head_records_for user l :
  List.find (fun c => String.eqb (username c) user) l = head (records_for user l).
Proof.
  induction l as [|a l IH]; simpl; [reflexivity|].
  destruct (String.eqb (username a) user); [reflexivity | exact IH].
Qed.

Lemma records_for_username user l c : c ∈ records_for user l -> username c = user.
Proof.
  intros H. apply list_elem_of_In, List.filter_In in H as [_ H].
  apply String.eqb_eq. exact H.
Qed.

Lemma records_for_other_insert user other l n c r :
  l !! n = Some c -> username c = user -> username r = user -> other <> user ->
  records_for other (<[n := r]> l) = records_for other l.
Proof.
  revert n. induction l as [|a l IH]; intros n Hl Hc Hr Hne; [reflexivity|].
  destruct n as [|n]; simpl in *.
  - injection Hl as ->. rewrite Hc, Hr.
    destruct (String.eqb_spec user other); [congruence | reflexivity].
  - rewrite (IH n Hl Hc Hr Hne). reflexivity.
Qed.

Lemma saved_record_first user secret s l l' :
  appended user secret s l l' \/ replaced user secret s l l' ->
  exists created updated rest,
    records_for user l' = mkCredential user secret created updated :: rest.
Proof.
  intros [[F ->] | (n & c & Hl & Hc & Hfirst & ->)].
  - do 3 eexists. rewrite records_for_app.
    rewrite (records_for_none user l (Forall_not_named user l F)).
    simpl. rewrite String.eqb_refl. reflexivity.
  - revert n Hl Hfirst. induction l as [|a l IH]; intros n Hl Hfirst; [discriminate|].
    destruct n as [|n]; simpl.
    + rewrite String.eqb_refl. do 3 eexists. reflexivity.
    + destruct (String.eqb_spec (username a) user) as [E|E].
      * exfalso. apply (Hfirst 0%nat a); [lia | reflexivity | exact E].
      * apply (IH n); [exact Hl|]. intros j y Hj Hy. apply (Hfirst (S j) y); [lia | exact Hy].
Qed.

Lemma checkExistingCredential_value url origin user secret s c l :
  _getOrigin url = Some origin ->
  credentialsCache s !! origin = Some (c :: l) ->
  checkExistingCredential url user secret s =
    (Ok match head (records_for user (c :: l)) with
        | None => mkExisting none true
        | Some existing =>
            if String.eqb (password existing) secret
            then mkExisting same false else mkExisting different false
        end, s).
Proof.
  intros Ho Hl. unfold checkExistingCredential. rewrite Ho.
  unfold bind, gets. cbv beta iota. rewrite Hl, find_head_records_for.
  destruct (head (records_for user (c :: l))) as [e|]; [|reflexivity].
  destruct (String.eqb (password e) secret); reflexivity.
Qed.

(** X1. After a save for a URL, user name and secret,
    [checkExistingCredential] for the same URL and user name answers [same]
    for that secret and [different] for any other one, in every store. *)
Theorem check_after_save url user secret secret' s :
  is_Some (_getOrigin url) ->
  exists s',
    saveCredential url user secret s = (Ok true, s') /\
    checkExistingCredential url user secret' s' =
      (Ok (mkExisting (if String.eqb secret secret' then same else different) false), s').
Proof.
  intros [origin Ho].
  destruct (saveCredential_step url user secret s origin Ho)
    as (s' & l' & Hsave & Hcache & _ & _ & Hcase).
  exists s'. split; [exact Hsave|].
  destruct (saved_record_first user secret s (default [] (credentialsCache s !! origin)) l')
    as (cr & up & rest & Hrec).
  { destruct Hcase as [[H _] | [H _]]; [left | right]; exact H. }
  assert (credentialsCache s' !! origin = Some l') as Hl
    by (rewrite Hcache; apply lookup_insert_eq).
  destruct l' as [|c l']; [discriminate|].
  rewrite (checkExistingCredential_value url origin user secret' s' c l' Ho Hl).
  rewrite Hrec. simpl. destruct (String.eqb secret secret'); reflexivity.
Qed.

(** X2. [checkExistingCredential] changes nothing and classifies by the
    first record of the user name at the URL's origin: [none] exactly when
    there is no such record (or no origin), [same] exactly when the first
    one holds the given secret, [different] exactly when it holds another;
    [hasOtherUsers] is set exactly when the origin has records and none of
    that name. *)
Theorem checkExistingCredential_classifies url user secret s :
  exists e,
    checkExistingCredential url user secret s = (Ok e, s) /\
    let l := match _getOrigin url with
             | Some origin => default [] (credentialsCache s !! origin)
             | None => []
             end in
    (status e = none <-> records_for user l = []) /\
    (status e = same <-> exists c rest, records_for user l = c :: rest /\ password c = secret) /\
    (status e = different <->
       exists c rest, records_for user l = c :: rest /\ password c <> secret) /\
    (hasOtherUsers e = true <-> l <> [] /\ records_for user l = []).
Proof.
  forget_runtime. destruct (_getOrigin url) as [origin|] eqn:Ho.
  - destruct (credentialsCache s !! origin) as [[|c l]|] eqn:Hl.
    + eexists. split.
      { unfold checkExistingCredential. rewrite Ho. unfold bind, gets. cbv beta iota.
        rewrite Hl. reflexivity. }
      simpl. repeat split; try discriminate; try tauto;
        try (intros (c & rest & H & _); discriminate).
    + eexists. split; [apply (checkExistingCredential_value url origin user secret s c l Ho Hl)|].
      cbv zeta. change (default [] (Some (c :: l))) with (c :: l).
      destruct (records_for user (c :: l)) as [|e rest] eqn:Hrec; simpl.
      * repeat split; try discriminate; try tauto;
          try (intros (c' & rest & H & _); discriminate).
      * destruct (String.eqb_spec (password e) secret) as [E|E]; simpl;
          repeat split; try discriminate; try tauto;
          try (intros _; exists e, rest; split; [reflexivity | assumption]);
          try (intros (c' & rest' & [= <- <-] & H); contradiction);
          try (intros [_ H]; discriminate).
    + eexists. split.
      { unfold checkExistingCredential. rewrite Ho. unfold bind, gets. cbv beta iota.
        rewrite Hl. reflexivity. }
      simpl. repeat split; try discriminate; try tauto;
        try (intros (c & rest & H & _); discriminate).
  - eexists. split; [unfold checkExistingCredential; rewrite Ho; reflexivity|].
    simpl. repeat split; try discriminate; try tauto;
      try (intros (c & rest & H & _); discriminate).
Qed.

(** ** Save, delete and rename *)

(** X3. A save touches one user name at one origin: the other origins,
    the records of every other user name at that origin, and the
    never-save set are as before. *)
Theorem saveCredential_frame url user secret s origin :
  _getOrigin url = Some origin ->
  let s' := (saveCredential url user secret s).2 in
  (forall o, o <> origin -> credentialsCache s' !! o = credentialsCache s !! o) /\
  (forall other, other <> user ->
     records_for other (default [] (credentialsCache s' !! origin)) =
     records_for other (default [] (credentialsCache s !! origin))) /\
  neverSaveSites s' = neverSaveSites s.
Proof.
  intros Ho.
  destruct (saveCredential_step url user secret s origin Ho)
    as (s1 & l' & Hsave & Hcache & Hnever & _ & Hcase).
  rewrite Hsave. cbn [snd]. split; [|split; [|exact Hnever]].
  - intros o Hne. rewrite Hcache. apply lookup_insert_ne. congruence.
  - intros other Hne. rewrite Hcache, lookup_insert_eq.
    change (default [] (Some l')) with l'.
    destruct Hcase as [[[F ->] _] | [(n & c & Hl & Hc & _ & ->) _]].
    + rewrite records_for_app. simpl.
      destruct (String.eqb_spec user other); [congruence|]. apply app_nil_r.
    + apply (records_for_other_insert user other _ n c); try assumption. reflexivity.
Qed.

Lemma deleteCredential_step url user s origin l :
  _getOrigin url = Some origin ->
  credentialsCache s !! origin = Some l ->
  exists s',
    deleteCredential url user s = (Ok true, s') /\
    credentialsCache s' =
      (let kept := List.filter (fun c => negb (String.eqb (username c) user)) l in
       if (List.length kept =? 0)%nat then delete origin (credentialsCache s)
       else <[origin := kept]> (credentialsCache s)) /\
    neverSaveSites s' = neverSaveSites s.
Proof.
  intros Ho Hl. unfold deleteCredential. rewrite Ho.
  unfold bind at 1. unfold gets. cbv beta iota. rewrite Hl. cbv zeta.
  destruct (List.length _ =? 0)%nat; unfold bind, modify; cbv beta iota;
    match goal with |- context [_saveCredentials ?t] =>
      destruct (_saveCredentials_step t) as (s' & Es & Hc & Hn & _ & _); rewrite Es end;
    eexists; (split; [reflexivity|]); split; assumption.
Qed.

Lemma records_for_kept_same user l :
  records_for user (List.filter (fun c => negb (String.eqb (username c) user)) l) = [].
Proof.
  induction l as [|a l IH]; simpl; [reflexivity|].
  destruct (String.eqb (username a) user) eqn:E; simpl; [exact IH|]. rewrite E. exact IH.
Qed.

Lemma records_for_kept_other user other l :
  other <> user ->
  records_for other (List.filter (fun c => negb (String.eqb (username c) user)) l)
  = records_for other l.
Proof.
  intros Hne. induction l as [|a l IH]; simpl; [reflexivity|].
  destruct (String.eqb_spec (username a) user) as [E|E]; simpl.
  - destruct (String.eqb_spec (username a) other); [congruence | exact IH].
  - destruct (String.eqb (username a) other); [f_equal|]; exact IH.
Qed.

(** X4. [deleteCredential] for an origin that has a list returns [true]
    and removes every record of that user name, keeps the records of all
    other user names in their order, drops the origin's key when nothing is
    left, and leaves the other origins and the never-save set alone. *)
Theorem deleteCredential_removes url user s origin l :
  _getOrigin url = Some origin ->
  credentialsCache s !! origin = Some l ->
  exists s',
    deleteCredential url user s = (Ok true, s') /\
    records_for user (default [] (credentialsCache s' !! origin)) = [] /\
    (forall other, other <> user ->
       records_for other (default [] (credentialsCache s' !! origin)) = records_for other l) /\
    (credentialsCache s' !! origin = None <-> Forall (fun c => username c = user) l) /\
    (forall o, o <> origin -> credentialsCache s' !! o = credentialsCache s !! o) /\
    neverSaveSites s' = neverSaveSites s.
Proof.
  intros Ho Hl.
  destruct (deleteCredential_step url user s origin l Ho Hl) as (s' & Hdel & Hcache & Hnever).
  exists s'. split; [exact Hdel|]. cbv zeta in Hcache.
  set (kept := List.filter (fun c => negb (String.eqb (username c) user)) l) in *.
  assert (kept = [] <-> Forall (fun c => username c = user) l) as Hkept.
  { unfold kept. clear. induction l as [|a l IH]; simpl; [split; constructor|].
    destruct (String.eqb_spec (username a) user) as [E|E]; simpl.
    - rewrite IH. split; [constructor; assumption | intros H; inversion H; assumption].
    - split; [discriminate | intros H; inversion H; contradiction]. }
  destruct kept as [|k kept'] eqn:Ek; simpl in Hcache; rewrite Hcache.
  - rewrite lookup_delete_eq. change (default [] None) with (@nil Credential).
    split; [reflexivity|]. split.
    { intros other Hne. rewrite <- (records_for_kept_other user other l Hne).
      fold kept. rewrite Ek. reflexivity. }
    split; [split; [intros _; apply Hkept; reflexivity | reflexivity]|].
    split; [|exact Hnever]. intros o Hne. apply lookup_delete_ne. congruence.
  - rewrite lookup_insert_eq. change (default [] (Some (k :: kept'))) with (k :: kept').
    split; [rewrite <- Ek; apply records_for_kept_same|]. split.
    { intros other Hne. rewrite <- Ek. apply records_for_kept_other. exact Hne. }
    split; [split; [discriminate | intros H; apply Hkept in H; discriminate]|].
    split; [|exact Hnever]. intros o Hne. apply lookup_insert_ne. congruence.
Qed.

(** X5. Deleting a user name that was just saved for the first time
    brings the cache back: save then delete is the identity on a store that
    had no record of that name at the origin (and no empty list under its
    key). *)
Theorem delete_undoes_first_save url user secret s origin :
  _getOrigin url = Some origin ->
  records_for user (default [] (credentialsCache s !! origin)) = [] ->
  credentialsCache s !! origin <> Some [] ->
  credentialsCache (deleteCredential url user (saveCredential url user secret s).2).2
  = credentialsCache s.
Proof.
  intros Ho Hnone Hnonempty.
  destruct (saveCredential_step url user secret s origin Ho)
    as (s1 & l' & Hsave & Hcache & _ & _ & Hcase).
  rewrite Hsave. cbn [snd].
  assert (credentialsCache s1 !! origin = Some l') as Hl'
    by (rewrite Hcache; apply lookup_insert_eq).
  destruct (deleteCredential_step url user s1 origin l' Ho Hl') as (s2 & Hdel & Hcache2 & _).
  rewrite Hdel. cbn [snd]. rewrite Hcache2. cbv zeta.
  assert (Forall (fun c => username c <> user) (default [] (credentialsCache s !! origin))) as F.
  { apply Forall_forall. intros c Hc E.
    assert (c ∈ records_for user (default [] (credentialsCache s !! origin))) as H.
    { apply list_elem_of_In, List.filter_In. split; [apply list_elem_of_In; exact Hc|].
      apply String.eqb_eq. exact E. }
    rewrite Hnone in H. inversion H. }
  assert (l' = (default [] (credentialsCache s !! origin)
                ++ [mkCredential user secret (now s) (clock s (S (ticks s)))])%list) as ->.
  { destruct Hcase as [[[_ E] _] | [(n & c & Hl & Hc & _) _]]; [exact E|].
    exfalso. rewrite Forall_forall in F. apply (F c); [|exact Hc].
    apply list_elem_of_lookup. exists n. exact Hl. }
  rewrite List.filter_app. simpl. rewrite String.eqb_refl. simpl. rewrite app_nil_r.
  assert (List.filter (fun c => negb (String.eqb (username c) user))
            (default [] (credentialsCache s !! origin))
          = default [] (credentialsCache s !! origin)) as ->.
  { clear - F. induction F as [|a l Ha _ IH]; simpl; [reflexivity|].
    destruct (String.eqb_spec (username a) user); [contradiction|]. simpl. f_equal. exact IH. }
  rewrite Hcache.
  destruct (credentialsCache s !! origin) as [[|c l]|] eqn:El;
    unfold default; cbn [from_option id].
  - contradiction.
  - simpl. rewrite insert_insert_eq. apply insert_id. exact El.
  - simpl. rewrite delete_insert_eq. apply delete_id. exact El.
Qed.

(** X6. [deleteAllForOrigin] for a URL whose origin parses returns
    [true] whether or not anything was stored; afterwards
    [getCredentials] for the URL is empty, and the other origins and the
    never-save set are as before. *)
Theorem deleteAllForOrigin_clears url s origin :
  _getOrigin url = Some origin ->
  exists s',
    deleteAllForOrigin url s = (Ok true, s') /\
    getCredentials url s' = (Ok [], s') /\
    (forall o, o <> origin -> credentialsCache s' !! o = credentialsCache s !! o) /\
    neverSaveSites s' = neverSaveSites s.
Proof.
  intros Ho. unfold deleteAllForOrigin. rewrite Ho.
  unfold bind, modify. cbv beta iota.
  match goal with |- context [_saveCredentials ?t] =>
    destruct (_saveCredentials_step t) as (s' & Es & Hc & Hn & _ & _); rewrite Es end.
  eexists. split; [reflexivity|]. cbn in Hc, Hn. split; [|split].
  - unfold getCredentials. rewrite Ho. unfold bind, gets. cbn [credentialsCache set_console].
    rewrite Hc, lookup_delete_eq. reflexivity.
  - intros o Hne. cbn [credentialsCache set_console]. rewrite Hc.
    apply lookup_delete_ne. congruence.
  - exact Hn.
Qed.

Lemma records_for_split user l n c :
  l !! n = Some c ->
  records_for user l =
    (records_for user (take n l) ++ records_for user [c] ++ records_for user (drop (S n) l))%list.
Proof.
  intros Hl. rewrite <- (take_drop_middle l n c Hl) at 1.
  rewrite records_for_app. f_equal. apply (records_for_app user [c]).
Qed.

Lemma records_for_insert_split user l n c r :
  l !! n = Some c ->
  records_for user (<[n := r]> l) =
    (records_for user (take n l) ++ records_for user [r] ++ records_for user (drop (S n) l))%list.
Proof.
  intros Hl. rewrite insert_take_drop by (apply lookup_lt_Some in Hl; exact Hl).
  rewrite records_for_app. f_equal. apply (records_for_app user [r]).
Qed.

Lemma records_for_before_first user l n :
  (forall j y, (j < n)%nat -> l !! j = Some y -> String.eqb (username y) user = false) ->
  records_for user (take n l) = [].
Proof.
  intros Hfirst. apply records_for_none. intros Hin.
  apply list_elem_of_fmap in Hin as (c & E & Hc).
  apply list_elem_of_lookup in Hc as (j & Hj).
  apply lookup_take_Some in Hj as [Hj Hlt].
  specialize (Hfirst j c Hlt Hj). apply String.eqb_neq in Hfirst. congruence.
Qed.

Lemma records_for_nil_not_named user l c :
  records_for user l = [] -> c ∈ l -> String.eqb (username c) user = false.
Proof.
  intros Hnone Hc. apply String.eqb_neq. intros E.
  assert (c ∈ records_for user l) as H.
  { apply list_elem_of_In, List.filter_In. split; [apply list_elem_of_In; exact Hc|].
    apply String.eqb_eq. exact E. }
  rewrite Hnone in H. inversion H.
Qed.

Lemma existsb_records_for user l :
  existsb (fun c => String.eqb (username c) user) l = negb (bool_decide (records_for user l = [])).
Proof.
  induction l as [|a l IH]; simpl; [reflexivity|].
  destruct (String.eqb (username a) user); simpl; [reflexivity | exact IH].
Qed.



(** X7. [updateUsername] succeeds exactly when the origin parses, has a
    list, holds a record named [oldUsername] and none named [newUsername]
    (so renaming a user to its own name is refused). On refusal nothing
    changes. On success the first record of the old name is the one
    renamed: it keeps its password and [createdAt], gets the current time
    as [updatedAt], and every other record stays. *)
Theorem updateUsername_renames url oldUsername newUsername s :
  exists b s',
    updateUsername url oldUsername newUsername s = (Ok b, s') /\
    let l := match _getOrigin url with
             | Some origin => credentialsCache s !! origin
             | None => None
             end in
    (b = true <->
       exists l0, l = Some l0 /\ records_for oldUsername l0 <> [] /\
                  records_for newUsername l0 = []) /\
    (b = false -> s' = s) /\
    (b = true ->
       exists origin l0 c rest,
         _getOrigin url = Some origin /\ credentialsCache s !! origin = Some l0 /\
         records_for oldUsername l0 = c :: rest /\
         records_for oldUsername (default [] (credentialsCache s' !! origin)) = rest /\
         records_for newUsername (default [] (credentialsCache s' !! origin)) =
           [mkCredential newUsername (password c) (createdAt c) (now s)] /\
         (forall other, other <> oldUsername -> other <> newUsername ->
            records_for other (default [] (credentialsCache s' !! origin)) =
            records_for other l0) /\
         (forall o, o <> origin -> credentialsCache s' !! o = credentialsCache s !! o)).
Proof.
  forget_runtime. unfold updateUsername.
  destruct (_getOrigin url) as [origin|] eqn:Ho.
  2:{ exists false, s. split; [reflexivity|]. cbv zeta.
      split; [split; [discriminate | intros (l0 & H & _); discriminate]|].
      split; [reflexivity | discriminate]. }
  unfold bind at 1. unfold gets. cbv beta iota.
  destruct (credentialsCache s !! origin) as [l|] eqn:El.
  2:{ exists false, s. split; [reflexivity|]. cbv zeta.
      split; [split; [discriminate | intros (l0 & H & _); discriminate]|].
      split; [reflexivity | discriminate]. }
  cbv zeta.
  destruct (findIndex_cases (fun c => String.eqb (username c) oldUsername) l)
    as [[E F] | (n & c & E & Hl & Hp & Hfirst)]; rewrite E.
  { (* no record of the old name *)
    change (-1 <? 0) with true. cbv iota.
    exists false, s. split; [reflexivity|].
    split; [split; [discriminate|]|split; [reflexivity | discriminate]].
    intros (l0 & [= <-] & Hold & _). exfalso. apply Hold.
    apply records_for_none. intros Hin. apply list_elem_of_fmap in Hin as (y & Ey & Hy).
    rewrite Forall_forall in F. specialize (F y Hy). simpl in F.
    apply String.eqb_neq in F. congruence. }
  assert ((Z.of_nat n <? 0) = false) as -> by (apply Z.ltb_ge; lia).
  rewrite Nat2Z.id, Hl. cbv iota.
  pose proof (records_for_split oldUsername l n c Hl) as Hsplit.
  rewrite (records_for_before_first oldUsername l n Hfirst) in Hsplit.
  simpl in Hsplit. rewrite Hp in Hsplit. simpl in Hsplit.
  rewrite existsb_records_for.
  destruct (decide (records_for newUsername l = [])) as [Hnew|Hnew].
  2:{ rewrite bool_decide_false by exact Hnew. simpl.
      exists false, s. split; [reflexivity|].
      split; [split; [discriminate|]|split; [reflexivity | discriminate]].
      intros (l0 & [= <-] & _ & H). contradiction. }
  rewrite bool_decide_true by exact Hnew. simpl.
  unfold bind, Date_now, modify, ret. cbv beta iota.
  match goal with |- context [_saveCredentials ?t] =>
    destruct (_saveCredentials_step t) as (s' & Es & Hc & _ & _ & _); rewrite Es end.
  cbn [credentialsCache set_credentialsCache set_ticks] in Hc.
  exists true, s'. split; [reflexivity|].
  split; [split; [intros _ | reflexivity]|split; [discriminate|intros _]].
  { exists l. split; [reflexivity|]. split; [rewrite Hsplit; discriminate | exact Hnew]. }
  exists origin, l, c, (records_for oldUsername (drop (S n) l)).
  split; [reflexivity|]. split; [exact El|]. split; [exact Hsplit|].
  rewrite Hc, lookup_insert_eq.
  match goal with |- context [default [] (Some ?x)] =>
    change (default [] (Some x)) with x end.
  assert (oldUsername <> newUsername) as Hdiff.
  { intros <-. rewrite Hsplit in Hnew. discriminate. }
  assert (String.eqb (username c) newUsername = false) as Hcn.
  { apply (records_for_nil_not_named newUsername l c Hnew).
    apply list_elem_of_lookup. exists n. exact Hl. }
  split; [|split; [|split]].
  - rewrite (records_for_insert_split oldUsername l n c _ Hl).
    rewrite (records_for_before_first oldUsername l n Hfirst). simpl.
    destruct (String.eqb_spec newUsername oldUsername); [congruence | reflexivity].
  - rewrite (records_for_insert_split newUsername l n c _ Hl).
    pose proof (records_for_split newUsername l n c Hl) as Hs. rewrite Hnew in Hs.
    simpl in Hs. rewrite Hcn in Hs. simpl in Hs. symmetry in Hs.
    apply app_eq_nil in Hs as [-> ->]. simpl. rewrite String.eqb_refl. reflexivity.
  - intros other Ho1 Ho2.
    rewrite (records_for_insert_split other l n c _ Hl), (records_for_split other l n c Hl).
    simpl. apply String.eqb_eq in Hp. rewrite Hp.
    destruct (String.eqb_spec newUsername other); [congruence|].
    destruct (String.eqb_spec oldUsername other); [congruence | reflexivity].
  - intros o Hne. apply lookup_insert_ne. congruence.
Qed.

(** ** Listing and counting *)

Lemma sort_insert_Permutation {A} (compare : A -> A -> Z) x l :
  sort_insert compare x l ≡ₚ x :: l.
Proof.
  induction l as [|y l IH]; simpl; [reflexivity|].
  destruct (compare x y <=? 0); [reflexivity|].
  rewrite IH. apply Permutation_swap.
Qed.

Lemma Array_sort_Permutation {A} (compare : A -> A -> Z) l : Array_sort compare l ≡ₚ l.
Proof.
  induction l as [|x l IH]; simpl; [reflexivity|].
  rewrite sort_insert_Permutation. unfold Array_sort in IH. rewrite IH. reflexivity.
Qed.

Lemma sort_insert_sorted (key : ListedCredential -> Z) x l :
  StronglySorted (fun a b => key b <= key a) l ->
  StronglySorted (fun a b => key b <= key a) (sort_insert (fun a b => key b - key a) x l).
Proof.
  induction 1 as [|y l Hs IH Hy]; simpl; [repeat constructor|].
  destruct (Z.leb_spec (key y - key x) 0) as [Hle|Hgt].
  - constructor; [constructor; assumption|].
    constructor; [lia|]. eapply Forall_impl; [exact Hy|]. simpl. intros z Hz. lia.
  - constructor; [exact IH|].
    rewrite (sort_insert_Permutation (fun a b => key b - key a) x l).
    constructor; [lia | exact Hy].
Qed.

Lemma Array_sort_sorted (key : ListedCredential -> Z) l :
  StronglySorted (fun a b => key b <= key a) (Array_sort (fun a b => key b - key a) l).
Proof.
  induction l as [|x l IH]; simpl; [constructor|]. apply sort_insert_sorted. exact IH.
Qed.

Lemma getCredentialCount_over_sum entries :
  getCredentialCount_over entries =
  Z.of_nat (sum_list_with (fun oc : string * list Credential => List.length oc.2) entries).
Proof.
  unfold getCredentialCount_over.
  assert (forall a, foldl (fun count (oc : string * list Credential) =>
                             count + Z.of_nat (List.length oc.2)) a entries
                    = a + Z.of_nat (sum_list_with (fun oc => List.length oc.2) entries)) as H.
  { induction entries as [|e entries IH]; intros a; simpl; [lia|]. rewrite IH. lia. }
  rewrite H. lia.
Qed.

(** The count does not depend on the order of enumeration. *)
Lemma getCredentialCount_over_Permutation entries entries' :
  entries ≡ₚ entries' -> getCredentialCount_over entries = getCredentialCount_over entries'.
Proof. intros H. rewrite !getCredentialCount_over_sum, H. reflexivity. Qed.

(** X8. [getAllCredentials], for every order in which the cache is
    enumerated: the list is ordered by [updatedAt], latest first; its
    entries are exactly the stored records, each with its origin and its
    masked name; and it is as long as [getCredentialCount] says. *)
Theorem getAllCredentials_lists entries s :
  entries ≡ₚ map_to_list (credentialsCache s) ->
  let listed := getAllCredentials_over entries in
  StronglySorted (fun a b => lc_updatedAt b <= lc_updatedAt a) listed /\
  (forall e, e ∈ listed <->
     exists origin l c,
       credentialsCache s !! origin = Some l /\ c ∈ l /\
       e = mkListed origin (username c) (_maskUsername (username c))
             (createdAt c) (updatedAt c)) /\
  Z.of_nat (List.length listed) = getCredentialCount_over entries.
Proof.
  intros Hperm. cbv zeta. unfold getAllCredentials_over. split; [|split].
  - apply (Array_sort_sorted lc_updatedAt).
  - intros e. rewrite Array_sort_Permutation. rewrite list_elem_of_In, List.in_flat_map. split.
    + intros ([origin l] & Hin & He). simpl in He.
      apply list_elem_of_In, list_elem_of_fmap in He as (c & -> & Hc).
      exists origin, l, c. split; [|split; [exact Hc | reflexivity]].
      apply elem_of_map_to_list. rewrite <- Hperm. apply list_elem_of_In. exact Hin.
    + intros (origin & l & c & Hl & Hc & ->). exists (origin, l). split.
      * apply list_elem_of_In. rewrite Hperm. apply elem_of_map_to_list. exact Hl.
      * simpl. apply list_elem_of_In, list_elem_of_fmap. exists c. split; [reflexivity | exact Hc].
  - rewrite Array_sort_Permutation, getCredentialCount_over_sum. f_equal.
    clear. induction entries as [|[o l] entries IH]; simpl; [reflexivity|].
    rewrite length_app, length_map, IH. reflexivity.
Qed.

Lemma getCredentialCount_over_insert (m : gmap string (list Credential)) origin l :
  getCredentialCount_over (map_to_list (<[origin := l]> m)) =
  getCredentialCount_over (map_to_list m)
  - Z.of_nat (List.length (default [] (m !! origin))) + Z.of_nat (List.length l).
Proof.
  destruct (m !! origin) as [l0|] eqn:E; unfold default; cbn [from_option id].
  - rewrite <- (insert_delete_eq m origin l).
    rewrite (getCredentialCount_over_Permutation _ _
               (map_to_list_insert (delete origin m) origin l (lookup_delete_eq m origin))).
    rewrite <- (getCredentialCount_over_Permutation _ _ (map_to_list_delete m origin l0 E)).
    rewrite !getCredentialCount_over_sum. simpl. lia.
  - rewrite (getCredentialCount_over_Permutation _ _ (map_to_list_insert m origin l E)).
    rewrite !getCredentialCount_over_sum. simpl. lia.
Qed.

(** X9. [getCredentialCount] goes up by one with a save for a user name
    that has no record at the origin, and stays the same when the save
    overwrites. *)
Theorem count_after_save url user secret s origin :
  _getOrigin url = Some origin ->
  (getCredentialCount (saveCredential url user secret s).2).1 =
  Ok ((getCredentialCount_over (map_to_list (credentialsCache s)))
      + (if decide (records_for user (default [] (credentialsCache s !! origin)) = [])
         then 1 else 0)).
Proof.
  intros Ho.
  destruct (saveCredential_step url user secret s origin Ho)
    as (s1 & l' & Hsave & Hcache & _ & _ & Hcase).
  rewrite Hsave. cbn [snd]. unfold getCredentialCount, bind, gets, ret. cbn [fst].
  rewrite Hcache, getCredentialCount_over_insert. f_equal.
  destruct Hcase as [[[F ->] _] | [(n & c & Hl & Hc & _ & ->) _]].
  - rewrite decide_True by (apply records_for_none, Forall_not_named; exact F).
    rewrite length_app. simpl. lia.
  - rewrite decide_False.
    + rewrite length_insert. lia.
    + intros Hnone.
      pose proof (records_for_nil_not_named user _ c Hnone) as H.
      rewrite (proj2 (String.eqb_eq _ _) Hc) in H.
      discriminate H. apply list_elem_of_lookup. exists n. exact Hl.
Qed.

(** * Persistence *)

(** ** Invariants through the monad *)

Lemma stable_ret {A} P (a : A) : stable P (ret a).
Proof. intros s H. exact H. Qed.

Lemma stable_throw {A} P e : stable P (@throw A e).
Proof. intros s H. exact H. Qed.

Lemma stable_gets {A} P (g : Sys -> A) : stable P (gets g).
Proof. intros s H. exact H. Qed.

Lemma stable_bind {A B} P (c : M A) (k : A -> M B) :
  stable P c -> (forall a, stable P (k a)) -> stable P (bind c k).
Proof.
  intros Hc Hk s H. unfold bind. specialize (Hc s H).
  destruct (c s) as [[a|e] s1]; simpl in *; [apply Hk|]; exact Hc.
Qed.

Lemma stable_try_catch {A} P (body : M A) handler :
  stable P body -> (forall e, stable P (handler e)) -> stable P (try_catch body handler).
Proof.
  intros Hc Hk s H. unfold try_catch. specialize (Hc s H).
  destruct (body s) as [[a|e] s1]; simpl in *; [|apply Hk]; exact Hc.
Qed.

Lemma stable_modify P g : (forall s, P s -> P (g s)) -> stable P (modify g).
Proof. intros H s Hs. apply H. exact Hs. Qed.

Lemma stable_existsSync P p : stable P (existsSync p).
Proof. intros s H. exact H. Qed.

Lemma stable_readFileSync P p : stable P (readFileSync p).
Proof. intros s H. unfold readFileSync. destruct (disk s p); exact H. Qed.

Lemma stable_randomBytes P n : (forall k s, P s -> P (set_drawn k s)) -> stable P (randomBytes n).
Proof. intros H s Hs. apply H. exact Hs. Qed.

Lemma stable_Date_now P : (forall k s, P s -> P (set_ticks k s)) -> stable P Date_now.
Proof. intros H s Hs. apply H. exact Hs. Qed.

Lemma stable_writeFileSync P p c :
  (forall s, P s -> readOnly s = false -> P (set_disk (write_file p c) s)) ->
  stable P (writeFileSync p c).
Proof.
  intros H s Hs. unfold writeFileSync. destruct (readOnly s) eqn:E; [exact Hs|].
  apply H; assumption.
Qed.

Ltac stable_step :=
  first
    [ apply stable_ret | apply stable_throw | apply stable_gets
    | apply stable_existsSync | apply stable_readFileSync
    | apply stable_randomBytes;
        match goal with D : disk_invariant _ |- _ => intros ? ?; apply D; reflexivity end
    | apply stable_Date_now;
        match goal with D : disk_invariant _ |- _ => intros ? ?; apply D; reflexivity end
    | apply stable_modify;
        match goal with D : disk_invariant _ |- _ => intros ?; apply D; reflexivity end
    | apply stable_writeFileSync; assumption
    | apply stable_bind; [| intros ?]
    | apply stable_try_catch; [| intros ?]
    | match goal with
      | |- stable _ (match ?x with _ => _ end) => destruct x
      end ].

Section Invariant.

Variable P : Sys -> Prop.
Hypothesis P_disk : disk_invariant P.
(** Writing the key file, and writing the two data files, keep [P]. *)
Hypothesis P_key : forall c s, P s -> readOnly s = false ->
  disk s encryptionKeyFile = Missing -> P (set_disk (write_file encryptionKeyFile c) s).
Hypothesis P_data : forall p c s, P s -> readOnly s = false ->
  p <> encryptionKeyFile -> P (set_disk (write_file p c) s).

Lemma stable_console l msg : stable P (console_out l msg).
Proof using P_disk. apply stable_modify. intros s. apply P_disk; reflexivity. Qed.

Lemma stable__getEncryptionKey : stable P _getEncryptionKey.
Proof using P_disk P_key.
  unfold _getEncryptionKey. apply stable_try_catch.
  - intros s Hs. unfold bind, existsSync, gets. cbv beta iota.
    destruct (disk s encryptionKeyFile) eqn:Hd; cbv beta iota.
    + unfold randomBytes, writeFileSync. cbv beta iota. cbn [readOnly set_drawn].
      destruct (readOnly s) eqn:Hr; cbn [snd].
      * apply (P_disk s); [reflexivity | reflexivity | exact Hs].
      * apply P_key; [|exact Hr | exact Hd].
        apply (P_disk s); [reflexivity | reflexivity | exact Hs].
    + apply stable_readFileSync. exact Hs.
    + apply stable_readFileSync. exact Hs.
  - intros e. apply stable_bind; [apply stable_console | intros _; apply stable_throw].
Qed.

Lemma stable__saveCredentials : stable P _saveCredentials.
Proof using P_disk P_key P_data.
  pose proof stable__getEncryptionKey as Hk. pose proof stable_console as Hc.
  unfold _saveCredentials, _encrypt.
  apply stable_try_catch; [|intros e; apply Hc].
  apply stable_bind; [apply stable_gets | intros cache].
  apply stable_bind.
  - apply stable_bind; [apply stable_gets | intros os].
    apply stable_bind.
    + destruct os; [destruct (safeStorage_encryptString _)|];
        [apply stable_ret | apply stable_bind; [apply Hc | intros _; apply stable_ret]
        | apply stable_ret].
    + intros [b|]; [apply stable_ret|].
      apply stable_bind; [exact Hk | intros key].
      apply stable_bind.
      * apply stable_randomBytes. intros k s. apply P_disk; reflexivity.
      * intros iv. destruct (gcm_seal _ _ _) as [[ct tag]|]; [apply stable_ret | apply stable_throw].
  - intros blob. apply stable_writeFileSync. intros s Hs Hr. apply P_data; [exact Hs | exact Hr |].
    discriminate.
Qed.

Lemma stable__saveNeverSaveSites : stable P _saveNeverSaveSites.
Proof using P_disk P_data.
  pose proof stable_console as Hc. unfold _saveNeverSaveSites.
  apply stable_try_catch; [|intros e; apply Hc].
  apply stable_bind; [apply stable_gets | intros sites].
  apply stable_writeFileSync. intros s Hs Hr. apply P_data; [exact Hs | exact Hr |]. discriminate.
Qed.

Lemma stable_exec op s : P s -> P (exec op s).
Proof using P_disk P_key P_data.
  pose proof stable__saveCredentials as Hsave.
  pose proof stable__saveNeverSaveSites as Hnever.
  pose proof stable_console as Hc.
  intros Hs. destruct op; simpl.
  - rewrite shouldPromptSave_state. exact Hs.
  - revert s Hs. change (stable P (neverSaveForSite url)). unfold neverSaveForSite.
    repeat first [apply Hnever | apply Hc | stable_step].
  - revert s Hs. change (stable P (enableSaveForSite url)). unfold enableSaveForSite.
    repeat first [apply Hnever | apply Hc | stable_step].
  - rewrite checkExistingCredential_state. exact Hs.
  - revert s Hs. change (stable P (saveCredential url user secret)). unfold saveCredential.
    repeat first [apply Hsave | apply Hc | stable_step].
  - rewrite getCredentials_state. exact Hs.
  - revert s Hs. change (stable P (deleteCredential url user)). unfold deleteCredential.
    repeat first [apply Hsave | apply Hc | stable_step].
  - revert s Hs. change (stable P (deleteAllForOrigin url)). unfold deleteAllForOrigin.
    repeat first [apply Hsave | apply Hc | stable_step].
  - revert s Hs. change (stable P (updateUsername url oldUsername newUsername)).
    unfold updateUsername.
    repeat first [apply Hsave | apply Hc | stable_step].
  - revert s Hs. change (stable P clearAllCredentials). unfold clearAllCredentials.
    repeat first [apply Hsave | apply Hc | stable_step].
Qed.

Lemma stable_exec_all ops s : P s -> P (exec_all ops s).
Proof using P_disk P_key P_data.
  revert s. induction ops as [|op ops IH]; intros s Hs; simpl; [exact Hs|].
  apply IH. apply stable_exec. exact Hs.
Qed.

End Invariant.

Lemma object_field_readOnly : object_field readOnly.
Proof. repeat split. Qed.

(** On a read-only disk the body of [_saveCredentials] throws, whichever
    cipher is in use, and the handler logs the error. *)
Lemma _saveCredentials_read_only s :
  readOnly s = true ->
  exists s1,
    _saveCredentials s =
      (Ok tt,
       set_console
         (fun c => (c ++ [(ERROR, "[CredentialManager] Failed to save credentials:")])%list)
         s1) /\
    readOnly s1 = true.
Proof.
  intros Hr. unfold _saveCredentials, try_catch, bind at 1. unfold gets. cbv beta iota.
  unfold bind.
  pose proof (keeps__encrypt readOnly (JSON_stringify_cache (credentialsCache s))
                object_field_readOnly s) as Hk.
  destruct (_encrypt (JSON_stringify_cache (credentialsCache s)) s) as [[blob|e] s1];
    simpl in Hk; rewrite Hr in Hk.
  - unfold writeFileSync. rewrite Hk. exists s1. split; [reflexivity | exact Hk].
  - exists s1. split; [reflexivity | exact Hk].
Qed.

(** [saveCredential] ends in [_saveCredentials], run on a state with the
    disk and the read-only flag of the start. *)
Lemma saveCredential_ends_in_save url user secret s origin :
  _getOrigin url = Some origin ->
  exists t,
    saveCredential url user secret s = (Ok true, (_saveCredentials t).2) /\
    readOnly t = readOnly s /\ disk t = disk s.
Proof.
  intros Ho. unfold saveCredential. rewrite Ho.
  set (l := default [] (credentialsCache s !! origin)).
  unfold bind at 1. simpl. fold l.
  destruct (findIndex_cases (fun c => String.eqb (username c) user) l)
    as [[E F] | (n & c & E & Hl & Hp & Hfirst)]; rewrite E.
  - change (0 <=? -1) with false. cbv iota.
    unfold bind, Date_now, console_out, modify. simpl.
    match goal with |- context [_saveCredentials ?t] =>
      exists t; destruct (returns__saveCredentials t) as [[] Hret];
      destruct (_saveCredentials t) as [r s']; simpl in Hret; subst r end.
    repeat split.
  - assert ((0 <=? Z.of_nat n) = true) as -> by (apply Z.leb_le; lia).
    rewrite Nat2Z.id, Hl.
    unfold bind, ret, Date_now, console_out, modify. simpl.
    match goal with |- context [_saveCredentials ?t] =>
      exists t; destruct (returns__saveCredentials t) as [[] Hret];
      destruct (_saveCredentials t) as [r s']; simpl in Hret; subst r end.
    repeat split.
Qed.

(** X10. A save on a read-only disk is not reported: for a URL whose
    origin parses [saveCredential] still answers [true]. The write fails,
    [_saveCredentials] catches the error and logs it as the last line of
    the console, no file changes, and the record is in the cache in memory
    only. *)
Theorem save_on_read_only_disk url user secret s origin :
  readOnly s = true ->
  _getOrigin url = Some origin ->
  exists s',
    saveCredential url user secret s = (Ok true, s') /\
    disk s' = disk s /\
    last (console s') = Some (ERROR, "[CredentialManager] Failed to save credentials:") /\
    records_for user (default [] (credentialsCache s' !! origin)) <> [].
Proof.
  intros Hr Ho.
  destruct (saveCredential_ends_in_save url user secret s origin Ho) as (t & Hsave & Hrt & Hdt).
  rewrite Hr in Hrt.
  destruct (_saveCredentials_read_only t Hrt) as (s1 & Hs1 & _).
  assert (frozen (disk t) (_saveCredentials t).2) as [_ Hdisk].
  { apply stable__saveCredentials.
    - intros s2 s3 Hd Hro [H1 H2]. split; congruence.
    - intros c s2 [H1 _] H2. congruence.
    - intros p c s2 [H1 _] H2. congruence.
    - split; [exact Hrt | reflexivity]. }
  destruct (saveCredential_step url user secret s origin Ho)
    as (s' & l' & Hstep & Hcache & _ & _ & Hcase).
  assert (s' = (_saveCredentials t).2) as Hs' by congruence.
  exists s'. split; [exact Hstep|]. split; [rewrite Hs', Hdisk; exact Hdt|]. split.
  - rewrite Hs', Hs1. cbn [snd console set_console]. apply last_snoc.
  - rewrite Hcache, lookup_insert_eq. change (default [] (Some l')) with l'.
    destruct Hcase as [[[_ ->] _] | [(n & c & Hl & _ & _ & ->) _]].
    + rewrite records_for_app. simpl. rewrite String.eqb_refl.
      intros H. apply app_eq_nil in H as [_ H]. discriminate.
    + intros H.
      pose proof (records_for_nil_not_named user _
                    (mkCredential user secret (createdAt c) (now s)) H) as Hn.
      simpl in Hn. rewrite String.eqb_refl in Hn. discriminate Hn.
      apply list_elem_of_lookup. exists n.
      apply list_lookup_insert_eq. apply lookup_lt_Some in Hl. exact Hl.
Qed.

(** X11. The key is generated once: when the key file holds a key, every
    sequence of calls on the manager leaves that file as it is, and
    [_getEncryptionKey] keeps returning that key. *)
Theorem key_file_written_once ops s key :
  disk s encryptionKeyFile = Stored key ->
  disk (exec_all ops s) encryptionKeyFile = Stored key /\
  (_getEncryptionKey (exec_all ops s)).1 = Ok key.
Proof.
  intros Hk.
  assert (has_key key (exec_all ops s)) as H.
  { apply stable_exec_all.
    - intros s1 s2 Hd _ H. unfold has_key in *. rewrite Hd. exact H.
    - intros c s1 H _ Hm. unfold has_key in H. congruence.
    - intros p c s1 H _ Hp. unfold has_key in *. cbn [disk set_disk]. unfold write_file.
      destruct p; try contradiction; exact H.
    - exact Hk. }
  split; [exact H|]. rewrite (_getEncryptionKey_stored _ key H). reflexivity.
Qed.

(** ** Save, restart, load *)

Lemma _getEncryptionKey_frame s :
  key_ready s ->
  readOnly (_getEncryptionKey s).2 = readOnly s /\
  (forall p, p <> encryptionKeyFile -> disk (_getEncryptionKey s).2 p = disk s p).
Proof.
  unfold _getEncryptionKey, try_catch, bind, existsSync, gets.
  intros [[Hd Hw] | (key & Hd & _)]; cbv beta iota; rewrite Hd; cbv beta iota.
  - unfold randomBytes, writeFileSync. cbv beta iota. cbn [readOnly set_drawn].
    rewrite Hw. cbn. split; [exact Hw|]. intros p Hp. unfold write_file.
    destruct p; try contradiction; reflexivity.
  - unfold readFileSync. rewrite Hd. split; reflexivity.
Qed.

Lemma _encrypt_fallback_run s x :
  useOSStorage s = false -> key_ready s -> well_formed x = true ->
  exists ct tag s1,
    _encrypt x s = (Ok (nonce_of s ++ tag ++ ct)%list, s1) /\
    gcm_open (key_of s) (nonce_of s) tag ct = Some (utf8_encode x) /\
    List.length tag = 16%nat /\
    disk s1 encryptionKeyFile = Stored (key_of s) /\
    readOnly s1 = readOnly s /\
    (forall p, p <> encryptionKeyFile -> disk s1 p = disk s p).
Proof using gcm_sound.
  intros Hos Hk Hwf.
  destruct (gcm_sound (key_of s) (nonce_of s) (utf8_encode x)
              (key_of_length s Hk) (nonce_of_length s) (is_byte_utf8_encode x Hwf))
    as (ct & tag & Hseal & Htag & Hbytes & Hopen).
  destruct (_getEncryptionKey_ready s Hk) as (s0 & Hkey & Hdisk & Hos0 & Hnonce).
  destruct (_getEncryptionKey_frame s Hk) as [Hro Hfiles]. rewrite Hkey in Hro, Hfiles.
  cbn [snd] in Hro, Hfiles.
  exists ct, tag. eexists. split; [|split; [exact Hopen|split; [exact Htag|]]].
  - unfold _encrypt, bind, gets. cbv beta iota. rewrite Hos. unfold ret at 1.
    cbv beta iota. rewrite Hkey. unfold randomBytes. cbv beta iota.
    rewrite Hnonce, Hseal. rewrite (Buffer_from_hex_to_hex ct Hbytes). reflexivity.
  - cbn [disk readOnly set_drawn]. split; [exact Hdisk|]. split; [exact Hro | exact Hfiles].
Qed.

Lemma _decrypt_fallback_run s key iv tag ct x :
  useOSStorage s = false ->
  disk s encryptionKeyFile = Stored key ->
  List.length iv = 16%nat -> List.length tag = 16%nat ->
  gcm_open key iv tag ct = Some (utf8_encode x) ->
  well_formed x = true ->
  _decrypt (iv ++ tag ++ ct)%list s = (Ok (Some x), s).
Proof using utf8_decode_encode.
  intros Hos Hd Hiv Htag Hopen Hwf.
  destruct (slices_of_blob iv tag ct Hiv Htag) as (Hs1 & Hs2 & Hs3).
  unfold _decrypt, bind, gets, try_catch. cbv beta iota. rewrite Hos.
  unfold ret at 1. cbv beta iota.
  rewrite (_getEncryptionKey_stored s key Hd). cbv beta iota.
  rewrite Hs1, Hs2, Hs3, Hopen. unfold ret. rewrite (utf8_decode_encode x Hwf). reflexivity.
Qed.

Lemma before_load_fallback s :
  safeStorage_isEncryptionAvailable <> Some true ->
  useOSStorage (before_load s).2 = false /\ readOnly (before_load s).2 = readOnly s.
Proof.
  intros Hav.
  assert (keeps useOSStorage _loadNeverSaveSites) as K1
    by (unfold _loadNeverSaveSites; keeps_auto).
  assert (keeps readOnly _loadNeverSaveSites) as K2
    by (unfold _loadNeverSaveSites; keeps_auto).
  unfold before_load, bind, modify, console_out, modify. simpl.
  destruct safeStorage_isEncryptionAvailable as [[|]|]; [contradiction| |]; simpl;
    match goal with |- context [_loadNeverSaveSites ?t] =>
      pose proof (K1 t) as H1; pose proof (K2 t) as H2;
      destruct (_loadNeverSaveSites t) as [[[]|e] s1] end; split; assumption.
Qed.

Lemma _loadCredentials_success s blob text v entries :
  disk s credentialsFile = Stored blob ->
  _decrypt blob s = (Ok (Some text), s) ->
  text <> [] ->
  JSON_parse text = Some v ->
  Object_entries v = Some entries ->
  exists s',
    _loadCredentials s = (Ok tt, s') /\
    credentialsCache s' = foldl (fun c oe => <[oe.1 := oe.2]> c) (credentialsCache s) entries.
Proof.
  intros Hd Hdec Hne Hparse Hentries.
  unfold _loadCredentials, try_catch, bind, existsSync, readFileSync, gets.
  cbv beta iota. rewrite Hd. cbn [negb]. cbv beta iota. rewrite Hd. cbv beta iota.
  rewrite Hdec. cbv beta iota.
  destruct text as [|c text]; [contradiction|]. rewrite Hparse, Hentries.
  unfold modify, console_out, modify. cbv beta iota.
  eexists. split; reflexivity.
Qed.

(** X12. What [_saveCredentials] writes is what a restart reads: under
    the fallback cipher, with a usable key file and a writable disk, and
    when the JSON text of the cache is well-formed, is not empty and parses
    back to the entries of the cache, saving and then constructing a new
    manager on the same disk gives a cache equal to the one saved. *)
Theorem saved_store_survives_restart s v entries :
  useOSStorage s = false ->
  safeStorage_isEncryptionAvailable <> Some true ->
  key_ready s ->
  readOnly s = false ->
  well_formed (JSON_stringify_cache (credentialsCache s)) = true ->
  JSON_stringify_cache (credentialsCache s) <> [] ->
  JSON_parse (JSON_stringify_cache (credentialsCache s)) = Some v ->
  Object_entries v = Some entries ->
  foldl (fun c oe => <[oe.1 := oe.2]> c) ∅ entries = credentialsCache s ->
  exists s1 s2,
    _saveCredentials s = (Ok tt, s1) /\
    constructor s1 = (Ok tt, s2) /\
    credentialsCache s2 = credentialsCache s.
Proof using gcm_sound utf8_decode_encode.
  intros Hos Hav Hk Hw Hwf Hne Hparse Hentries Hfold.
  set (text := JSON_stringify_cache (credentialsCache s)) in *.
  destruct (_encrypt_fallback_run s text Hos Hk Hwf)
    as (ct & tag & s0 & Henc & Hopen & Htag & Hkey & Hro & Hfiles).
  assert (exists s1, _saveCredentials s = (Ok tt, s1) /\
                     disk s1 credentialsFile = Stored (nonce_of s ++ tag ++ ct)%list /\
                     disk s1 encryptionKeyFile = Stored (key_of s)) as (s1 & Hsave & Hblob & Hkey1).
  { unfold _saveCredentials, try_catch, bind, gets. cbv beta iota. fold text.
    rewrite Henc. cbv beta iota. unfold writeFileSync. rewrite Hro, Hw.
    eexists. split; [reflexivity|]. cbn [disk set_disk]. unfold write_file. simpl.
    split; [reflexivity | exact Hkey]. }
  exists s1. rewrite constructor_split. unfold bind.
  destruct (returns_before_load s1) as [[] Hr].
  pose proof (before_load_cache s1) as Hc. pose proof (before_load_disk s1) as Hdisk.
  destruct (before_load_fallback s1 Hav) as [Hos1 _].
  destruct (before_load s1) as [r sb]. simpl in *. subst r.
  destruct (_loadCredentials_success sb (nonce_of s ++ tag ++ ct)%list text v entries)
    as (s2 & Hload & Hcache).
  - rewrite Hdisk. exact Hblob.
  - apply (_decrypt_fallback_run sb (key_of s)); try assumption.
    + rewrite Hdisk. exact Hkey1.
    + apply nonce_of_length.
  - exact Hne.
  - exact Hparse.
  - exact Hentries.
  - exists s2. split; [exact Hsave|]. split; [exact Hload|].
    rewrite Hcache, Hc. exact Hfold.
Qed.

Lemma _loadNeverSaveSites_success s bytes v sites :
  disk s neverSaveFile = Stored bytes ->
  JSON_parse (utf8_decode bytes) = Some v ->
  Set_of v = Some sites ->
  _loadNeverSaveSites s = (Ok tt, set_neverSaveSites (fun _ => sites) s).
Proof.
  intros Hd Hparse Hset.
  unfold _loadNeverSaveSites, try_catch, bind, existsSync, readFileSync, gets.
  cbv beta iota. rewrite Hd. cbv beta iota. rewrite Hd. cbv beta iota.
  rewrite Hparse, Hset. reflexivity.
Qed.

Lemma keeps_never__loadCredentials : keeps neverSaveSites _loadCredentials.
Proof.
  unfold _loadCredentials.
  apply keeps_try_catch; [|intros e; apply keeps_console; reflexivity].
  apply keeps_bind; [apply keeps_existsSync | intros e].
  destruct (negb e); [apply keeps_ret|].
  apply keeps_bind; [apply keeps_readFileSync | intros blob].
  apply keeps_bind; [apply keeps__decrypt, object_field_neverSaveSites | intros d].
  keeps_auto.
Qed.

(** X13. The never-save list survives a restart: on a writable disk, and
    when the JSON text of the list is well-formed and parses back to the
    same set, [neverSaveForSite] followed by the construction of a new
    manager on the same disk leaves the origin in the never-save set, and
    [shouldPromptSave] is [false] for the URL. *)
Theorem never_save_survives_restart url s origin v :
  _getOrigin url = Some origin ->
  readOnly s = false ->
  well_formed (JSON_stringify_sites (neverSaveSites s ∪ {[origin]})) = true ->
  JSON_parse (JSON_stringify_sites (neverSaveSites s ∪ {[origin]})) = Some v ->
  Set_of v = Some (neverSaveSites s ∪ {[origin]}) ->
  exists s1 s2,
    neverSaveForSite url s = (Ok tt, s1) /\
    constructor s1 = (Ok tt, s2) /\
    neverSaveSites s2 = neverSaveSites s ∪ {[origin]} /\
    shouldPromptSave url s2 = (Ok false, s2).
Proof using utf8_decode_encode.
  intros Ho Hw Hwf Hparse Hset.
  set (sites := neverSaveSites s ∪ {[origin]}) in *.
  assert (exists s1, neverSaveForSite url s = (Ok tt, s1) /\
                     disk s1 neverSaveFile = Stored (utf8_encode (JSON_stringify_sites sites)))
    as (s1 & Hnever & Hfile).
  { unfold neverSaveForSite. rewrite Ho.
    unfold bind, modify, _saveNeverSaveSites, try_catch, bind, gets, writeFileSync, console_out,
      modify. cbv beta iota. cbn [readOnly set_neverSaveSites neverSaveSites]. rewrite Hw.
    fold sites. eexists. split; reflexivity. }
  exists s1. destruct (returns_constructor s1) as [[] Hret].
  assert (neverSaveSites (constructor s1).2 = sites) as Hsites.
  { rewrite constructor_split. unfold bind.
    assert (neverSaveSites (before_load s1).2 = sites) as Hb.
    { unfold before_load, bind, modify, console_out, modify. simpl.
      destruct safeStorage_isEncryptionAvailable; simpl;
        (erewrite _loadNeverSaveSites_success;
         [reflexivity | exact Hfile | rewrite (utf8_decode_encode _ Hwf); exact Hparse
         | exact Hset]). }
    pose proof (keeps_never__loadCredentials (before_load s1).2) as Hk.
    destruct (before_load s1) as [[[]|e] sb]; simpl in *; [|exact Hb].
    rewrite Hk. exact Hb. }
  destruct (constructor s1) as [r s2]. simpl in *. subst r.
  exists s2. split; [exact Hnever|]. split; [reflexivity|]. split; [exact Hsites|].
  rewrite (shouldPromptSave_value url origin s2 Ho), Hsites.
  rewrite bool_decide_true; [reflexivity|].
  unfold sites. apply elem_of_union. right. apply elem_of_singleton. reflexivity.
Qed.

(** * The blocker over sequences of calls *)

Lemma serve_all_cons c calls st : serve_all (c :: calls) st = serve_all calls (serve c st).
Proof. reflexivity. Qed.

Lemma onBeforeRequest_cases alive details ab ls :
  (cancel (onBeforeRequest alive details ab ls).1.1.1 = false /\
   (onBeforeRequest alive details ab ls).1.1.2 = ab /\
   (onBeforeRequest alive details ab ls).1.2 = ls) \/
  (cancel (onBeforeRequest alive details ab ls).1.1.1 = true /\
   (onBeforeRequest alive details ab ls).1.1.2 =
     (recordBlocked (tabKey (d_webContentsId details)) ab ls).1 /\
   (onBeforeRequest alive details ab ls).1.2 =
     (recordBlocked (tabKey (d_webContentsId details)) ab ls).2).
Proof.
  unfold onBeforeRequest.
  destruct (negb (enabled ab)); [left; repeat split|].
  destruct (String.eqb (d_resourceType details) "mainFrame"); [left; repeat split|].
  destruct (shouldBlock ab (d_url details) _); [right | left; repeat split].
  destruct (recordBlocked _ ab ls) as [ab' ls']. repeat split.
Qed.

Lemma recordBlocked_counters tabId ab ls :
  sessionBlocked (recordBlocked tabId ab ls).1 = sessionBlocked ab + 1 /\
  totalBlocked (recordBlocked tabId ab ls).1 = totalBlocked ab + 1 /\
  enabled (recordBlocked tabId ab ls).1 = enabled ab /\
  whitelist (recordBlocked tabId ab ls).1 = whitelist ab /\
  blockedByTab (recordBlocked tabId ab ls).1 =
    <[tabId := default 0 (blockedByTab ab !! tabId) + 1]> (blockedByTab ab).
Proof. unfold recordBlocked. destruct (_ =? 0); repeat split. Qed.

(** X14. The session and the total counter go up by exactly the number of
    requests answered [cancel: true], through any sequence of calls; no
    other call moves them. *)
Theorem counters_count_cancelled calls ab ls :
  sessionBlocked (serve_all calls (ab, ls)).1 = sessionBlocked ab + cancelled calls (ab, ls) /\
  totalBlocked (serve_all calls (ab, ls)).1 = totalBlocked ab + cancelled calls (ab, ls).
Proof.
  revert ab ls. induction calls as [|c calls IH]; intros ab ls.
  - simpl. lia.
  - rewrite serve_all_cons. cbn [cancelled].
    destruct (serve c (ab, ls)) as [ab1 ls1] eqn:E.
    destruct (IH ab1 ls1) as [IHs IHt]. rewrite IHs, IHt.
    destruct c as [alive details| | | |]; simpl in E.
    + destruct (onBeforeRequest_cases alive details ab ls) as [(Hc & Ha & _)|(Hc & Ha & _)];
        simpl; rewrite Hc; injection E as E1 _; rewrite Ha in E1; subst ab1.
      * lia.
      * destruct (recordBlocked_counters (tabKey (d_webContentsId details)) ab ls)
          as (-> & -> & _). lia.
    + injection E as <- _. simpl. lia.
    + injection E as <- _. simpl. lia.
    + injection E as <- _. simpl. lia.
    + injection E as <- _. simpl. lia.
Qed.

Lemma tab_sum_Permutation (l1 l2 : list (string * Z)) :
  l1 ≡ₚ l2 -> foldr (fun kv acc => kv.2 + acc) 0 l1 = foldr (fun kv acc => kv.2 + acc) 0 l2.
Proof. induction 1; simpl; lia. Qed.

Lemma tab_sum_insert (m : gmap string Z) k v :
  foldr (fun kv acc => kv.2 + acc) 0 (map_to_list (<[k := v]> m)) =
  foldr (fun kv acc => kv.2 + acc) 0 (map_to_list m) - default 0 (m !! k) + v.
Proof.
  destruct (m !! k) as [v0|] eqn:E; unfold default; cbn [from_option id].
  - rewrite <- (insert_delete_eq m k v).
    rewrite (tab_sum_Permutation _ _
               (map_to_list_insert (delete k m) k v (lookup_delete_eq m k))).
    rewrite <- (tab_sum_Permutation _ _ (map_to_list_delete m k v0 E)). simpl. lia.
  - rewrite (tab_sum_Permutation _ _ (map_to_list_insert m k v E)). simpl. lia.
Qed.

Lemma tab_counts_step c ab ls :
  map_Forall (fun _ n => 0 <= n) (blockedByTab ab) ->
  map_Forall (fun _ n => 0 <= n) (blockedByTab (serve c (ab, ls)).1) /\
  tab_total (serve c (ab, ls)).1 - sessionBlocked (serve c (ab, ls)).1
    <= tab_total ab - sessionBlocked ab /\
  (is_tab_reset c = false ->
   tab_total (serve c (ab, ls)).1 - sessionBlocked (serve c (ab, ls)).1
     = tab_total ab - sessionBlocked ab).
Proof.
  intros Hpos.
  assert (forall t, 0 <= default 0 (blockedByTab ab !! t)) as Hget.
  { intros t. destruct (blockedByTab ab !! t) as [n|] eqn:E; simpl; [|lia].
    exact (Hpos t n E). }
  destruct c as [alive details| | | |]; simpl.
  - destruct (onBeforeRequest_cases alive details ab ls) as [(_ & -> & _)|(_ & -> & _)].
    + split; [exact Hpos|]. split; [lia | intros _; reflexivity].
    + destruct (recordBlocked_counters (tabKey (d_webContentsId details)) ab ls)
        as (Hs & _ & _ & _ & Hm).
      unfold tab_total. rewrite Hs, Hm, tab_sum_insert.
      specialize (Hget (tabKey (d_webContentsId details))).
      split; [|split; [lia | intros _; lia]].
      apply map_Forall_insert_2; [lia | exact Hpos].
  - unfold tab_total. simpl. split; [exact Hpos|]. split; [lia | intros _; reflexivity].
  - unfold tab_total. simpl. split; [exact Hpos|]. split; [lia | intros _; reflexivity].
  - unfold tab_total. simpl. split; [exact Hpos|]. split; [lia | intros _; reflexivity].
  - unfold tab_total. simpl. rewrite tab_sum_insert. specialize (Hget tabId).
    split; [|split; [lia | discriminate]].
    apply map_Forall_insert_2; [lia | exact Hpos].
Qed.

(** X15. Per-tab counts against the session count: from a new blocker,
    after any sequence of calls, every per-tab count is a natural number,
    the per-tab counts add up to at most the session count, and to exactly
    the session count when no tab was reset. *)
Theorem tab_counts_within_session calls ls :
  (forall tabId, 0 <= getBlockedCount tabId (serve_all calls (AdBlocker_new ls, ls)).1) /\
  tab_total (serve_all calls (AdBlocker_new ls, ls)).1
    <= sessionBlocked (serve_all calls (AdBlocker_new ls, ls)).1 /\
  (forallb (fun c => negb (is_tab_reset c)) calls = true ->
   tab_total (serve_all calls (AdBlocker_new ls, ls)).1
     = sessionBlocked (serve_all calls (AdBlocker_new ls, ls)).1).
Proof.
  assert (forall calls ab ls0,
            map_Forall (fun _ n => 0 <= n) (blockedByTab ab) ->
            map_Forall (fun _ n => 0 <= n) (blockedByTab (serve_all calls (ab, ls0)).1) /\
            tab_total (serve_all calls (ab, ls0)).1 - sessionBlocked (serve_all calls (ab, ls0)).1
              <= tab_total ab - sessionBlocked ab /\
            (forallb (fun c => negb (is_tab_reset c)) calls = true ->
             tab_total (serve_all calls (ab, ls0)).1
               - sessionBlocked (serve_all calls (ab, ls0)).1
               = tab_total ab - sessionBlocked ab)) as Hgen.
  { clear calls ls. induction calls as [|c calls IH]; intros ab ls0 Hpos.
    - simpl. split; [exact Hpos|]. split; [lia | reflexivity].
    - rewrite serve_all_cons.
      destruct (tab_counts_step c ab ls0 Hpos) as (Hpos1 & Hle1 & Heq1).
      destruct (serve c (ab, ls0)) as [ab1 ls1]. simpl in Hpos1, Hle1, Heq1.
      destruct (IH ab1 ls1 Hpos1) as (Hpos2 & Hle2 & Heq2).
      split; [exact Hpos2|]. split; [lia|].
      simpl. intros Hall. apply andb_true_iff in Hall as [Hc Hrest].
      apply negb_true_iff in Hc. rewrite (Heq2 Hrest), (Heq1 Hc). reflexivity. }
  assert (map_Forall (fun _ n => 0 <= n) (blockedByTab (AdBlocker_new ls))) as Hnew.
  { destruct ls as [[st|]|]; simpl; apply map_Forall_empty. }
  assert (tab_total (AdBlocker_new ls) - sessionBlocked (AdBlocker_new ls) = 0) as Hzero.
  { destruct ls as [[st|]|]; reflexivity. }
  destruct (Hgen calls (AdBlocker_new ls) ls Hnew) as (Hpos & Hle & Heq).
  split; [|split].
  - intros tabId. unfold getBlockedCount.
    destruct (blockedByTab _ !! tabId) as [n|] eqn:E; simpl; [|lia].
    exact (Hpos tabId n E).
  - lia.
  - intros Hall. specialize (Heq Hall). lia.
Qed.

(** ** What a restart brings back *)

Lemma AdBlocker_new_saved ab ls :
  ls <> None ->
  enabled (AdBlocker_new (saveSettings ab ls)) = enabled ab /\
  whitelist (AdBlocker_new (saveSettings ab ls)) = whitelist ab /\
  totalBlocked (AdBlocker_new (saveSettings ab ls)) = totalBlocked ab /\
  saveSettings ab ls <> None.
Proof.
  intros Hls. destruct ls as [item|]; [|contradiction]. simpl.
  repeat split; [apply list_to_set_elements_L | discriminate].
Qed.

Lemma restart_step c ab ls :
  ls <> None ->
  enabled (AdBlocker_new ls) = enabled ab ->
  whitelist (AdBlocker_new ls) = whitelist ab ->
  0 <= totalBlocked ab - totalBlocked (AdBlocker_new ls) <= sessionBlocked ab mod 10 ->
  (serve c (ab, ls)).2 <> None /\
  enabled (AdBlocker_new (serve c (ab, ls)).2) = enabled (serve c (ab, ls)).1 /\
  whitelist (AdBlocker_new (serve c (ab, ls)).2) = whitelist (serve c (ab, ls)).1 /\
  0 <= totalBlocked (serve c (ab, ls)).1 - totalBlocked (AdBlocker_new (serve c (ab, ls)).2)
    <= sessionBlocked (serve c (ab, ls)).1 mod 10.
Proof.
  intros Hls He Hw Ht.
  assert (forall ab', 0 <= sessionBlocked ab' mod 10) as Hmod.
  { intros ab'. forget_runtime. div_mod_lia. }
  destruct c as [alive details| | | |]; simpl.
  - destruct (onBeforeRequest_cases alive details ab ls) as [(_ & -> & ->)|(_ & -> & ->)].
    + repeat split; try assumption; lia.
    + unfold recordBlocked.
      destruct (Z.eqb_spec ((sessionBlocked ab + 1) mod 10) 0) as [E|E]; cbn [fst snd].
      * match goal with |- context [saveSettings ?a ls] =>
          destruct (AdBlocker_new_saved a ls Hls) as (-> & -> & -> & Hn) end.
        simpl. rewrite E. repeat split; [exact Hn | lia | lia].
      * simpl. repeat split; try assumption.
        -- lia.
        -- revert Ht E. generalize (sessionBlocked ab) (totalBlocked ab)
             (totalBlocked (AdBlocker_new ls)). intros x y z. forget_runtime. div_mod_lia.
  - match goal with |- context [saveSettings ?a ls] =>
      destruct (AdBlocker_new_saved a ls Hls) as (-> & -> & -> & Hn) end.
    simpl. specialize (Hmod ab). repeat split; [exact Hn | lia | lia].
  - match goal with |- context [saveSettings ?a ls] =>
      destruct (AdBlocker_new_saved a ls Hls) as (-> & -> & -> & Hn) end.
    simpl. specialize (Hmod ab). repeat split; [exact Hn | lia | lia].
  - match goal with |- context [saveSettings ?a ls] =>
      destruct (AdBlocker_new_saved a ls Hls) as (-> & -> & -> & Hn) end.
    simpl. specialize (Hmod ab). repeat split; [exact Hn | lia | lia].
  - repeat split; try assumption; lia.
Qed.

(** X16. What a restart brings back: where [localStorage] exists, after
    any sequence of calls on a blocker built from the storage, a new
    blocker built from the storage has the same enabled flag and the same
    whitelist, and its total is short of the running total by the session
    count modulo ten, so by nine blocked requests at most. *)
Theorem restart_restores_settings calls ls :
  ls <> None ->
  enabled (AdBlocker_new (serve_all calls (AdBlocker_new ls, ls)).2)
    = enabled (serve_all calls (AdBlocker_new ls, ls)).1 /\
  whitelist (AdBlocker_new (serve_all calls (AdBlocker_new ls, ls)).2)
    = whitelist (serve_all calls (AdBlocker_new ls, ls)).1 /\
  0 <= totalBlocked (serve_all calls (AdBlocker_new ls, ls)).1
       - totalBlocked (AdBlocker_new (serve_all calls (AdBlocker_new ls, ls)).2)
    <= sessionBlocked (serve_all calls (AdBlocker_new ls, ls)).1 mod 10 /\
  sessionBlocked (serve_all calls (AdBlocker_new ls, ls)).1 mod 10 <= 9.
Proof.
  intros Hls.
  assert (forall calls ab ls0,
            ls0 <> None ->
            enabled (AdBlocker_new ls0) = enabled ab ->
            whitelist (AdBlocker_new ls0) = whitelist ab ->
            0 <= totalBlocked ab - totalBlocked (AdBlocker_new ls0) <= sessionBlocked ab mod 10 ->
            enabled (AdBlocker_new (serve_all calls (ab, ls0)).2)
              = enabled (serve_all calls (ab, ls0)).1 /\
            whitelist (AdBlocker_new (serve_all calls (ab, ls0)).2)
              = whitelist (serve_all calls (ab, ls0)).1 /\
            0 <= totalBlocked (serve_all calls (ab, ls0)).1
                 - totalBlocked (AdBlocker_new (serve_all calls (ab, ls0)).2)
              <= sessionBlocked (serve_all calls (ab, ls0)).1 mod 10) as Hgen.
  { clear calls ls Hls. induction calls as [|c calls IH]; intros ab ls0 Hls He Hw Ht.
    - simpl. repeat split; try assumption; lia.
    - rewrite serve_all_cons.
      destruct (restart_step c ab ls0 Hls He Hw Ht) as (Hls1 & He1 & Hw1 & Ht1).
      destruct (serve c (ab, ls0)) as [ab1 ls1]. simpl in *.
      exact (IH ab1 ls1 Hls1 He1 Hw1 Ht1). }
  assert (sessionBlocked (AdBlocker_new ls) = 0) as Hs.
  { destruct ls as [[st|]|]; reflexivity. }
  destruct (Hgen calls (AdBlocker_new ls) ls Hls eq_refl eq_refl) as (He & Hw & Ht).
  { rewrite Hs. change (0 mod 10) with 0. lia. }
  split; [exact He|]. split; [exact Hw|]. split; [exact Ht|].
  generalize (sessionBlocked (serve_all calls (AdBlocker_new ls, ls)).1). intros x.
  forget_runtime. div_mod_lia.
Qed.

(** * The domain list and the whitelist *)

Lemma lower_char_idem c : lower_char (lower_char c) = lower_char c.
Proof.
  unfold lower_char at 2.
  destruct ((65 <=? N_of_ascii c) && (N_of_ascii c <=? 90))%N eqn:E.
  - pose proof E as E'. apply andb_true_iff in E as [E1 E2].
    apply N.leb_le in E1. apply N.leb_le in E2.
    unfold lower_char. rewrite E', N_ascii_embedding by lia.
    replace ((65 <=? N_of_ascii c + 32) && (N_of_ascii c + 32 <=? 90))%N with false;
      [reflexivity|].
    symmetry. apply andb_false_iff. right. apply N.leb_gt. lia.
  - unfold lower_char. rewrite E. reflexivity.
Qed.

Lemma toLowerCase_idem s : toLowerCase (toLowerCase s) = toLowerCase s.
Proof. induction s as [|c s IH]; simpl; [reflexivity|]. rewrite lower_char_idem, IH. reflexivity. Qed.

Lemma prefix_refl s : String.prefix s s = true.
Proof. induction s as [|c s IH]; simpl; [reflexivity|]. destruct (ascii_dec c c); [exact IH | contradiction]. Qed.

Lemma includes_refl s : includes s s = true.
Proof.
  destruct s as [|c s]; [reflexivity|].
  change (includes (String c s) (String c s))
    with (String.prefix (String c s) (String c s) || includes (String c s) s).
  rewrite prefix_refl. reflexivity.
Qed.

(** Every character of a prefix is one of the string. *)
Lemma prefix_lower needle s :
  String.prefix needle (toLowerCase s) = true -> toLowerCase needle = needle.
Proof.
  revert s. induction needle as [|c needle IH]; intros s H; [reflexivity|].
  destruct s as [|d s]; simpl in H; [discriminate|].
  destruct (ascii_dec c (lower_char d)) as [->|]; [|discriminate].
  simpl. rewrite lower_char_idem, (IH s H). reflexivity.
Qed.

Lemma includes_lower needle s :
  includes needle (toLowerCase s) = true -> toLowerCase needle = needle.
Proof.
  induction s as [|d s IH]; simpl; intros H.
  - rewrite orb_false_r in H. exact (prefix_lower needle EmptyString H).
  - apply orb_true_iff in H as [H|H]; [|exact (IH H)].
    exact (prefix_lower needle (String d s) H).
Qed.

Lemma existsb_filter_dead {A} (f keep : A -> bool) l :
  (forall x, keep x = false -> f x = false) -> existsb f l = existsb f (List.filter keep l).
Proof.
  intros H. induction l as [|x l IH]; simpl; [reflexivity|].
  destruct (keep x) eqn:E; simpl; rewrite IH; [reflexivity|].
  rewrite (H x E). reflexivity.
Qed.

(** X17. The domain list is matched against the lower-cased URL, so an
    entry matches some URL exactly when it has no upper-case letter. One
    entry of [AD_DOMAINS] has upper-case letters,
    [connect.facebook.net/en_US/fbevents]: it matches no URL, and the
    domain check gives the same answer with it and without it. *)
Theorem mixed_case_entry_never_matches :
  (forall domain,
     (exists url, includes domain (toLowerCase url) = true) <-> is_lower domain = true) /\
  List.filter (fun domain => negb (is_lower domain)) AD_DOMAINS
    = ["connect.facebook.net/en_US/fbevents"] /\
  (forall url,
     existsb (fun domain => includes domain (toLowerCase url)) AD_DOMAINS =
     existsb (fun domain => includes domain (toLowerCase url)) (List.filter is_lower AD_DOMAINS)).
Proof.
  split; [|split].
  - intros domain. unfold is_lower. rewrite String.eqb_eq. split.
    + intros [url H]. exact (includes_lower domain url H).
    + intros H. exists domain. rewrite H. apply includes_refl.
  - vm_compute. reflexivity.
  - intros url. apply existsb_filter_dead. intros d Hd.
    destruct (includes d (toLowerCase url)) eqn:E; [|reflexivity].
    apply includes_lower in E. unfold is_lower in Hd.
    rewrite (proj2 (String.eqb_eq _ _) E) in Hd. discriminate.
Qed.

Lemma shouldBlock_gates ab url pageUrl :
  shouldBlock ab url pageUrl =
  enabled ab && negb (negb (String.eqb pageUrl "") && isWhitelisted ab pageUrl)
  && rules_hit url pageUrl.
Proof.
  unfold shouldBlock, rules_hit. destruct (enabled ab); [|reflexivity]. simpl negb at 1.
  cbv iota. destruct (negb (String.eqb pageUrl "") && isWhitelisted ab pageUrl); [reflexivity|].
  cbv beta iota zeta delta [negb andb].
  repeat match goal with |- context [if ?c then true else _] => destruct c end; reflexivity.
Qed.

(** X18. The whitelist is matched on the exact host name of the page.
    After [addToWhitelist] of the page's host name nothing is blocked on
    the page; after [removeFromWhitelist] of it the page is filtered by the
    enabled flag and the rules alone; adding or removing any other domain,
    a parent domain included, changes nothing for the page. *)
Theorem whitelist_matches_host_exactly ab ls url pageUrl parsed :
  URL_parse pageUrl = Some parsed ->
  shouldBlock (addToWhitelist (hostname parsed) ab ls).1 url pageUrl = false /\
  shouldBlock (removeFromWhitelist (hostname parsed) ab ls).1 url pageUrl
    = enabled ab && rules_hit url pageUrl /\
  (forall domain, domain <> hostname parsed ->
     shouldBlock (addToWhitelist domain ab ls).1 url pageUrl = shouldBlock ab url pageUrl /\
     shouldBlock (removeFromWhitelist domain ab ls).1 url pageUrl = shouldBlock ab url pageUrl).
Proof using URL_parse_empty.
  intros Hp. rewrite !shouldBlock_gates, (parsed_not_empty pageUrl parsed Hp).
  unfold isWhitelisted. rewrite Hp. simpl.
  split; [|split].
  - rewrite bool_decide_true; [destruct (enabled ab); reflexivity|].
    apply elem_of_union. right. apply elem_of_singleton. reflexivity.
  - rewrite bool_decide_false; [destruct (enabled ab); reflexivity|].
    intros H. apply elem_of_difference in H as [_ H]. apply H.
    apply elem_of_singleton. reflexivity.
  - intros domain Hne. setoid_rewrite shouldBlock_gates.
    rewrite (parsed_not_empty pageUrl parsed Hp). unfold isWhitelisted. rewrite Hp. simpl.
    assert (hostname parsed ∉ ({[domain]} : gset string)) as Hnot.
    { intros H. apply elem_of_singleton in H. congruence. }
    split.
    + rewrite (bool_decide_ext (hostname parsed ∈ whitelist ab ∪ {[domain]})
                 (hostname parsed ∈ whitelist ab)); [reflexivity|].
      rewrite elem_of_union. split; [intros [H|H]; [exact H | contradiction] | intros H; left; exact H].
    + rewrite (bool_decide_ext (hostname parsed ∈ whitelist ab ∖ {[domain]})
                 (hostname parsed ∈ whitelist ab)); [reflexivity|].
      rewrite elem_of_difference. split; [intros [H _]; exact H | intros H; split; assumption].
Qed.

(** * Export and import *)

(** ** The merge of one record *)

Lemma merge_credential_cases existing cred :
  (Forall (fun c => username c <> username cred) existing /\
   merge_credential existing cred = (existing ++ [cred])%list) \/
  (exists n old,
     existing !! n = Some old /\ username old = username cred /\
     (forall j y, (j < n)%nat -> existing !! j = Some y -> username y <> username cred) /\
     merge_credential existing cred =
       if updatedAt old <? updatedAt cred then <[n := cred]> existing else existing).
Proof.
  unfold merge_credential.
  destruct (findIndex_cases (fun c => String.eqb (username c) (username cred)) existing)
    as [[E F] | (n & old & E & Hl & Hp & Hfirst)]; rewrite E.
  - left. split; [|reflexivity].
    eapply Forall_impl; [exact F|]. intros c Hc. simpl in Hc. apply String.eqb_neq. exact Hc.
  - right. exists n, old.
    replace (0 <=? Z.of_nat n) with true by (symmetry; apply Z.leb_le; lia).
    rewrite Nat2Z.id, Hl. split; [reflexivity|]. split; [apply String.eqb_eq; exact Hp|].
    split; [|reflexivity].
    intros j y Hj Hy. apply String.eqb_neq. exact (Hfirst j y Hj Hy).
Qed.

Lemma merge_credential_usernames existing cred :
  map username (merge_credential existing cred) =
  (map username existing ++
   (if bool_decide (username cred ∈ map username existing) then [] else [username cred]))%list.
Proof.
  destruct (merge_credential_cases existing cred)
    as [[F ->] | (n & old & Hl & Hu & _ & ->)].
  - rewrite map_app. f_equal. rewrite bool_decide_false; [reflexivity|].
    intros Hin. apply list_elem_of_fmap in Hin as (c & Hc & Hin).
    rewrite Forall_forall in F. exact (F c Hin (eq_sym Hc)).
  - rewrite bool_decide_true.
    + rewrite app_nil_r. destruct (_ <? _); [|reflexivity].
      change (map username (<[n:=cred]> existing)) with (username <$> <[n:=cred]> existing).
      rewrite list_fmap_insert, <- Hu. apply list_insert_id.
      rewrite list_lookup_fmap, Hl. reflexivity.
    + apply list_elem_of_fmap. exists old. split; [symmetry; exact Hu|].
      apply list_elem_of_lookup. exists n. exact Hl.
Qed.

Lemma merge_credential_NoDup existing cred :
  NoDup (map username existing) -> NoDup (map username (merge_credential existing cred)).
Proof.
  intros H. rewrite merge_credential_usernames.
  destruct (bool_decide (username cred ∈ map username existing)) eqn:E.
  - rewrite app_nil_r. exact H.
  - apply bool_decide_eq_false in E. apply NoDup_app. split; [exact H|]. split.
    + intros x Hx Hx'. apply list_elem_of_singleton in Hx'. subst x. exact (E Hx).
    + apply NoDup_singleton.
Qed.

Lemma merge_credentials_NoDup creds existing :
  NoDup (map username existing) -> NoDup (map username (foldl merge_credential existing creds)).
Proof.
  revert existing. induction creds as [|c creds IH]; intros existing H; simpl; [exact H|].
  apply IH, merge_credential_NoDup, H.
Qed.

(** A record that is there stays at its place; it is replaced only by an
    imported record of the same user name and a later [updatedAt]. *)
Lemma merge_credential_keeps existing cred n old :
  existing !! n = Some old ->
  exists new,
    merge_credential existing cred !! n = Some new /\
    username new = username old /\ updatedAt old <= updatedAt new /\
    (new = old \/ new = cred).
Proof.
  intros Hn.
  destruct (merge_credential_cases existing cred)
    as [[F ->] | (m & old' & Hl & Hu & _ & ->)].
  - exists old. rewrite lookup_app_l by (apply lookup_lt_Some in Hn; exact Hn).
    split; [exact Hn|]. split; [reflexivity|]. split; [lia | left; reflexivity].
  - destruct (Z.ltb_spec (updatedAt old') (updatedAt cred)) as [Hlt|Hge].
    + destruct (decide (n = m)) as [->|Hne].
      * exists cred. rewrite list_lookup_insert_eq by (apply lookup_lt_Some in Hn; exact Hn).
        rewrite Hl in Hn. injection Hn as <-.
        split; [reflexivity|]. split; [symmetry; exact Hu|]. split; [lia | right; reflexivity].
      * exists old. rewrite list_lookup_insert_ne by congruence.
        split; [exact Hn|]. split; [reflexivity|]. split; [lia | left; reflexivity].
    + exists old. split; [exact Hn|]. split; [reflexivity|]. split; [lia | left; reflexivity].
Qed.

Lemma merge_credentials_keeps creds existing n old :
  existing !! n = Some old ->
  exists new,
    foldl merge_credential existing creds !! n = Some new /\
    username new = username old /\ updatedAt old <= updatedAt new /\
    (new = old \/ new ∈ creds).
Proof.
  revert existing old. induction creds as [|c creds IH]; intros existing old Hn; simpl.
  - exists old. split; [exact Hn|]. split; [reflexivity|]. split; [lia | left; reflexivity].
  - destruct (merge_credential_keeps existing c n old Hn) as (mid & Hmid & Hu & Ht & Hor).
    destruct (IH _ _ Hmid) as (new & Hnew & Hu' & Ht' & Hor').
    exists new. split; [exact Hnew|]. split; [congruence|]. split; [lia|].
    destruct Hor' as [-> | Hin]; [|right; apply elem_of_cons; right; exact Hin].
    destruct Hor as [-> | ->]; [left; reflexivity | right; apply elem_of_cons; left; reflexivity].
Qed.

(** Into an empty list, records of distinct user names go as they are. *)
Lemma merge_credentials_fresh creds existing :
  NoDup (map username (existing ++ creds)) ->
  foldl merge_credential existing creds = (existing ++ creds)%list.
Proof.
  revert existing. induction creds as [|c creds IH]; intros existing H; simpl.
  - rewrite app_nil_r. reflexivity.
  - replace (existing ++ c :: creds)%list with ((existing ++ [c]) ++ creds)%list in *
      by (rewrite <- app_assoc; reflexivity).
    destruct (merge_credential_cases existing c) as [[F E] | (n & old & Hl & Hu & F & E)].
    + rewrite E. apply IH, H.
    + exfalso. rewrite !map_app in H. apply NoDup_app in H as [H _].
      apply NoDup_app in H as (_ & H & _). apply (H (username c)).
      * apply list_elem_of_fmap. exists old. split; [symmetry; exact Hu|].
        apply list_elem_of_lookup. exists n. exact Hl.
      * simpl. apply list_elem_of_singleton. reflexivity.
Qed.

(** ** The loops of [importCredentials] *)

Lemma merge_credentials_total creds existing :
  merge_credentials existing (map Some creds) = (foldl merge_credential existing creds, true).
Proof.
  revert existing. induction creds as [|c creds IH]; intros existing; simpl; [reflexivity|].
  apply IH.
Qed.


Lemma merge_into_app cache pre post :
  merge_into cache (pre ++ post) = merge_into (merge_into cache pre) post.
Proof. unfold merge_into. apply foldl_app. Qed.

Lemma import_entries_app pre post s :
  import_entries (well_typed pre ++ post) s =
  import_entries post (set_credentialsCache (fun _ => merge_into (credentialsCache s) pre) s).
Proof.
  revert s. induction pre as [|[origin creds] pre IH]; intros s.
  - destruct s. reflexivity.
  - cbn [well_typed map app import_entries fst snd]. unfold bind at 1. unfold gets.
    cbv beta iota. rewrite merge_credentials_total. cbn [fst snd].
    unfold bind at 1. unfold modify. cbv beta iota.
    fold (well_typed pre). rewrite IH. reflexivity.
Qed.

Lemma import_entries_well_typed entries s :
  import_entries (well_typed entries) s =
  (Ok tt, set_credentialsCache (fun _ => merge_into (credentialsCache s) entries) s).
Proof.
  rewrite <- (app_nil_r (well_typed entries)), import_entries_app. reflexivity.
Qed.

Lemma keeps_import_entries {B} (f : Sys -> B) entries :
  (forall g s, f (set_credentialsCache g s) = f s) -> keeps f (import_entries entries).
Proof.
  intros Hf. induction entries as [|[origin [creds|]] entries IH]; cbn [import_entries].
  - apply keeps_ret.
  - apply keeps_bind; [apply keeps_gets | intros cache].
    destruct (merge_credentials _ creds) as [merged []]; cbn [fst snd].
    + apply keeps_bind; [apply keeps_modify; intros s; apply Hf | intros _; exact IH].
    + apply keeps_bind; [|intros _; apply keeps_throw].
      destruct (bool_decide _); [apply keeps_modify; intros s; apply Hf | apply keeps_ret].
  - apply keeps_bind; [apply keeps_gets | intros cache; apply keeps_throw].
Qed.

(** The entries an export carries under a password, when it opens, parses
    and has a [credentials] object. *)
Lemma importCredentials_unfold exportedData masterPassword s :
  importCredentials exportedData masterPassword s =
  if negb (hex_input_ok (ex_data exportedData))
  then (Ok import_failure, set_console (fun c => (c ++ [(ERROR, "[CredentialManager] Import failed:")])%list) s)
  else
  match gcm_open (scryptSync masterPassword) (Buffer_from_hex (ex_iv exportedData))
          (Buffer_from_hex (ex_authTag exportedData))
          (Buffer_from_hex (ex_data exportedData)) with
  | None => (Ok import_failure, set_console (fun c => (c ++ [(ERROR, "[CredentialManager] Import failed:")])%list) s)
  | Some pt =>
      match JSON_parse (utf8_decode pt) with
      | None => (Ok import_failure, set_console (fun c => (c ++ [(ERROR, "[CredentialManager] Import failed:")])%list) s)
      | Some data =>
          match Export_entries data with
          | None => (Ok import_failure, set_console (fun c => (c ++ [(ERROR, "[CredentialManager] Import failed:")])%list) s)
          | Some entries =>
              match import_entries entries s with
              | (Ok _, s1) => (Ok (import_success (List.length entries)), (_saveCredentials s1).2)
              | (Throw _, s1) =>
                  (Ok import_failure, set_console (fun c => (c ++ [(ERROR, "[CredentialManager] Import failed:")])%list) s1)
              end
          end
      end
  end.
Proof.
  unfold importCredentials, try_catch. cbv zeta.
  destruct (negb (hex_input_ok (ex_data exportedData))); [reflexivity|].
  destruct (gcm_open _ _ _ _) as [pt|]; [|reflexivity].
  destruct (JSON_parse _) as [data|]; [|reflexivity].
  destruct (Export_entries data) as [entries|]; [|reflexivity].
  unfold bind at 1. destruct (import_entries entries s) as [[[]|err] s1]; [|reflexivity].
  unfold bind. destruct (returns__saveCredentials s1) as [[] Hr].
  destruct (_saveCredentials s1) as [r s2]. simpl in Hr. subst r. reflexivity.
Qed.

Lemma importCredentials_well_typed exportedData masterPassword s pt data entries :
  hex_input_ok (ex_data exportedData) = true ->
  gcm_open (scryptSync masterPassword) (Buffer_from_hex (ex_iv exportedData))
    (Buffer_from_hex (ex_authTag exportedData)) (Buffer_from_hex (ex_data exportedData))
    = Some pt ->
  JSON_parse (utf8_decode pt) = Some data ->
  Export_entries data = Some (well_typed entries) ->
  importCredentials exportedData masterPassword s =
  (Ok (import_success (List.length entries)),
   (_saveCredentials
      (set_credentialsCache (fun _ => merge_into (credentialsCache s) entries) s)).2).
Proof.
  intros Heven Hopen Hparse Hentries.
  rewrite importCredentials_unfold, Heven, Hopen, Hparse, Hentries, import_entries_well_typed.
  unfold well_typed. rewrite length_map. reflexivity.
Qed.


(** X20. What the merge keeps: a record that was in the cache is still at
    its place after an import, under the same user name and with an
    [updatedAt] that is not earlier; and lists without a repeated user name
    stay so. *)
Theorem import_keeps_newer cache entries :
  (forall origin l n old,
     cache !! origin = Some l -> l !! n = Some old ->
     exists l' new,
       merge_into cache entries !! origin = Some l' /\ l' !! n = Some new /\
       username new = username old /\ updatedAt old <= updatedAt new) /\
  ((forall origin l, cache !! origin = Some l -> NoDup (map username l)) ->
   forall origin l, merge_into cache entries !! origin = Some l -> NoDup (map username l)).
Proof.
  split.
  - revert cache. induction entries as [|[o creds] entries IH]; intros cache origin l n old Hl Hn.
    + exists l, old. simpl. repeat split; [exact Hl | exact Hn | lia].
    + change (merge_into cache ((o, creds) :: entries))
        with (merge_into (<[o := foldl merge_credential (default [] (cache !! o)) creds]> cache)
                entries).
      destruct (decide (o = origin)) as [->|Hne].
      * rewrite Hl. change (default [] (Some l)) with l.
        destruct (merge_credentials_keeps creds l n old Hn) as (mid & Hmid & Hu & Ht & _).
        destruct (IH (<[origin := foldl merge_credential l creds]> cache) origin _ n mid
                    (lookup_insert_eq _ _ _) Hmid)
          as (l' & new & Hl' & Hn' & Hu' & Ht').
        exists l', new. repeat split; [exact Hl' | exact Hn' | congruence | lia].
      * apply (IH _ origin l n old); [|exact Hn].
        rewrite lookup_insert_ne by exact Hne. exact Hl.
  - revert cache. induction entries as [|[o creds] entries IH]; intros cache Hc origin l Hl.
    + exact (Hc origin l Hl).
    + change (merge_into cache ((o, creds) :: entries))
        with (merge_into (<[o := foldl merge_credential (default [] (cache !! o)) creds]> cache)
                entries) in Hl.
      refine (IH _ _ origin l Hl). intros origin' l' Hl'.
      destruct (decide (o = origin')) as [->|Hne].
      * rewrite lookup_insert_eq in Hl'. injection Hl' as <-.
        apply merge_credentials_NoDup.
        destruct (cache !! origin') as [l0|] eqn:E; simpl; [exact (Hc origin' l0 E)|].
        apply NoDup_nil_2.
      * rewrite lookup_insert_ne in Hl' by exact Hne. exact (Hc origin' l' Hl').
Qed.

(** X21. [importCredentials] never throws, and a failed import writes
    nothing: when the answer is a failure the disk is as before; when the
    export does not open under the password, the cache is as before too,
    and likewise when its data field has an odd number of hex digits. *)
Theorem import_failure_writes_nothing exportedData masterPassword s :
  (exists r, (importCredentials exportedData masterPassword s).1 = Ok r /\
     (r = import_failure ->
      disk (importCredentials exportedData masterPassword s).2 = disk s)) /\
  (gcm_open (scryptSync masterPassword) (Buffer_from_hex (ex_iv exportedData))
     (Buffer_from_hex (ex_authTag exportedData)) (Buffer_from_hex (ex_data exportedData))
     = None ->
   (importCredentials exportedData masterPassword s).1 = Ok import_failure /\
   credentialsCache (importCredentials exportedData masterPassword s).2 = credentialsCache s) /\
  (hex_input_ok (ex_data exportedData) = false ->
   (importCredentials exportedData masterPassword s).1 = Ok import_failure /\
   credentialsCache (importCredentials exportedData masterPassword s).2 = credentialsCache s).
Proof.
  rewrite importCredentials_unfold. split; [|split].
  - destruct (negb (hex_input_ok (ex_data exportedData)));
      [exists import_failure; split; reflexivity|].
    destruct (gcm_open _ _ _ _) as [pt|]; [|exists import_failure; split; reflexivity].
    destruct (JSON_parse _) as [data|]; [|exists import_failure; split; reflexivity].
    destruct (Export_entries data) as [entries|];
      [|exists import_failure; split; reflexivity].
    pose proof (keeps_import_entries disk entries (fun g s0 => eq_refl) s) as Hd.
    destruct (import_entries entries s) as [[[]|err] s1]; simpl in *.
    + eexists. split; [reflexivity | discriminate].
    + exists import_failure. split; [reflexivity | intros _; exact Hd].
  - intros ->. destruct (negb (hex_input_ok (ex_data exportedData))); split; reflexivity.
  - intros ->. split; reflexivity.
Qed.

(** X22. An import is not all-or-nothing. When the export is read (an
    even number of hex digits, opened under the password, parsed) and its
    entries are well-typed up to one whose value is not iterable, the
    answer is a failure, the entries before it have been merged into the
    cache all the same, and nothing of it is written to disk. *)
Theorem import_stops_midway exportedData masterPassword s pt data pre origin rest :
  hex_input_ok (ex_data exportedData) = true ->
  gcm_open (scryptSync masterPassword) (Buffer_from_hex (ex_iv exportedData))
    (Buffer_from_hex (ex_authTag exportedData)) (Buffer_from_hex (ex_data exportedData))
    = Some pt ->
  JSON_parse (utf8_decode pt) = Some data ->
  Export_entries data = Some (well_typed pre ++ (origin, None) :: rest)%list ->
  (importCredentials exportedData masterPassword s).1 = Ok import_failure /\
  credentialsCache (importCredentials exportedData masterPassword s).2
    = merge_into (credentialsCache s) pre /\
  disk (importCredentials exportedData masterPassword s).2 = disk s.
Proof.
  intros Heven Hopen Hparse Hentries.
  rewrite importCredentials_unfold, Heven, Hopen, Hparse, Hentries, import_entries_app.
  cbn [import_entries]. unfold bind, gets, throw. cbn [fst snd]. repeat split.
Qed.


(** ** Export, then import *)

Lemma is_byte_entropy (entropy : nat -> Z) l :
  Forall is_byte (map (fun i => entropy i mod 256) l).
Proof.
  apply Forall_forall. intros b Hb. apply list_elem_of_fmap in Hb as (i & -> & _).
  unfold is_byte. generalize (entropy i). intros x. forget_runtime. div_mod_lia.
Qed.

(** [exportCredentials] as a step: it returns, reads the clock once and
    draws a nonce, and what it returns opens under the same password to
    the serialised cache. *)
Lemma hex_digit_ascii n :
  0 <= n < 16 -> (Z.of_N (N_of_ascii (hex_digit n)) <? 128) = true.
Proof.
  intros H. unfold hex_digit. apply Z.ltb_lt.
  destruct (Z.ltb_spec n 10); rewrite N_ascii_embedding by lia; lia.
Qed.

(** What [to_hex] writes has two code units for each octet. *)
Lemma hex_input_ok_to_hex buf : Forall is_byte buf -> hex_input_ok (to_hex buf) = true.
Proof.
  unfold hex_input_ok, code_units, octets.
  induction 1 as [|b buf Hb _ IH]; [reflexivity|].
  unfold is_byte in Hb.
  cbn [to_hex list_ascii_of_string map utf8_decode_plain].
  rewrite !hex_digit_ascii by (forget_runtime; div_mod_lia).
  cbn [List.length]. exact IH.
Qed.

Lemma exportCredentials_run masterPassword s :
  well_formed (JSON_stringify_export (mkExportData 1 (now s) (credentialsCache s))) = true ->
  exists exportedData,
    exportCredentials masterPassword s
      = (Ok exportedData, set_drawn (drawn s + 16) (set_ticks (S (ticks s)) s)) /\
    hex_input_ok (ex_data exportedData) = true /\
    gcm_open (scryptSync masterPassword) (Buffer_from_hex (ex_iv exportedData))
      (Buffer_from_hex (ex_authTag exportedData)) (Buffer_from_hex (ex_data exportedData))
    = Some (utf8_encode (JSON_stringify_export (mkExportData 1 (now s) (credentialsCache s)))).
Proof using gcm_sound gcm_tag_octets scryptSync_length.
  intros Hwf.
  set (text := JSON_stringify_export (mkExportData 1 (now s) (credentialsCache s))) in *.
  set (iv := map (fun i => entropy s i mod 256) (seq (drawn s) 16)).
  assert (List.length iv = 16%nat) as Hiv by (unfold iv; rewrite length_map, length_seq; reflexivity).
  destruct (gcm_sound (scryptSync masterPassword) iv (utf8_encode text)
              (scryptSync_length masterPassword) Hiv (is_byte_utf8_encode text Hwf))
    as (ct & tag & Hseal & _ & Hct & Hopen).
  exists (mkExported (to_hex iv) (to_hex tag) (to_hex ct)). split.
  - unfold exportCredentials, bind, Date_now, gets, randomBytes. cbv beta iota zeta.
    cbn [credentialsCache set_ticks entropy drawn]. fold (now s). fold text. fold iv.
    rewrite Hseal. reflexivity.
  - split; [exact (hex_input_ok_to_hex ct Hct)|].
    cbn [ex_iv ex_authTag ex_data].
    rewrite !Buffer_from_hex_to_hex;
      [exact Hopen | exact Hct | exact (gcm_tag_octets _ _ _ _ _ Hseal)
      | apply is_byte_entropy].
Qed.

Lemma merge_into_new cache entries :
  NoDup entries.*1 ->
  Forall (fun oc => cache !! oc.1 = None /\ NoDup (map username oc.2)) entries ->
  merge_into cache entries = foldl (fun c oe => <[oe.1 := oe.2]> c) cache entries.
Proof.
  revert cache. induction entries as [|[o creds] entries IH]; intros cache Hnd Hall;
    [reflexivity|].
  apply NoDup_cons in Hnd as [Ho Hnd]. apply Forall_cons in Hall as [[Hnone Hcreds] Hall].
  simpl in Hnone, Hcreds.
  change (merge_into cache ((o, creds) :: entries))
    with (merge_into (<[o := foldl merge_credential (default [] (cache !! o)) creds]> cache)
            entries).
  rewrite Hnone. change (default [] None) with (@nil Credential).
  rewrite (merge_credentials_fresh creds []) by exact Hcreds.
  rewrite IH; [reflexivity | exact Hnd |].
  apply Forall_forall. intros [o' creds'] Hin.
  rewrite Forall_forall in Hall. destruct (Hall _ Hin) as [Hn' Hc']. simpl in *.
  split; [|exact Hc'].
  rewrite lookup_insert_ne; [exact Hn'|].
  intros ->. apply Ho. apply list_elem_of_fmap. exists (o', creds'). split; [reflexivity | exact Hin].
Qed.

(** X24. Export, then import. When the serialised export is well-formed
    and parses back to well-typed entries, [exportCredentials] returns
    without touching the cache or the disk, and what it returns opens again
    under the same password: importing it answers success and merges those
    entries. Into an empty cache, entries of distinct origins whose lists
    have no repeated user name come back as they were exported. *)
Theorem export_then_import masterPassword s s' data entries :
  well_formed (JSON_stringify_export (mkExportData 1 (now s) (credentialsCache s))) = true ->
  JSON_parse (JSON_stringify_export (mkExportData 1 (now s) (credentialsCache s))) = Some data ->
  Export_entries data = Some (well_typed entries) ->
  exists exportedData s1,
    exportCredentials masterPassword s = (Ok exportedData, s1) /\
    credentialsCache s1 = credentialsCache s /\ disk s1 = disk s /\
    (importCredentials exportedData masterPassword s').1
      = Ok (import_success (List.length entries)) /\
    credentialsCache (importCredentials exportedData masterPassword s').2
      = merge_into (credentialsCache s') entries /\
    (credentialsCache s' = ∅ ->
     NoDup entries.*1 ->
     Forall (fun oc => NoDup (map username oc.2)) entries ->
     foldl (fun c oe => <[oe.1 := oe.2]> c) ∅ entries = credentialsCache s ->
     credentialsCache (importCredentials exportedData masterPassword s').2 = credentialsCache s).
Proof using gcm_sound gcm_tag_octets scryptSync_length utf8_decode_encode.
  intros Hwf Hparse Hentries.
  destruct (exportCredentials_run masterPassword s Hwf)
    as (exportedData & Hexport & Heven & Hopen).
  rewrite <- (utf8_decode_encode _ Hwf) in Hparse.
  assert ((importCredentials exportedData masterPassword s').1
            = Ok (import_success (List.length entries)) /\
          credentialsCache (importCredentials exportedData masterPassword s').2
            = merge_into (credentialsCache s') entries) as [Hr Hc].
  { rewrite (importCredentials_well_typed _ _ s' _ data entries Heven Hopen Hparse Hentries).
    cbn [fst snd]. split; [reflexivity|].
    rewrite (keeps__saveCredentials credentialsCache object_field_credentialsCache).
    reflexivity. }
  exists exportedData, (set_drawn (drawn s + 16) (set_ticks (S (ticks s)) s)).
  split; [exact Hexport|]. split; [reflexivity|]. split; [reflexivity|].
  split; [exact Hr|]. split; [exact Hc|].
  intros Hempty Hnd Hall Hfold. rewrite Hc, Hempty, merge_into_new; [exact Hfold | exact Hnd |].
  eapply Forall_impl; [exact Hall|]. intros oc H. split; [apply lookup_empty | exact H].
Qed.

(** ** Importing twice *)

Lemma covered_merge_id l cred : covered l cred -> merge_credential l cred = l.
Proof.
  intros (n & r & Hn & Hu & Hfirst & Ht).
  destruct (merge_credential_cases l cred)
    as [[F _] | (m & old & Hm & Hu' & Hfirst' & ->)].
  - exfalso. rewrite Forall_forall in F. apply (F r); [|exact Hu].
    apply list_elem_of_lookup. exists n. exact Hn.
  - assert (m = n) as ->.
    { destruct (Nat.lt_trichotomy m n) as [Hlt|[Heq|Hgt]]; [|exact Heq|].
      - exfalso. exact (Hfirst m old Hlt Hm Hu').
      - exfalso. exact (Hfirst' n r Hgt Hn Hu). }
    rewrite Hn in Hm. injection Hm as <-.
    destruct (Z.ltb_spec (updatedAt r) (updatedAt cred)); [lia | reflexivity].
Qed.

Lemma merge_covers_own l cred : covered (merge_credential l cred) cred.
Proof.
  destruct (merge_credential_cases l cred)
    as [[F ->] | (m & old & Hm & Hu & Hfirst & ->)].
  - exists (List.length l), cred. split; [|split; [reflexivity|split; [|lia]]].
    + rewrite lookup_app_r by lia. rewrite Nat.sub_diag. reflexivity.
    + intros j y Hj Hy. rewrite lookup_app_l in Hy by exact Hj.
      rewrite Forall_forall in F. apply F. apply list_elem_of_lookup. exists j. exact Hy.
  - destruct (Z.ltb_spec (updatedAt old) (updatedAt cred)) as [Hlt|Hge].
    + exists m, cred. split; [|split; [reflexivity|split; [|lia]]].
      * apply list_lookup_insert_eq. apply lookup_lt_Some in Hm. exact Hm.
      * intros j y Hj Hy. rewrite list_lookup_insert_ne in Hy by lia.
        exact (Hfirst j y Hj Hy).
    + exists m, old. split; [exact Hm|]. split; [exact Hu|]. split; [exact Hfirst | lia].
Qed.

Lemma merge_keeps_covered l cred' cred :
  covered l cred -> covered (merge_credential l cred') cred.
Proof.
  intros (n & r & Hn & Hu & Hfirst & Ht).
  destruct (merge_credential_cases l cred')
    as [[F ->] | (m & old & Hm & Hu' & Hfirst' & ->)].
  - exists n, r. pose proof (lookup_lt_Some _ _ _ Hn) as Hlen.
    split; [rewrite lookup_app_l by exact Hlen; exact Hn|].
    split; [exact Hu|]. split; [|exact Ht].
    intros j y Hj Hy. rewrite lookup_app_l in Hy by lia. exact (Hfirst j y Hj Hy).
  - destruct (Z.ltb_spec (updatedAt old) (updatedAt cred')) as [Hlt|Hge];
      [|exists n, r; repeat split; assumption].
    destruct (decide (m = n)) as [->|Hne].
    + rewrite Hn in Hm. injection Hm as <-.
      exists n, cred'. split; [|split; [congruence|split; [|lia]]].
      * apply list_lookup_insert_eq. apply lookup_lt_Some in Hn. exact Hn.
      * intros j y Hj Hy. rewrite list_lookup_insert_ne in Hy by lia.
        exact (Hfirst j y Hj Hy).
    + exists n, r. split; [rewrite list_lookup_insert_ne by exact Hne; exact Hn|].
      split; [exact Hu|]. split; [|exact Ht].
      intros j y Hj Hy. destruct (decide (m = j)) as [->|Hmj].
      * rewrite list_lookup_insert_eq in Hy by (apply lookup_lt_Some in Hm; exact Hm).
        injection Hy as <-. rewrite <- Hu'. exact (Hfirst j old Hj Hm).
      * rewrite list_lookup_insert_ne in Hy by exact Hmj. exact (Hfirst j y Hj Hy).
Qed.

Lemma merges_keep_covered creds l cred :
  covered l cred -> covered (foldl merge_credential l creds) cred.
Proof.
  revert l. induction creds as [|c creds IH]; intros l H; simpl; [exact H|].
  apply IH, merge_keeps_covered, H.
Qed.

Lemma merges_cover_own creds l : Forall (covered (foldl merge_credential l creds)) creds.
Proof.
  revert l. induction creds as [|c creds IH]; intros l; simpl; constructor.
  - apply merges_keep_covered, merge_covers_own.
  - apply IH.
Qed.

Lemma covered_merges_id creds l :
  Forall (covered l) creds -> foldl merge_credential l creds = l.
Proof.
  induction 1 as [|c creds Hc _ IH]; simpl; [reflexivity|].
  rewrite (covered_merge_id l c Hc). exact IH.
Qed.

Lemma merge_into_cons cache oc entries :
  merge_into cache (oc :: entries) =
  merge_into (<[oc.1 := foldl merge_credential (default [] (cache !! oc.1)) oc.2]> cache)
    entries.
Proof. reflexivity. Qed.

Lemma absorbed_merge_id cache entries :
  Forall (absorbed cache) entries -> merge_into cache entries = cache.
Proof.
  induction 1 as [|oc entries (l & Hl & Hc) _ IH]; [reflexivity|].
  rewrite merge_into_cons, Hl. change (default [] (Some l)) with l.
  rewrite (covered_merges_id _ l Hc), (insert_id _ _ _ Hl). exact IH.
Qed.

Lemma merge_keeps_absorbed cache entries oc :
  absorbed cache oc -> absorbed (merge_into cache entries) oc.
Proof.
  revert cache. induction entries as [|oc' entries IH]; intros cache H; [exact H|].
  rewrite merge_into_cons. apply IH.
  destruct H as (l & Hl & Hc). unfold absorbed.
  destruct (decide (oc'.1 = oc.1)) as [E|E].
  - rewrite E, Hl, lookup_insert_eq. change (default [] (Some l)) with l.
    eexists. split; [reflexivity|].
    eapply Forall_impl; [exact Hc|]. intros c. apply merges_keep_covered.
  - rewrite lookup_insert_ne by exact E. exists l. split; assumption.
Qed.

Lemma merge_absorbs_own cache entries : Forall (absorbed (merge_into cache entries)) entries.
Proof.
  revert cache. induction entries as [|oc entries IH]; intros cache; constructor.
  - rewrite merge_into_cons. apply merge_keeps_absorbed.
    eexists. split; [apply lookup_insert_eq | apply merges_cover_own].
  - rewrite merge_into_cons. apply IH.
Qed.

(** X25. Importing the same export a second time changes nothing in the
    cache. For an export that is read (an even number of hex digits, opened
    under the password, parsed into well-typed entries): after the first
    import every imported record is covered, for its user name the cache
    holds a record that is not older, and such a record is never
    replaced. *)
Theorem import_twice_is_import_once exportedData masterPassword s pt data entries :
  hex_input_ok (ex_data exportedData) = true ->
  gcm_open (scryptSync masterPassword) (Buffer_from_hex (ex_iv exportedData))
    (Buffer_from_hex (ex_authTag exportedData)) (Buffer_from_hex (ex_data exportedData))
    = Some pt ->
  JSON_parse (utf8_decode pt) = Some data ->
  Export_entries data = Some (well_typed entries) ->
  Forall (absorbed (credentialsCache (importCredentials exportedData masterPassword s).2))
         entries /\
  credentialsCache
    (importCredentials exportedData masterPassword
       (importCredentials exportedData masterPassword s).2).2
  = credentialsCache (importCredentials exportedData masterPassword s).2.
Proof.
  intros Heven Hopen Hparse Hentries.
  assert (forall s0,
            credentialsCache (importCredentials exportedData masterPassword s0).2
            = merge_into (credentialsCache s0) entries) as Hc.
  { intros s0.
    rewrite (importCredentials_well_typed _ _ s0 pt data entries Heven Hopen Hparse Hentries).
    cbn [snd].
    rewrite (keeps__saveCredentials credentialsCache object_field_credentialsCache).
    reflexivity. }
  rewrite !Hc. split; [apply merge_absorbs_own|].
  apply absorbed_merge_id, merge_absorbs_own.
Qed.

(** * The never-save list and the clearing of the store *)

(** X26. [getNeverSaveSites] lists each never-save origin once, changes
    nothing, and follows [neverSaveForSite] and [enableSaveForSite]: the
    origin of the URL is listed after the first and not after the second,
    and the other origins are listed as before. *)
Theorem getNeverSaveSites_lists url s origin :
  _getOrigin url = Some origin ->
  (forall s0, exists l,
     getNeverSaveSites s0 = (Ok l, s0) /\ NoDup l /\ forall o, o ∈ l <-> o ∈ neverSaveSites s0) /\
  (exists l, (getNeverSaveSites (neverSaveForSite url s).2).1 = Ok l /\ origin ∈ l /\
     forall o, o <> origin -> (o ∈ l <-> o ∈ neverSaveSites s)) /\
  (exists l, (getNeverSaveSites (enableSaveForSite url s).2).1 = Ok l /\ (origin ∉ l) /\
     forall o, o <> origin -> (o ∈ l <-> o ∈ neverSaveSites s)).
Proof.
  intros Ho. split; [|split].
  - intros s0. exists (elements (neverSaveSites s0)).
    split; [reflexivity|]. split; [apply NoDup_elements|]. intros o. apply elem_of_elements.
  - exists (elements (neverSaveSites (neverSaveForSite url s).2)). split; [reflexivity|].
    rewrite (neverSaveForSite_sites url origin s Ho). split.
    + apply elem_of_elements, elem_of_union. right. apply elem_of_singleton. reflexivity.
    + intros o Hne. rewrite elem_of_elements, elem_of_union, elem_of_singleton.
      split; [intros [H|H]; [exact H | contradiction] | intros H; left; exact H].
  - exists (elements (neverSaveSites (enableSaveForSite url s).2)). split; [reflexivity|].
    rewrite (enableSaveForSite_sites url origin s Ho). split.
    + rewrite elem_of_elements, elem_of_difference, elem_of_singleton.
      intros [_ H]. apply H. reflexivity.
    + intros o Hne. rewrite elem_of_elements, elem_of_difference, elem_of_singleton.
      split; [intros [H _]; exact H | intros H; split; assumption].
Qed.

(** X27. [clearAllCredentials] returns and empties the store: afterwards
    the count is zero, the management list is empty, no URL has anything
    to autofill and no user name is known at any URL, while the never-save
    list is as before. *)
Theorem clearAllCredentials_empties s :
  (clearAllCredentials s).1 = Ok tt /\
  credentialsCache (clearAllCredentials s).2 = ∅ /\
  neverSaveSites (clearAllCredentials s).2 = neverSaveSites s /\
  (getCredentialCount (clearAllCredentials s).2).1 = Ok 0 /\
  (getAllCredentials (clearAllCredentials s).2).1 = Ok [] /\
  (forall url, (getCredentials url (clearAllCredentials s).2).1 = Ok []) /\
  (forall url user secret,
     (checkExistingCredential url user secret (clearAllCredentials s).2).1
     = Ok (mkExisting none false)).
Proof.
  assert (credentialsCache (clearAllCredentials s).2 = ∅) as Hc.
  { unfold clearAllCredentials.
    rewrite (cache_after_modify_save (fun _ => ∅)); [reflexivity|].
    apply keeps_console. reflexivity. }
  assert (neverSaveSites (clearAllCredentials s).2 = neverSaveSites s) as Hn.
  { unfold clearAllCredentials.
    apply (keeps_bind neverSaveSites); [apply keeps_modify; reflexivity | intros _].
    apply keeps_bind; [apply keeps__saveCredentials, object_field_neverSaveSites | intros _].
    apply keeps_console. reflexivity. }
  assert ((clearAllCredentials s).1 = Ok tt) as Hr.
  { unfold clearAllCredentials, bind at 1. unfold modify. cbv beta iota.
    unfold bind. destruct (_saveCredentials_step (set_credentialsCache (fun _ => ∅) s))
      as (s1 & -> & _). reflexivity. }
  split; [exact Hr|]. split; [exact Hc|]. split; [exact Hn|].
  unfold getCredentialCount, getAllCredentials, getCredentials, checkExistingCredential,
    bind, gets, ret.
  rewrite Hc, map_to_list_empty. split; [reflexivity|]. split; [reflexivity|]. split.
  - intros url. destruct (_getOrigin url); [|reflexivity]. simpl. rewrite Hc, lookup_empty.
    reflexivity.
  - intros url user secret. destruct (_getOrigin url); [|reflexivity]. simpl.
    rewrite Hc, lookup_empty. reflexivity.
Qed.

End Browser.

(** * Concrete runs *)

(** The manager's operations on the sample runtime. *)
Definition sample_saveCredential : string -> string -> string -> M bool :=
  saveCredential sample_URL_parse sample_seal sample_encryptString sample_stringify_cache.
Definition sample__encrypt : Text -> M Buffer := _encrypt sample_seal sample_encryptString.
Definition sample__decrypt : Buffer -> M (option Text) :=
  _decrypt sample_open utf8_decode_plain sample_decryptString.
Definition sample_constructor : M unit :=
  constructor sample_open utf8_decode_plain sample_isEncryptionAvailable sample_decryptString
    sample_JSValue sample_JSON_parse sample_Object_entries sample_Set_of.

(** The sample cipher meets what is assumed of AES-GCM. *)
Lemma sample_gcm_sound key iv pt :
  List.length key = 32%nat -> List.length iv = 16%nat -> Forall is_byte pt ->
  exists ct tag,
    sample_seal key iv pt = Some (ct, tag) /\
    List.length tag = 16%nat /\
    Forall is_byte ct /\
    sample_open key iv tag ct = Some pt.
Proof.
  intros Hk Hi Hpt. unfold sample_seal, sample_open. rewrite Hk, Hi. simpl andb. cbv iota.
  do 2 eexists. split; [reflexivity|].
  assert (map (fun c => (c - sample_shift key iv) mod 256)
              (map (fun b => (b + sample_shift key iv) mod 256) pt) = pt) as Hback.
  { induction Hpt as [|b pt Hb _ IH]; simpl; [reflexivity|]. rewrite IH. f_equal.
    unfold is_byte in Hb. generalize (sample_shift key iv). intros k.
    Z.div_mod_to_equations; lia. }
  split; [reflexivity|]. split.
  - apply Forall_forall. intros c Hc. apply list_elem_of_fmap in Hc as (b & -> & _).
    unfold is_byte. apply Z.mod_pos_bound. lia.
  - rewrite Hback. rewrite bool_decide_true by reflexivity. reflexivity.
Qed.

Lemma save_then_autofill_witness :
  is_Some (_getOrigin sample_URL_parse "https://example.com/login") /\
  exists s1 s2 entries e,
    sample_saveCredential "https://example.com/login" "alice" "p1" sample_sys = (Ok true, s1) /\
    getCredentials sample_URL_parse "https://example.com/login" s1 = (Ok entries, s2) /\
    e ∈ entries /\ af_username e = "alice" /\ af_password e = "p1".
Proof.
  assert (is_Some (_getOrigin sample_URL_parse "https://example.com/login")) as H
    by (eexists; reflexivity).
  split; [exact H|].
  exact (save_then_autofill sample_URL_parse sample_seal sample_encryptString
           sample_stringify_cache "https://example.com/login" "alice" "p1" sample_sys H).
Defined.



(** Scenario of the specification: save, then save again with another
    secret. One record, the second secret, the first [createdAt]. *)
Example save_twice_run :
  let s1 := (sample_saveCredential "https://example.com/login" "alice" "p1" sample_sys).2 in
  let s2 := (sample_saveCredential "https://example.com/login" "alice" "p2" s1).2 in
  credentialsCache s2 !! "https://example.com" =
    Some [mkCredential "alice" "p2" 1700000000000 1700000000002].
Proof. vm_compute. reflexivity. Qed.

Lemma fallback_cipher_round_trip_witness :
  useOSStorage sample_sys = false /\ key_ready sample_sys /\ well_formed sample_text = true /\
  exists ct tag s1 s2,
    sample_seal (key_of sample_sys) (nonce_of sample_sys) (utf8_encode sample_text)
      = Some (ct, tag) /\
    List.length (nonce_of sample_sys) = 16%nat /\ List.length tag = 16%nat /\
    sample__encrypt sample_text sample_sys = (Ok (nonce_of sample_sys ++ tag ++ ct)%list, s1) /\
    sample__decrypt (nonce_of sample_sys ++ tag ++ ct)%list s1 = (Ok (Some sample_text), s2).
Proof.
  assert (key_ready sample_sys) as K by (left; split; reflexivity).
  split; [reflexivity|]. split; [exact K|]. split; [reflexivity|].
  exact (fallback_cipher_round_trip sample_seal sample_open sample_gcm_sound
           utf8_decode_plain utf8_decode_plain_encode sample_encryptString sample_decryptString
           sample_sys sample_text eq_refl K eq_refl).
Defined.

(** C3, as the specification states it, fails: the one-unit string made
    of the lone surrogate U+D800 is encrypted as U+FFFD and comes back as
    U+FFFD. *)
Lemma lone_surrogate_does_not_round_trip :
  ~ fallback_round_trip sample_seal sample_open utf8_decode_plain
      sample_encryptString sample_decryptString [55296] sample_sys.
Proof.
  intros (blob & s1 & s2 & E & D).
  pose proof (f_equal fst E) as Eb. pose proof (f_equal snd E) as Es.
  change (fst (Ok blob, s1)) with (@Ok Buffer blob) in Eb. change (snd (Ok blob, s1)) with s1 in Es.
  rewrite <- Es in D. vm_compute in Eb. injection Eb as <-.
  apply (f_equal fst) in D. vm_compute in D. discriminate.
Qed.

Example lone_surrogate_run :
  ((blob <- sample__encrypt [55296] ;; sample__decrypt blob) sample_sys).1
  = Ok (Some [65533]).
Proof. vm_compute. reflexivity. Qed.

(** C4, as the specification states it, fails: a save with the empty
    user name is accepted and the record is stored. *)
Lemma empty_username_is_saved :
  ~ rejects_invalid sample_URL_parse sample_seal sample_encryptString sample_stringify_cache
      "https://example.com/login" "" "p1" sample_sys.
Proof.
  intros H. destruct (H (or_introl eq_refl)) as [Hr _].
  apply Hr. vm_compute. reflexivity.
Qed.

Example empty_username_run :
  credentialsCache (sample_saveCredential "https://example.com/login" "" "p1" sample_sys).2
    !! "https://example.com" = Some [mkCredential "" "p1" 1700000000000 1700000000001].
Proof. vm_compute. reflexivity. Qed.

Lemma saveCredential_validates_url_only_witness :
  sample_saveCredential "not a url" "alice" "p1" sample_sys = (Ok false, sample_sys) /\
  (exists s' l r,
     sample_saveCredential "https://example.com/login" "" "" sample_sys = (Ok true, s') /\
     credentialsCache s' !! "https://example.com" = Some l /\
     r ∈ l /\ username r = "" /\ password r = "") /\
  handleFormSubmit sample_trim (Some "") (Some "p1") "https://example.com/login"
    "https://example.com" = None.
Proof.
  split; [|split].
  - exact (proj1 (saveCredential_validates_url_only sample_URL_parse sample_seal
                    sample_encryptString sample_stringify_cache sample_trim
                    "not a url" "alice" "p1" sample_sys) eq_refl).
  - exact (proj1 (proj2 (saveCredential_validates_url_only sample_URL_parse sample_seal
                           sample_encryptString sample_stringify_cache sample_trim
                           "https://example.com/login" "" "" sample_sys))
             "https://example.com" eq_refl).
  - exact (proj2 (proj2 (saveCredential_validates_url_only sample_URL_parse sample_seal
                           sample_encryptString sample_stringify_cache sample_trim
                           "https://example.com/login" "" "" sample_sys))
             "" "p1" "https://example.com/login" "https://example.com" (or_introl eq_refl)).
Defined.

(** C5, as the specification states it, fails: for a string that is not
    a URL the answer is [false] although no origin is in the never-save
    set. *)
Lemma no_prompt_without_origin :
  ~ prompt_iff_not_never sample_URL_parse "" sample_sys.
Proof.
  intros [H _]. destruct (H eq_refl) as (origin & Ho & _). discriminate Ho.
Qed.

Lemma never_save_gating_witness :
  let url := "https://example.com/login" in
  let s := sample_sys in
  let ops := [op_saveCredential url "alice" "p1";
              op_enableSaveForSite "https://news.example/";
              op_deleteCredential url "alice"] in
  is_Some (_getOrigin sample_URL_parse url) /\
  Forall (fun op => forall origin,
            _getOrigin sample_URL_parse url = Some origin ->
            not_enabling sample_URL_parse origin op) ops /\
  (shouldPromptSave sample_URL_parse url
     (exec_all sample_URL_parse sample_seal sample_encryptString sample_stringify_cache
        sample_stringify_sites ops
        (neverSaveForSite sample_URL_parse sample_stringify_sites url s).2)).1 = Ok false /\
  (shouldPromptSave sample_URL_parse url
     (enableSaveForSite sample_URL_parse sample_stringify_sites url
        (neverSaveForSite sample_URL_parse sample_stringify_sites url s).2).2).1 = Ok true.
Proof.
  intros url s ops.
  assert (is_Some (_getOrigin sample_URL_parse url)) as H by (eexists; reflexivity).
  assert (Forall (fun op => forall origin,
                    _getOrigin sample_URL_parse url = Some origin ->
                    not_enabling sample_URL_parse origin op) ops) as F.
  { repeat constructor. intros origin Ho. simpl. injection Ho as <-. discriminate. }
  split; [exact H|]. split; [exact F|]. split.
  - exact (proj1 (proj2 (never_save_gating sample_URL_parse sample_seal sample_encryptString
                           sample_stringify_cache sample_stringify_sites url s)) ops H F).
  - exact (proj1 (proj2 (proj2 (never_save_gating sample_URL_parse sample_seal
                                  sample_encryptString sample_stringify_cache
                                  sample_stringify_sites url s))) H).
Defined.

Lemma corrupt_blob_loads_empty_witness :
  disk sample_corrupt_sys credentialsFile = Stored (replicate 40 1) /\
  blob_unusable sample_open utf8_decode_plain sample_decryptString sample_JSValue
    sample_JSON_parse sample_Object_entries (replicate 40 1)
    (before_load utf8_decode_plain sample_isEncryptionAvailable sample_JSValue
       sample_JSON_parse sample_Set_of sample_corrupt_sys).2 /\
  exists s', sample_constructor sample_corrupt_sys = (Ok tt, s') /\ credentialsCache s' = ∅.
Proof.
  assert (blob_unusable sample_open utf8_decode_plain sample_decryptString sample_JSValue
            sample_JSON_parse sample_Object_entries (replicate 40 1)
            (before_load utf8_decode_plain sample_isEncryptionAvailable sample_JSValue
               sample_JSON_parse sample_Set_of sample_corrupt_sys).2) as U
    by (vm_compute; exact I).
  split; [reflexivity|]. split; [exact U|].
  exact (corrupt_blob_loads_empty sample_open utf8_decode_plain sample_isEncryptionAvailable
           sample_decryptString sample_JSValue sample_JSON_parse sample_Object_entries
           sample_Set_of sample_corrupt_sys (replicate 40 1) eq_refl U).
Defined.

(** The sample decipher turns the corrupt blob down. *)
Example corrupt_blob_run :
  (sample__decrypt (replicate 40 1) sample_corrupt_sys).1 = Ok None.
Proof. vm_compute. reflexivity. Qed.

Lemma whitelist_bypass_witness :
  sample_URL_parse "" = None /\
  sample_URL_parse "https://news.example/" = Some (mkURL "https:" "news.example" "news.example") /\
  "news.example" ∈ whitelist sample_blocker /\
  shouldBlock sample_URL_parse sample_RegExp_test sample_blocker
    "https://doubleclick.net/ads/x.js" "https://news.example/" = false.
Proof.
  assert ("news.example" ∈ whitelist sample_blocker) as W
    by (change ("news.example" ∈ ({["news.example"]} : gset string));
        apply elem_of_singleton; reflexivity).
  split; [reflexivity|]. split; [reflexivity|]. split; [exact W|].
  exact (whitelist_bypass sample_URL_parse eq_refl sample_RegExp_test sample_blocker
           "https://doubleclick.net/ads/x.js" "https://news.example/"
           (mkURL "https:" "news.example" "news.example") eq_refl W).
Defined.

(** Scenarios C and D of the specification. *)
Example scenario_C_blocked :
  shouldBlock sample_URL_parse sample_RegExp_test AdBlocker_fresh
    "https://doubleclick.net/ads/x.js" "https://news.example/" = true.
Proof. vm_compute. reflexivity. Qed.

Example scenario_D_whitelisted :
  shouldBlock sample_URL_parse sample_RegExp_test sample_blocker
    "https://doubleclick.net/ads/x.js" "https://news.example/" = false.
Proof. vm_compute. reflexivity. Qed.

Lemma main_frame_never_cancelled_witness :
  let details := mkDetails "https://doubleclick.net/" "mainFrame" "" (Some 3) in
  d_resourceType details = "mainFrame" /\
  onBeforeRequest sample_URL_parse sample_RegExp_test true details AdBlocker_fresh (Some None)
    = (mkResponse false, AdBlocker_fresh, Some None, None).
Proof.
  intros details. split; [reflexivity|].
  exact (proj1 (main_frame_never_cancelled sample_URL_parse sample_RegExp_test true details
                  AdBlocker_fresh (Some None)) eq_refl).
Defined.

(** The same URL as a script is cancelled and counted. *)
Example subresource_run :
  let details := mkDetails "https://doubleclick.net/" "script" "" (Some 3) in
  let r := onBeforeRequest sample_URL_parse sample_RegExp_test true details
             AdBlocker_fresh (Some None) in
  cancel r.1.1.1 = true /\ totalBlocked r.1.1.2 = 1 /\ getBlockedCount "3" r.1.1.2 = 1 /\
  r.1.2 = Some None.
Proof. vm_compute. repeat split. Qed.

(** C9, as the specification states it, fails: after the first blocked
    request the counter in memory is 1 and nothing has been written. *)
Lemma first_block_is_not_stored :
  ~ recordBlocked_durable "3" AdBlocker_fresh (Some None).
Proof. unfold recordBlocked_durable, durable. vm_compute. discriminate. Qed.

Lemma settings_persistence_witness :
  let ab := mkAdBlocker true 9 9 ∅ ∅ in
  let ls : Storage := Some None in
  ls <> None /\
  (toggle ab ls).1.1 = false /\
  durable (toggle ab ls).1.2 (toggle ab ls).2 /\
  durable (addToWhitelist "news.example" ab ls).1 (addToWhitelist "news.example" ab ls).2 /\
  durable (recordBlocked "3" ab ls).1 (recordBlocked "3" ab ls).2 /\
  totalBlocked (recordBlocked "3" ab ls).1 = 10.
Proof.
  intros ab ls.
  assert (ls <> None) as H by discriminate.
  pose proof (settings_persistence ab ls "news.example" "3") as (P & T & _).
  destruct (P H) as (R & _ & D1 & D2 & _ & D4).
  split; [exact H|]. split; [exact R|]. split; [exact D1|]. split; [exact D2|].
  split; [exact D4 | exact T].
Defined.

(** Scenario A of the specification: after saving (alice, p1),
    [checkExistingCredential] answers [same] for p1, [different] for p2 and
    [none] for bob. *)
Example scenario_A :
  let s := (sample_saveCredential "https://example.com/login" "alice" "p1" sample_sys).2 in
  let check user secret :=
    (checkExistingCredential sample_URL_parse "https://example.com/login" user secret s).1 in
  check "alice" "p1" = Ok (mkExisting same false) /\
  check "alice" "p2" = Ok (mkExisting different false) /\
  check "bob" "p1" = Ok (mkExisting none true).
Proof. vm_compute. repeat split. Qed.

Example mask_examples :
  _maskUsername "alice@example.com" = code_units "al***@example.com" /\
  _maskUsername "al@example.com" = code_units "al@example.com" /\
  _maskUsername "robert" = code_units "rob***" /\
  _maskUsername "bob" = code_units "bob" /\
  _maskUsername "zoë" = code_units "zoë" /\
  _maskUsername "zoë" = [122; 111; 235] /\
  _maskUsername "zoës" = code_units "zoë***" /\
  _maskUsername "éé@example.com" = code_units "éé@example.com" /\
  _maskUsername "😀ab" = [55357; 56832; 97; 42; 42; 42].
Proof. vm_compute. repeat split. Qed.

(** * Concrete runs: the store, the blocker and the backup *)

(** A store with two records at one origin. *)
Definition sample_records : list Credential :=
  [mkCredential "alice" "p1" 10 20; mkCredential "bob" "p2" 11 21].

Definition sample_store_sys : Sys :=
  mkSys (<["https://example.com" := sample_records]> ∅) ∅ false (fun _ => Missing) false
        (fun i => 37 * Z.of_nat i + 11) 0
        (fun n => 1700000000000 + Z.of_nat n) 0 [].

(** A fresh profile on a disk that cannot be written. *)
Definition sample_read_only_sys : Sys :=
  mkSys ∅ ∅ false (fun _ => Missing) true
        (fun i => 37 * Z.of_nat i + 11) 0
        (fun n => 1700000000000 + Z.of_nat n) 0 [].

Definition sample_ops : list Op :=
  [op_saveCredential "https://example.com/login" "alice" "p1";
   op_neverSaveForSite "https://news.example/";
   op_updateUsername "https://example.com/login" "alice" "carol";
   op_deleteCredential "https://example.com/login" "carol";
   op_clearAllCredentials].

Definition sample_deleteCredential : string -> string -> M bool :=
  deleteCredential sample_URL_parse sample_seal sample_encryptString sample_stringify_cache.

Lemma sample_origin :
  _getOrigin sample_URL_parse "https://example.com/login" = Some "https://example.com".
Proof. reflexivity. Qed.

Lemma sample_store_lookup :
  credentialsCache sample_store_sys !! "https://example.com" = Some sample_records.
Proof. apply lookup_insert_eq. Qed.

Lemma check_after_save_witness :
  is_Some (_getOrigin sample_URL_parse "https://example.com/login") /\
  exists s',
    sample_saveCredential "https://example.com/login" "alice" "p1" sample_sys = (Ok true, s') /\
    checkExistingCredential sample_URL_parse "https://example.com/login" "alice" "p2" s'
      = (Ok (mkExisting different false), s').
Proof.
  assert (is_Some (_getOrigin sample_URL_parse "https://example.com/login")) as H
    by (eexists; reflexivity).
  split; [exact H|].
  exact (check_after_save sample_URL_parse sample_seal sample_encryptString
           sample_stringify_cache "https://example.com/login" "alice" "p1" "p2" sample_sys H).
Defined.

Lemma saveCredential_frame_witness :
  _getOrigin sample_URL_parse "https://example.com/login" = Some "https://example.com" /\
  (forall other, other <> "carol" ->
     records_for other
       (default [] (credentialsCache
                      (sample_saveCredential "https://example.com/login" "carol" "p3"
                         sample_store_sys).2 !! "https://example.com"))
     = records_for other (default [] (credentialsCache sample_store_sys !! "https://example.com"))) /\
  neverSaveSites (sample_saveCredential "https://example.com/login" "carol" "p3"
                    sample_store_sys).2
  = neverSaveSites sample_store_sys.
Proof.
  split; [exact sample_origin|].
  exact (proj2 (saveCredential_frame sample_URL_parse sample_seal sample_encryptString
                  sample_stringify_cache "https://example.com/login" "carol" "p3"
                  sample_store_sys "https://example.com" sample_origin)).
Defined.

Lemma deleteCredential_removes_witness :
  _getOrigin sample_URL_parse "https://example.com/login" = Some "https://example.com" /\
  credentialsCache sample_store_sys !! "https://example.com" = Some sample_records /\
  exists s',
    sample_deleteCredential "https://example.com/login" "alice" sample_store_sys = (Ok true, s') /\
    records_for "alice" (default [] (credentialsCache s' !! "https://example.com")) = [] /\
    records_for "bob" (default [] (credentialsCache s' !! "https://example.com"))
      = [mkCredential "bob" "p2" 11 21].
Proof.
  split; [exact sample_origin|]. split; [exact sample_store_lookup|].
  destruct (deleteCredential_removes sample_URL_parse sample_seal sample_encryptString
              sample_stringify_cache "https://example.com/login" "alice" sample_store_sys
              "https://example.com" sample_records sample_origin sample_store_lookup)
    as (s' & Hd & Hnone & Hother & _).
  exists s'. split; [exact Hd|]. split; [exact Hnone|].
  rewrite (Hother "bob") by discriminate. reflexivity.
Defined.

Lemma delete_undoes_first_save_witness :
  _getOrigin sample_URL_parse "https://example.com/login" = Some "https://example.com" /\
  records_for "carol" (default [] (credentialsCache sample_store_sys !! "https://example.com"))
    = [] /\
  credentialsCache sample_store_sys !! "https://example.com" <> Some [] /\
  credentialsCache
    (sample_deleteCredential "https://example.com/login" "carol"
       (sample_saveCredential "https://example.com/login" "carol" "p3" sample_store_sys).2).2
  = credentialsCache sample_store_sys.
Proof.
  assert (records_for "carol"
            (default [] (credentialsCache sample_store_sys !! "https://example.com")) = [])
    as Hnone by (rewrite sample_store_lookup; reflexivity).
  assert (credentialsCache sample_store_sys !! "https://example.com" <> Some [])
    as Hsome by (rewrite sample_store_lookup; discriminate).
  split; [exact sample_origin|]. split; [exact Hnone|]. split; [exact Hsome|].
  exact (delete_undoes_first_save sample_URL_parse sample_seal sample_encryptString
           sample_stringify_cache "https://example.com/login" "carol" "p3" sample_store_sys
           "https://example.com" sample_origin Hnone Hsome).
Defined.

Lemma deleteAllForOrigin_clears_witness :
  _getOrigin sample_URL_parse "https://example.com/login" = Some "https://example.com" /\
  exists s',
    deleteAllForOrigin sample_URL_parse sample_seal sample_encryptString sample_stringify_cache
      "https://example.com/login" sample_store_sys = (Ok true, s') /\
    getCredentials sample_URL_parse "https://example.com/login" s' = (Ok [], s').
Proof.
  split; [exact sample_origin|].
  destruct (deleteAllForOrigin_clears sample_URL_parse sample_seal sample_encryptString
              sample_stringify_cache "https://example.com/login" sample_store_sys
              "https://example.com" sample_origin)
    as (s' & Hd & Hg & _).
  exists s'. split; assumption.
Defined.

Lemma getAllCredentials_lists_witness :
  map_to_list (credentialsCache sample_store_sys)
    ≡ₚ map_to_list (credentialsCache sample_store_sys) /\
  StronglySorted (fun a b => lc_updatedAt b <= lc_updatedAt a)
    (getAllCredentials_over (map_to_list (credentialsCache sample_store_sys))) /\
  Z.of_nat (List.length (getAllCredentials_over (map_to_list (credentialsCache sample_store_sys))))
  = getCredentialCount_over (map_to_list (credentialsCache sample_store_sys)).
Proof.
  split; [reflexivity|].
  destruct (getAllCredentials_lists (map_to_list (credentialsCache sample_store_sys))
              sample_store_sys (reflexivity _)) as (Hsorted & _ & Hcount).
  split; assumption.
Defined.

Lemma count_after_save_witness :
  _getOrigin sample_URL_parse "https://example.com/login" = Some "https://example.com" /\
  (getCredentialCount
     (sample_saveCredential "https://example.com/login" "carol" "p3" sample_store_sys).2).1
  = Ok (getCredentialCount_over (map_to_list (credentialsCache sample_store_sys))
        + (if decide (records_for "carol"
                        (default [] (credentialsCache sample_store_sys !! "https://example.com"))
                      = [])
           then 1 else 0)).
Proof.
  split; [exact sample_origin|].
  exact (count_after_save sample_URL_parse sample_seal sample_encryptString
           sample_stringify_cache "https://example.com/login" "carol" "p3" sample_store_sys
           "https://example.com" sample_origin).
Defined.

Lemma save_on_read_only_disk_witness :
  readOnly sample_read_only_sys = true /\
  _getOrigin sample_URL_parse "https://example.com/login" = Some "https://example.com" /\
  exists s',
    sample_saveCredential "https://example.com/login" "alice" "p1" sample_read_only_sys
      = (Ok true, s') /\
    disk s' = disk sample_read_only_sys /\
    last (console s') = Some (ERROR, "[CredentialManager] Failed to save credentials:") /\
    records_for "alice" (default [] (credentialsCache s' !! "https://example.com")) <> [].
Proof.
  split; [reflexivity|]. split; [exact sample_origin|].
  exact (save_on_read_only_disk sample_URL_parse sample_seal sample_encryptString
           sample_stringify_cache "https://example.com/login" "alice" "p1"
           sample_read_only_sys "https://example.com" eq_refl sample_origin).
Defined.

Lemma key_file_written_once_witness :
  disk sample_corrupt_sys encryptionKeyFile = Stored (replicate 32 7) /\
  disk (exec_all sample_URL_parse sample_seal sample_encryptString sample_stringify_cache
          sample_stringify_sites sample_ops sample_corrupt_sys) encryptionKeyFile
  = Stored (replicate 32 7) /\
  (_getEncryptionKey
     (exec_all sample_URL_parse sample_seal sample_encryptString sample_stringify_cache
        sample_stringify_sites sample_ops sample_corrupt_sys)).1
  = Ok (replicate 32 7).
Proof.
  split; [reflexivity|].
  exact (key_file_written_once sample_URL_parse sample_seal sample_encryptString
           sample_stringify_cache sample_stringify_sites sample_ops sample_corrupt_sys
           (replicate 32 7) eq_refl).
Defined.

Lemma getNeverSaveSites_lists_witness :
  _getOrigin sample_URL_parse "https://example.com/login" = Some "https://example.com" /\
  (exists l,
     (getNeverSaveSites
        (neverSaveForSite sample_URL_parse sample_stringify_sites "https://example.com/login"
           sample_sys).2).1 = Ok l /\
     "https://example.com" ∈ l) /\
  (exists l,
     (getNeverSaveSites
        (enableSaveForSite sample_URL_parse sample_stringify_sites "https://example.com/login"
           sample_sys).2).1 = Ok l /\
     "https://example.com" ∉ l).
Proof.
  split; [exact sample_origin|].
  destruct (getNeverSaveSites_lists sample_URL_parse sample_stringify_sites
              "https://example.com/login" sample_sys "https://example.com" sample_origin)
    as (_ & (l1 & H1 & Hin & _) & (l2 & H2 & Hout & _)).
  split; [exists l1 | exists l2]; split; assumption.
Defined.

(** ** A runtime with documents *)

(** A JSON that knows seven documents: the sample store, a never-save
    list of one origin, an export of the sample store, a backup with a newer
    record and a new one, two damaged backups, and a store with two records
    of one user name. *)
Inductive sample_document :=
| doc_store | doc_sites | doc_export | doc_backup | doc_no_array | doc_null_record
| doc_twins.

Definition text_store : Text := [123; 49; 125].
Definition text_sites : Text := [91; 49; 93].
Definition text_export : Text := [123; 50; 125].
Definition text_backup : Text := [123; 51; 125].
Definition text_no_array : Text := [123; 52; 125].
Definition text_null_record : Text := [123; 53; 125].
Definition text_twins : Text := [123; 54; 125].

Definition document_parse (text : Text) : option sample_document :=
  if bool_decide (text = text_store) then Some doc_store
  else if bool_decide (text = text_sites) then Some doc_sites
  else if bool_decide (text = text_export) then Some doc_export
  else if bool_decide (text = text_backup) then Some doc_backup
  else if bool_decide (text = text_no_array) then Some doc_no_array
  else if bool_decide (text = text_null_record) then Some doc_null_record
  else if bool_decide (text = text_twins) then Some doc_twins
  else None.

Definition backup_records : list Credential :=
  [mkCredential "alice" "p9" 10 30; mkCredential "carol" "p3" 12 22].

Definition twin_records : list Credential :=
  [mkCredential "alice" "p0" 1 2; mkCredential "alice" "p00" 3 4].

Definition document_Object_entries (v : sample_document)
    : option (list (string * list Credential)) :=
  match v with
  | doc_store => Some [("https://example.com", sample_records)]
  | doc_twins => Some [("https://example.com", twin_records)]
  | _ => None
  end.

Definition document_Set_of (v : sample_document) : option (gset string) :=
  match v with
  | doc_sites => Some {["https://example.com"]}
  | _ => None
  end.

Definition document_Export_entries (v : sample_document)
    : option (list (string * option (list (option Credential)))) :=
  match v with
  | doc_export => Some (well_typed [("https://example.com", sample_records)])
  | doc_backup => Some (well_typed [("https://example.com", backup_records)])
  | doc_no_array =>
      Some (well_typed [("https://example.com", backup_records)]
            ++ [("https://news.example", None)])%list
  | doc_null_record =>
      Some [("https://example.com",
             Some [Some (mkCredential "alice" "p9" 10 30); None;
                   Some (mkCredential "carol" "p3" 12 22)])]
  | _ => None
  end.

Definition document_stringify_cache (c : gmap string (list Credential)) : Text := text_store.
Definition document_stringify_sites (c : gset string) : Text := text_sites.
Definition document_stringify_export (d : ExportData) : Text := text_export.

(** A profile whose credentials file was not written by the manager: it
    opens under the key file and holds two records of one user name. *)
Definition sample_foreign_blob : Buffer :=
  match sample_seal (replicate 32 7) (replicate 16 9) (utf8_encode text_twins) with
  | Some (ct, authTag) => (replicate 16 9 ++ authTag ++ ct)%list
  | None => []
  end.

Definition sample_foreign_sys : Sys :=
  mkSys ∅ ∅ false
        (fun p => match p with
                  | encryptionKeyFile => Stored (replicate 32 7)
                  | credentialsFile => Stored sample_foreign_blob
                  | neverSaveFile => Missing
                  end)
        false (fun i => 37 * Z.of_nat i + 11) 0
        (fun n => 1700000000000 + Z.of_nat n) 0 [].

(** The manager constructed on that profile. *)
Definition sample_loaded_sys : Sys :=
  (constructor sample_open utf8_decode_plain sample_isEncryptionAvailable sample_decryptString
     sample_document document_parse document_Object_entries document_Set_of
     sample_foreign_sys).2.

(** A key derivation with the shape of [scryptSync]: 32 octets from the
    password. *)
Definition sample_scryptSync (masterPassword : string) : Buffer :=
  replicate 32 (Z.of_nat (String.length masterPassword) mod 256).

(** [text] sealed under the password [secret], as [exportCredentials]
    lays it out. *)
Definition sample_sealed (text : Text) : Exported :=
  match sample_seal (sample_scryptSync "secret") (replicate 16 9) (utf8_encode text) with
  | Some (ct, authTag) => mkExported (to_hex (replicate 16 9)) (to_hex authTag) (to_hex ct)
  | None => mkExported "" "" ""
  end.

Definition sample_importCredentials : Exported -> string -> M ImportResult :=
  importCredentials sample_seal sample_open utf8_decode_plain sample_encryptString
    sample_document document_parse document_stringify_cache sample_scryptSync
    document_Export_entries.

Definition sample_calls : list Call :=
  [webRequest true (mkDetails "https://doubleclick.net/ads/x.js" "script" "" (Some 3));
   adblock_toggle;
   adblock_whitelist_add "news.example";
   tab_reset "3"].

Definition sample_served : AdBlocker * Storage :=
  serve_all sample_URL_parse sample_RegExp_test sample_calls
    (AdBlocker_new (Some None), Some None).

Lemma sample_scryptSync_length masterPassword :
  List.length (sample_scryptSync masterPassword) = 32%nat.
Proof. apply length_replicate. Qed.

Lemma sample_tag_octets key iv pt ct tag :
  sample_seal key iv pt = Some (ct, tag) -> Forall is_byte tag.
Proof.
  unfold sample_seal. destruct (_ && _); [|discriminate]. intros [= _ <-].
  unfold sample_tag. apply Forall_replicate. unfold is_byte. apply Z.mod_pos_bound. lia.
Qed.

Lemma sample_sealed_opens text :
  Forall is_byte (utf8_encode text) ->
  sample_open (sample_scryptSync "secret")
    (Buffer_from_hex (ex_iv (sample_sealed text)))
    (Buffer_from_hex (ex_authTag (sample_sealed text)))
    (Buffer_from_hex (ex_data (sample_sealed text)))
  = Some (utf8_encode text).
Proof.
  intros Hb.
  destruct (sample_gcm_sound (sample_scryptSync "secret") (replicate 16 9) (utf8_encode text)
              (sample_scryptSync_length "secret") eq_refl Hb)
    as (ct & tag & Hseal & _ & Hct & Hopen).
  unfold sample_sealed. rewrite Hseal. cbn [ex_iv ex_authTag ex_data].
  rewrite !Buffer_from_hex_to_hex;
    [exact Hopen | exact Hct | exact (sample_tag_octets _ _ _ _ _ Hseal) |].
  apply Forall_replicate. unfold is_byte. lia.
Qed.

Lemma saved_store_survives_restart_witness :
  useOSStorage sample_store_sys = false /\ key_ready sample_store_sys /\
  readOnly sample_store_sys = false /\
  exists s1 s2,
    _saveCredentials sample_seal sample_encryptString document_stringify_cache sample_store_sys
      = (Ok tt, s1) /\
    constructor sample_open utf8_decode_plain sample_isEncryptionAvailable sample_decryptString
      sample_document document_parse document_Object_entries document_Set_of s1
      = (Ok tt, s2) /\
    credentialsCache s2 = credentialsCache sample_store_sys.
Proof.
  assert (key_ready sample_store_sys) as K by (left; split; reflexivity).
  split; [reflexivity|]. split; [exact K|]. split; [reflexivity|].
  apply (saved_store_survives_restart sample_seal sample_open sample_gcm_sound
           utf8_decode_plain utf8_decode_plain_encode sample_isEncryptionAvailable
           sample_encryptString sample_decryptString sample_document document_parse
           document_Object_entries document_Set_of document_stringify_cache
           sample_store_sys doc_store [("https://example.com", sample_records)]).
  - reflexivity.
  - discriminate.
  - exact K.
  - reflexivity.
  - reflexivity.
  - discriminate.
  - reflexivity.
  - reflexivity.
  - reflexivity.
Defined.

Lemma never_save_survives_restart_witness :
  _getOrigin sample_URL_parse "https://example.com/login" = Some "https://example.com" /\
  readOnly sample_sys = false /\
  exists s1 s2,
    neverSaveForSite sample_URL_parse document_stringify_sites "https://example.com/login"
      sample_sys = (Ok tt, s1) /\
    constructor sample_open utf8_decode_plain sample_isEncryptionAvailable sample_decryptString
      sample_document document_parse document_Object_entries document_Set_of s1
      = (Ok tt, s2) /\
    neverSaveSites s2 = neverSaveSites sample_sys ∪ {["https://example.com"]} /\
    shouldPromptSave sample_URL_parse "https://example.com/login" s2 = (Ok false, s2).
Proof.
  split; [exact sample_origin|]. split; [reflexivity|].
  apply (never_save_survives_restart sample_URL_parse sample_open utf8_decode_plain
           utf8_decode_plain_encode sample_isEncryptionAvailable sample_decryptString
           sample_document document_parse document_Object_entries document_Set_of
           document_stringify_sites "https://example.com/login" sample_sys
           "https://example.com" doc_sites).
  - exact sample_origin.
  - reflexivity.
  - reflexivity.
  - reflexivity.
  - reflexivity.
Defined.

Lemma restart_restores_settings_witness :
  Some None <> (None : Storage) /\
  enabled (AdBlocker_new sample_served.2) = enabled sample_served.1 /\
  whitelist (AdBlocker_new sample_served.2) = whitelist sample_served.1 /\
  0 <= totalBlocked sample_served.1 - totalBlocked (AdBlocker_new sample_served.2)
    <= sessionBlocked sample_served.1 mod 10 /\
  sessionBlocked sample_served.1 mod 10 <= 9.
Proof.
  assert (Some None <> (None : Storage)) as H by discriminate.
  split; [exact H|].
  exact (restart_restores_settings sample_URL_parse sample_RegExp_test sample_calls
           (Some None) H).
Defined.

Lemma whitelist_matches_host_exactly_witness :
  sample_URL_parse "" = None /\
  sample_URL_parse "https://news.example/"
    = Some (mkURL "https:" "news.example" "news.example") /\
  shouldBlock sample_URL_parse sample_RegExp_test
    (addToWhitelist "news.example" AdBlocker_fresh None).1
    "https://doubleclick.net/ads/x.js" "https://news.example/" = false /\
  (forall domain, domain <> "news.example" ->
     shouldBlock sample_URL_parse sample_RegExp_test
       (addToWhitelist domain AdBlocker_fresh None).1
       "https://doubleclick.net/ads/x.js" "https://news.example/"
     = shouldBlock sample_URL_parse sample_RegExp_test AdBlocker_fresh
         "https://doubleclick.net/ads/x.js" "https://news.example/").
Proof.
  split; [reflexivity|]. split; [reflexivity|].
  destruct (whitelist_matches_host_exactly sample_URL_parse eq_refl sample_RegExp_test
              AdBlocker_fresh None "https://doubleclick.net/ads/x.js" "https://news.example/"
              (mkURL "https:" "news.example" "news.example") eq_refl)
    as (Hadd & _ & Hother).
  split; [exact Hadd|]. intros domain Hne. exact (proj1 (Hother domain Hne)).
Defined.

Lemma backup_opens :
  sample_open (sample_scryptSync "secret")
    (Buffer_from_hex (ex_iv (sample_sealed text_backup)))
    (Buffer_from_hex (ex_authTag (sample_sealed text_backup)))
    (Buffer_from_hex (ex_data (sample_sealed text_backup)))
  = Some (utf8_encode text_backup).
Proof. apply sample_sealed_opens. repeat constructor; unfold is_byte; lia. Qed.


(** The merge of the backup into the sample store: the newer record of
    [alice] replaces the old one in place, [bob] stays, [carol] is
    appended. *)
Example backup_merge_run :
  foldl merge_credential sample_records backup_records =
  [mkCredential "alice" "p9" 10 30; mkCredential "bob" "p2" 11 21;
   mkCredential "carol" "p3" 12 22].
Proof. reflexivity. Qed.

Lemma import_twice_is_import_once_witness :
  hex_input_ok (ex_data (sample_sealed text_backup)) = true /\
  sample_open (sample_scryptSync "secret")
    (Buffer_from_hex (ex_iv (sample_sealed text_backup)))
    (Buffer_from_hex (ex_authTag (sample_sealed text_backup)))
    (Buffer_from_hex (ex_data (sample_sealed text_backup)))
  = Some (utf8_encode text_backup) /\
  credentialsCache
    (sample_importCredentials (sample_sealed text_backup) "secret"
       (sample_importCredentials (sample_sealed text_backup) "secret" sample_store_sys).2).2
  = credentialsCache
      (sample_importCredentials (sample_sealed text_backup) "secret" sample_store_sys).2.
Proof.
  split; [reflexivity|]. split; [exact backup_opens|].
  exact (proj2 (import_twice_is_import_once sample_seal sample_open utf8_decode_plain
                  sample_encryptString sample_document document_parse document_stringify_cache
                  sample_scryptSync document_Export_entries (sample_sealed text_backup)
                  "secret" sample_store_sys (utf8_encode text_backup) doc_backup
                  [("https://example.com", backup_records)] eq_refl backup_opens eq_refl eq_refl)).
Defined.

Lemma no_array_opens :
  sample_open (sample_scryptSync "secret")
    (Buffer_from_hex (ex_iv (sample_sealed text_no_array)))
    (Buffer_from_hex (ex_authTag (sample_sealed text_no_array)))
    (Buffer_from_hex (ex_data (sample_sealed text_no_array)))
  = Some (utf8_encode text_no_array).
Proof. apply sample_sealed_opens. repeat constructor; unfold is_byte; lia. Qed.

Lemma import_stops_midway_witness :
  hex_input_ok (ex_data (sample_sealed text_no_array)) = true /\
  sample_open (sample_scryptSync "secret")
    (Buffer_from_hex (ex_iv (sample_sealed text_no_array)))
    (Buffer_from_hex (ex_authTag (sample_sealed text_no_array)))
    (Buffer_from_hex (ex_data (sample_sealed text_no_array)))
  = Some (utf8_encode text_no_array) /\
  (sample_importCredentials (sample_sealed text_no_array) "secret" sample_store_sys).1
    = Ok import_failure /\
  credentialsCache
    (sample_importCredentials (sample_sealed text_no_array) "secret" sample_store_sys).2
  = merge_into (credentialsCache sample_store_sys) [("https://example.com", backup_records)] /\
  disk (sample_importCredentials (sample_sealed text_no_array) "secret" sample_store_sys).2
  = disk sample_store_sys.
Proof.
  split; [reflexivity|]. split; [exact no_array_opens|].
  exact (import_stops_midway sample_seal sample_open utf8_decode_plain sample_encryptString
           sample_document document_parse document_stringify_cache sample_scryptSync
           document_Export_entries (sample_sealed text_no_array) "secret" sample_store_sys
           (utf8_encode text_no_array) doc_no_array [("https://example.com", backup_records)]
           "https://news.example" [] eq_refl no_array_opens eq_refl eq_refl).
Defined.



Lemma export_then_import_witness :
  well_formed
    (document_stringify_export
       (mkExportData 1 (now sample_store_sys) (credentialsCache sample_store_sys))) = true /\
  exists exportedData s1,
    exportCredentials sample_seal sample_scryptSync document_stringify_export "secret"
      sample_store_sys = (Ok exportedData, s1) /\
    (sample_importCredentials exportedData "secret" sample_sys).1 = Ok (import_success 1) /\
    credentialsCache (sample_importCredentials exportedData "secret" sample_sys).2
    = credentialsCache sample_store_sys.
Proof.
  split; [reflexivity|].
  destruct (export_then_import sample_seal sample_open sample_gcm_sound utf8_decode_plain
              utf8_decode_plain_encode sample_encryptString sample_document document_parse
              document_stringify_cache sample_scryptSync sample_scryptSync_length
              sample_tag_octets document_stringify_export document_Export_entries "secret"
              sample_store_sys sample_sys doc_export
              [("https://example.com", sample_records)] eq_refl eq_refl eq_refl)
    as (exportedData & s1 & Hexport & _ & _ & Hr & _ & Hback).
  exists exportedData, s1. split; [exact Hexport|]. split; [exact Hr|].
  apply Hback.
  - reflexivity.
  - apply NoDup_singleton.
  - repeat constructor.
    + intros H. apply list_elem_of_singleton in H. discriminate.
    + intros H. inversion H.
  - reflexivity.
Defined.

(** ** A store that was loaded with two records of one user name *)

(** [_loadCredentials] takes the lists as the file has them. *)
Example twins_are_loaded :
  credentialsCache sample_loaded_sys !! "https://example.com" = Some twin_records.
Proof. vm_compute. reflexivity. Qed.


Example twin_records_run :
  option_map (map password)
    (credentialsCache
       (sample_saveCredential "https://example.com/login" "alice" "p2"
          (sample_saveCredential "https://example.com/login" "alice" "p1"
             sample_loaded_sys).2).2 !! "https://example.com")
  = Some ["p2"; "p00"].
Proof. vm_compute. reflexivity. Qed.

(** A backup whose data field lost its last hex digit: the import fails
    and the cache is as it was. *)
Example odd_length_data_run :
  hex_input_ok "7b337" = false /\
  (sample_importCredentials (mkExported (to_hex (replicate 16 9)) "00" "7b337") "secret"
     sample_store_sys).1 = Ok import_failure.
Proof. split; reflexivity. Qed.
